(** * LinkVault: the client-side data engine

    A shallow embedding of the Zustand store ([store/useStore.ts]), of the
    bulk-operation handlers ([components/common/bulk-action-bar.tsx],
    [components/modals/bulk-move-modal.tsx]) and of the folder creation form
    ([components/modals/create-folder-modal.tsx]), with the properties of the
    specification stated and proved over them.

    Conventions of the embedding:
    - a TypeScript [string] is a [string]; [T | null] and an optional field
      [f?: T] are [option T]; an array is a [list];
    - [new Date()], [Date.now()] and [crypto.randomUUID()] read the
      environment: the k-th reading of the system clock is [clock env k]
      (milliseconds since the epoch) and the k-th identifier handed out by
      the generator is [randomUUID env k]; the world counts the readings
      made so far;
    - a store action is a function [World -> World]; the callback given to
      Zustand's [set] computes the new collection, mirrors it to the durable
      storage and replaces the collection in memory. *)

From Stdlib Require Import List String Ascii ZArith Bool Arith Lia.
From Stdlib Require Import DecimalString DecimalNat DecimalFacts.
Import ListNotations.

Local Open Scope string_scope.
Local Open Scope list_scope.

Set Implicit Arguments.

(* ================================================================= *)
(** ** JavaScript built-ins used by the store *)

Module JS.

(** [String(n)] for a non-negative integer, as in a template literal. *)
Definition string_of_nat (n : nat) : string :=
  NilZero.string_of_uint (Nat.to_uint n).

(** [String(z)] for an integer. *)
Definition string_of_Z (z : Z) : string :=
  NilZero.string_of_int (Z.to_int z).

Definition digit (d : Z) : ascii := ascii_of_nat (48 + Z.to_nat (d mod 10)).

Definition pad2 (n : Z) : string :=
  String (digit (n / 10)) (String (digit n) "").

Definition pad3 (n : Z) : string :=
  String (digit (n / 100)) (pad2 n).

Definition pad4 (n : Z) : string :=
  String (digit (n / 1000)) (pad3 n).

(** The civil date (year, month, day) of a day number counted from
    1970-01-01, in the proleptic Gregorian calendar. *)
Definition civil_from_days (days : Z) : Z * Z * Z :=
  let z := (days + 719468)%Z in
  let era := (z / 146097)%Z in
  let doe := (z - era * 146097)%Z in
  let yoe := ((doe - doe / 1460 + doe / 36524 - doe / 146096) / 365)%Z in
  let doy := (doe - (365 * yoe + yoe / 4 - yoe / 100))%Z in
  let mp := ((5 * doy + 2) / 153)%Z in
  let d := (doy - (153 * mp + 2) / 5 + 1)%Z in
  let m := (if (mp <? 10)%Z then mp + 3 else mp - 9)%Z in
  let y := (yoe + era * 400 + (if (m <=? 2)%Z then 1 else 0))%Z in
  (y, m, d).

(** [new Date(ms).toISOString()], for instants of the years 0000 to 9999
    (the four-digit form [YYYY-MM-DDTHH:mm:ss.sssZ]). *)
Definition toISOString (ms : Z) : string :=
  let days := (ms / 86400000)%Z in
  let rest := (ms mod 86400000)%Z in
  let '(y, m, d) := civil_from_days days in
  pad4 y ++ "-" ++ pad2 m ++ "-" ++ pad2 d ++ "T"
    ++ pad2 (rest / 3600000) ++ ":" ++ pad2 (rest / 60000 mod 60) ++ ":"
    ++ pad2 (rest / 1000 mod 60) ++ "." ++ pad3 (rest mod 1000) ++ "Z".

(** Truthiness of a [string | null] value: [null] and the empty string are
    falsy. *)
Definition truthy (s : option string) : bool :=
  match s with
  | None => false
  | Some s => negb (s =? "")
  end.

(** [a || b] on a possibly absent value. *)
Definition or_else {A : Type} (a : option A) (b : A) : A :=
  match a with
  | Some x => x
  | None => b
  end.

(** [Array.prototype.find]. *)
Definition find := List.find.

(** [Array.prototype.includes] on an array of strings. *)
Definition includes (l : list string) (s : string) : bool :=
  existsb (String.eqb s) l.

(** [===] on [string | null]. *)
Definition opt_eqb (a b : option string) : bool :=
  match a, b with
  | None, None => true
  | Some x, Some y => x =? y
  | _, _ => false
  end.

End JS.

(** Chronological comparison of two ISO timestamps: on the fixed-width
    strings produced by [toISOString] it is the lexicographic one. *)
Definition iso_le (a b : string) : bool := String.leb a b.
Definition iso_lt (a b : string) : bool := String.ltb a b.

(* ================================================================= *)
(** ** Data model ([types/index.ts]) *)

Inductive Platform : Type :=
| youtube | twitter | instagram | linkedin | tiktok
| github | medium | reddit | facebook | other.

Definition Platform_eqb (a b : Platform) : bool :=
  match a, b with
  | youtube, youtube | twitter, twitter | instagram, instagram
  | linkedin, linkedin | tiktok, tiktok | github, github
  | medium, medium | reddit, reddit | facebook, facebook
  | other, other => true
  | _, _ => false
  end.

(** The closed enumeration of platforms, in declaration order. *)
Definition all_platforms : list Platform :=
  [youtube; twitter; instagram; linkedin; tiktok;
   github; medium; reddit; facebook; other].

Module Link.

Record t : Type := mk {
  id : string;
  url : string;
  title : string;
  description : string;
  thumbnail : string;
  platform : Platform;
  folderId : option string;
  isFavorite : bool;
  deletedAt : option string;
  createdAt : string;
  updatedAt : string
}.

(** [Partial<Link>]: every field may be present or not. *)
Record partial : Type := mkPartial {
  p_id : option string;
  p_url : option string;
  p_title : option string;
  p_description : option string;
  p_thumbnail : option string;
  p_platform : option Platform;
  p_folderId : option (option string);
  p_isFavorite : option bool;
  p_deletedAt : option (option string);
  p_createdAt : option string;
  p_updatedAt : option string
}.

(** The object literal [{}]. *)
Definition empty : partial :=
  mkPartial None None None None None None None None None None None.

(** [{ ...l, ...u }]: the fields present in [u] win. *)
Definition spread (l : t) (u : partial) : t :=
  mk (JS.or_else (p_id u) (id l))
     (JS.or_else (p_url u) (url l))
     (JS.or_else (p_title u) (title l))
     (JS.or_else (p_description u) (description l))
     (JS.or_else (p_thumbnail u) (thumbnail l))
     (JS.or_else (p_platform u) (platform l))
     (JS.or_else (p_folderId u) (folderId l))
     (JS.or_else (p_isFavorite u) (isFavorite l))
     (JS.or_else (p_deletedAt u) (deletedAt l))
     (JS.or_else (p_createdAt u) (createdAt l))
     (JS.or_else (p_updatedAt u) (updatedAt l)).

Definition set_updatedAt (v : string) (l : t) : t :=
  mk (id l) (url l) (title l) (description l) (thumbnail l) (platform l)
     (folderId l) (isFavorite l) (deletedAt l) (createdAt l) v.

Definition set_deletedAt (v : option string) (l : t) : t :=
  mk (id l) (url l) (title l) (description l) (thumbnail l) (platform l)
     (folderId l) (isFavorite l) v (createdAt l) (updatedAt l).

Definition set_isFavorite (v : bool) (l : t) : t :=
  mk (id l) (url l) (title l) (description l) (thumbnail l) (platform l)
     (folderId l) v (deletedAt l) (createdAt l) (updatedAt l).

Definition set_folderId (v : option string) (l : t) : t :=
  mk (id l) (url l) (title l) (description l) (thumbnail l) (platform l)
     v (isFavorite l) (deletedAt l) (createdAt l) (updatedAt l).

(** [Omit<Link, 'id' | 'createdAt' | 'updatedAt' | 'deletedAt'>], the
    argument of [addLink]. *)
Record data : Type := mkData {
  d_url : string;
  d_title : string;
  d_description : string;
  d_thumbnail : string;
  d_platform : Platform;
  d_folderId : option string;
  d_isFavorite : bool
}.

End Link.

Module Folder.

Record t : Type := mk {
  id : string;
  name : string;
  description : option string;
  color : string;
  icon : string;
  parentId : option string;
  isPlatformFolder : bool;
  platform : option Platform;
  createdAt : string;
  updatedAt : string
}.

(** [Partial<Folder>]. *)
Record partial : Type := mkPartial {
  p_id : option string;
  p_name : option string;
  p_description : option string;
  p_color : option string;
  p_icon : option string;
  p_parentId : option (option string);
  p_isPlatformFolder : option bool;
  p_platform : option Platform;
  p_createdAt : option string;
  p_updatedAt : option string
}.

Definition empty : partial :=
  mkPartial None None None None None None None None None None.

(** [{ ...f, ...u }]. *)
Definition spread (f : t) (u : partial) : t :=
  mk (JS.or_else (p_id u) (id f))
     (JS.or_else (p_name u) (name f))
     (match p_description u with Some d => Some d | None => description f end)
     (JS.or_else (p_color u) (color f))
     (JS.or_else (p_icon u) (icon f))
     (JS.or_else (p_parentId u) (parentId f))
     (JS.or_else (p_isPlatformFolder u) (isPlatformFolder f))
     (match p_platform u with Some p => Some p | None => platform f end)
     (JS.or_else (p_createdAt u) (createdAt f))
     (JS.or_else (p_updatedAt u) (updatedAt f)).

Definition set_updatedAt (v : string) (f : t) : t :=
  mk (id f) (name f) (description f) (color f) (icon f) (parentId f)
     (isPlatformFolder f) (platform f) (createdAt f) v.

(** [Omit<Folder, 'id' | 'createdAt' | 'updatedAt'>], the argument of
    [addFolder]. *)
Record data : Type := mkData {
  d_name : string;
  d_description : option string;
  d_color : string;
  d_icon : string;
  d_parentId : option string;
  d_isPlatformFolder : bool;
  d_platform : option Platform
}.

End Folder.

Inductive Theme : Type := light | dark | system.
Inductive ViewMode : Type := grid | list_view.

Record AppSettings : Type := mkSettings {
  theme : Theme;
  viewMode : ViewMode
}.

(** [constants/index.ts] *)
Definition DEFAULT_SETTINGS : AppSettings := mkSettings system grid.

(* ================================================================= *)
(** ** The environment: system clock and identifier generator *)

Record Env : Type := mkEnv {
  (** the k-th reading of the system clock, in milliseconds since the epoch *)
  clock : nat -> Z;
  (** the k-th identifier returned by [crypto.randomUUID()] *)
  randomUUID : nat -> string
}.

(** How many clock readings and identifiers have been consumed. *)
Record Sys : Type := mkSys {
  ticks : nat;
  issued : nat
}.

(** Computations that read the environment. *)
Definition Eff (A : Type) : Type := Sys -> A * Sys.

Definition ret {A : Type} (a : A) : Eff A := fun s => (a, s).

Definition bind {A B : Type} (m : Eff A) (f : A -> Eff B) : Eff B :=
  fun s => let '(a, s') := m s in f a s'.

Notation "x <- m ;; k" := (bind m (fun x => k))
  (at level 61, m at next level, right associativity).

(** [array.map(f)] for a callback that reads the environment: the elements
    are visited from left to right. *)
Fixpoint mapE {A B : Type} (f : A -> Eff B) (l : list A) : Eff (list B) :=
  match l with
  | [] => ret []
  | a :: l' => b <- f a ;; bs <- mapE f l' ;; ret (b :: bs)
  end.

(** [array.map((x, index) => f(x, index))], the index starting at [i]. *)
Fixpoint mapiE {A B : Type} (f : A -> nat -> Eff B) (i : nat) (l : list A)
  : Eff (list B) :=
  match l with
  | [] => ret []
  | a :: l' => b <- f a i ;; bs <- mapiE f (S i) l' ;; ret (b :: bs)
  end.

(* ================================================================= *)
(** ** The durable storage and the store state *)

(** Modelled from the spec: the durable storage behind [storage.getItem]
    and [storage.setItem] of [services/storage], which is not part of the
    sources at hand. It holds the three records kept under [STORAGE_KEYS];
    [getItem] yields the stored value, or "absent" ([None]) for a key that is
    missing or corrupt; [setItem] writes the value (the capacity of the host
    storage is not modelled: a write succeeds). *)
Record Storage : Type := mkStorage {
  linkvault_links : option (list Link.t);
  linkvault_folders : option (list Folder.t);
  linkvault_settings : option AppSettings
}.

(** The part of [AppState] the modelled operations read or write (the
    remaining fields are view state: open modals, current view, search
    filters, expanded folders). *)
Record AppState : Type := mkAppState {
  links : list Link.t;
  folders : list Folder.t;
  settings : AppSettings;
  isHydrated : bool;
  isCreateFolderModalOpen : bool;
  editingFolderId : option string;
  parentFolderId : option string
}.

Record World : Type := mkWorld {
  store : AppState;
  storage : Storage;
  sys : Sys
}.

(** The initial state of [create<AppState>]. *)
Definition initial_state : AppState :=
  mkAppState [] [] DEFAULT_SETTINGS false false None None.

(** [set({ links })] *)
Definition set_links (ls : list Link.t) (a : AppState) : AppState :=
  mkAppState ls (folders a) (settings a) (isHydrated a)
    (isCreateFolderModalOpen a) (editingFolderId a) (parentFolderId a).

(** [set({ folders })] *)
Definition set_folders (fs : list Folder.t) (a : AppState) : AppState :=
  mkAppState (links a) fs (settings a) (isHydrated a)
    (isCreateFolderModalOpen a) (editingFolderId a) (parentFolderId a).

(** [storage.setItem(STORAGE_KEYS.LINKS, ls)] *)
Definition setItem_links (ls : list Link.t) (d : Storage) : Storage :=
  mkStorage (Some ls) (linkvault_folders d) (linkvault_settings d).

(** [storage.setItem(STORAGE_KEYS.FOLDERS, fs)] *)
Definition setItem_folders (fs : list Folder.t) (d : Storage) : Storage :=
  mkStorage (linkvault_links d) (Some fs) (linkvault_settings d).

(** The body shared by the link actions: the callback of [set] has computed
    [updatedLinks]; it is written to the storage and becomes the links
    collection. *)
Definition commit_links (r : list Link.t * Sys) (w : World) : World :=
  mkWorld (set_links (fst r) (store w))
          (setItem_links (fst r) (storage w))
          (snd r).

Definition commit_folders (r : list Folder.t * Sys) (w : World) : World :=
  mkWorld (set_folders (fst r) (store w))
          (setItem_folders (fst r) (storage w))
          (snd r).

(* ================================================================= *)
(** ** The store actions ([store/useStore.ts]) *)

Section Store.

Variable env : Env.

(** [new Date().toISOString()] *)
Definition new_Date_toISOString : Eff string :=
  fun s => (JS.toISOString (clock env (ticks s)),
            mkSys (S (ticks s)) (issued s)).

(** [Date.now()] *)
Definition Date_now : Eff Z :=
  fun s => (clock env (ticks s), mkSys (S (ticks s)) (issued s)).

(** [crypto.randomUUID()] *)
Definition crypto_randomUUID : Eff string :=
  fun s => (randomUUID env (issued s), mkSys (ticks s) (S (issued s))).

(** *** Link actions *)

Definition addLink (linkData : Link.data) (w : World) : World :=
  let newLink : Eff Link.t :=
    i <- crypto_randomUUID ;;
    c <- new_Date_toISOString ;;
    u <- new_Date_toISOString ;;
    ret (Link.mk i (Link.d_url linkData) (Link.d_title linkData)
           (Link.d_description linkData) (Link.d_thumbnail linkData)
           (Link.d_platform linkData) (Link.d_folderId linkData)
           (Link.d_isFavorite linkData) None c u) in
  let '(l, s) := newLink (sys w) in
  commit_links (links (store w) ++ [l], s) w.

Definition updateLink (id : string) (updates : Link.partial) (w : World)
  : World :=
  commit_links
    (mapE (fun link =>
             if Link.id link =? id
             then u <- new_Date_toISOString ;;
                  ret (Link.set_updatedAt u (Link.spread link updates))
             else ret link)
          (links (store w)) (sys w)) w.

(** Soft delete: move to trash. *)
Definition deleteLink (id : string) (w : World) : World :=
  commit_links
    (mapE (fun link =>
             if Link.id link =? id
             then d <- new_Date_toISOString ;;
                  u <- new_Date_toISOString ;;
                  ret (Link.set_updatedAt u (Link.set_deletedAt (Some d) link))
             else ret link)
          (links (store w)) (sys w)) w.

Definition restoreLink (id : string) (w : World) : World :=
  commit_links
    (mapE (fun link =>
             if Link.id link =? id
             then u <- new_Date_toISOString ;;
                  ret (Link.set_updatedAt u (Link.set_deletedAt None link))
             else ret link)
          (links (store w)) (sys w)) w.

Definition permanentlyDeleteLink (id : string) (w : World) : World :=
  commit_links
    (filter (fun link => negb (Link.id link =? id)) (links (store w)), sys w)
    w.

Definition toggleFavorite (id : string) (w : World) : World :=
  commit_links
    (mapE (fun link =>
             if Link.id link =? id
             then u <- new_Date_toISOString ;;
                  ret (Link.set_updatedAt u
                         (Link.set_isFavorite (negb (Link.isFavorite link))
                            link))
             else ret link)
          (links (store w)) (sys w)) w.

(** *** Folder actions *)

Definition addFolder (folderData : Folder.data) (w : World) : World :=
  let newFolder : Eff Folder.t :=
    i <- crypto_randomUUID ;;
    c <- new_Date_toISOString ;;
    u <- new_Date_toISOString ;;
    ret (Folder.mk i (Folder.d_name folderData)
           (Folder.d_description folderData) (Folder.d_color folderData)
           (Folder.d_icon folderData) (Folder.d_parentId folderData)
           (Folder.d_isPlatformFolder folderData)
           (Folder.d_platform folderData) c u) in
  let '(f, s) := newFolder (sys w) in
  commit_folders (folders (store w) ++ [f], s) w.

Definition updateFolder (id : string) (updates : Folder.partial) (w : World)
  : World :=
  commit_folders
    (mapE (fun folder =>
             if Folder.id folder =? id
             then u <- new_Date_toISOString ;;
                  ret (Folder.set_updatedAt u (Folder.spread folder updates))
             else ret folder)
          (folders (store w)) (sys w)) w.

Definition deleteFolder (id : string) (w : World) : World :=
  commit_folders
    (filter (fun folder => negb (Folder.id folder =? id))
       (folders (store w)), sys w)
    w.

(** *** UI actions used by the folder form *)

Definition setCreateFolderModalOpen (isOpen : bool) (w : World) : World :=
  let a := store w in
  mkWorld (mkAppState (links a) (folders a) (settings a) (isHydrated a)
             isOpen (editingFolderId a) (parentFolderId a))
          (storage w) (sys w).

Definition setEditingFolder (folderId : option string) (w : World) : World :=
  let a := store w in
  mkWorld (mkAppState (links a) (folders a) (settings a) (isHydrated a)
             (isCreateFolderModalOpen a) folderId (parentFolderId a))
          (storage w) (sys w).

Definition setParentFolder (folderId : option string) (w : World) : World :=
  let a := store w in
  mkWorld (mkAppState (links a) (folders a) (settings a) (isHydrated a)
             (isCreateFolderModalOpen a) (editingFolderId a) folderId)
          (storage w) (sys w).

End Store.

(* ================================================================= *)
(** ** Hydration ([loadFromStorage]) *)

(** An entry of the table [PLATFORM_FOLDERS] of [constants/folder-icons]. *)
Record PlatformFolder : Type := mkPlatformFolder {
  pf_name : string;
  pf_color : string;
  pf_iconName : string;
  pf_platform : Platform
}.

Section Hydration.

Variable env : Env.

(** The table itself is not part of the sources at hand: the store is
    modelled for an arbitrary table. *)
Variable PLATFORM_FOLDERS : list PlatformFolder.

(** The callback of [PLATFORM_FOLDERS.map((pf, index) => ...)]. *)
Definition platform_folder (pf : PlatformFolder) (index : nat)
  : Eff Folder.t :=
  n <- Date_now env ;;
  c <- new_Date_toISOString env ;;
  u <- new_Date_toISOString env ;;
  ret (Folder.mk
         ("platform-folder-" ++ JS.string_of_nat index ++ "-"
            ++ JS.string_of_Z n)
         (pf_name pf) (Some "") (pf_color pf) (pf_iconName pf) None true
         (Some (pf_platform pf)) c u).

Definition loadFromStorage (w : World) : World :=
  let links := JS.or_else (linkvault_links (storage w)) [] in
  let folders := JS.or_else (linkvault_folders (storage w)) [] in
  let settings := JS.or_else (linkvault_settings (storage w)) DEFAULT_SETTINGS in
  let a := store w in
  if (List.length folders =? 0)%nat then
    (* Initialize platform folders if no folders exist *)
    let '(folders', s) := mapiE platform_folder 0 PLATFORM_FOLDERS (sys w) in
    mkWorld (mkAppState links folders' settings true
               (isCreateFolderModalOpen a) (editingFolderId a)
               (parentFolderId a))
            (setItem_folders folders' (storage w))
            s
  else
    mkWorld (mkAppState links folders settings true
               (isCreateFolderModalOpen a) (editingFolderId a)
               (parentFolderId a))
            (storage w)
            (sys w).

End Hydration.

(* ================================================================= *)
(** ** Folder hierarchy utilities ([utils/folder-utils]) *)

(** Modelled from the spec: [MAX_SUB_FOLDERS_PER_FOLDER] of
    [utils/folder-utils], the configured limit of direct children of a
    folder (10). *)
Definition MAX_SUB_FOLDERS_PER_FOLDER : nat := 10.

(** Modelled from the spec: [getRootFolders] of [utils/folder-utils], the
    folders with [parentId == null], in collection order. *)
Definition getRootFolders (folders : list Folder.t) : list Folder.t :=
  filter (fun f => JS.opt_eqb (Folder.parentId f) None) folders.

(** Modelled from the spec: [getSubFolderCount] of [utils/folder-utils], the
    count of folders with [parentId == parentId]. *)
Definition getSubFolderCount (parentId : string) (folders : list Folder.t)
  : nat :=
  List.length (filter (fun f => JS.opt_eqb (Folder.parentId f) (Some parentId))
            folders).

(** Modelled from the spec: [canAddSubFolder] of [utils/folder-utils],
    [getSubFolderCount(parentId, folders) < MAX_SUB_FOLDERS_PER_FOLDER]. *)
Definition canAddSubFolder (parentId : string) (folders : list Folder.t)
  : bool :=
  (getSubFolderCount parentId folders <? MAX_SUB_FOLDERS_PER_FOLDER)%nat.

(* ================================================================= *)
(** ** The folder form ([components/modals/create-folder-modal.tsx]) *)

(** An entry of the table [FOLDER_ICONS] of [constants/folder-icons]. *)
Record FolderIcon : Type := mkFolderIcon {
  fi_name : string;
  fi_color : string
}.

(** The validated form data. *)
Record FolderFormData : Type := mkFolderFormData {
  fd_name : string;
  fd_iconName : string
}.

Section FolderForm.

Variable env : Env.
Variable FOLDER_ICONS : list FolderIcon.

(** [editingFolderId ? folders.find(f => f.id === editingFolderId) : null] *)
Definition editingFolder (w : World) : option Folder.t :=
  match editingFolderId (store w) with
  | Some e =>
      if JS.truthy (Some e)
      then JS.find (fun f => Folder.id f =? e) (folders (store w))
      else None
  | None => None
  end.

(** [iconOption?.color || "#F59E0B"] *)
Definition icon_color (iconName : string) : string :=
  match JS.find (fun i => fi_name i =? iconName) FOLDER_ICONS with
  | Some i => if JS.truthy (Some (fi_color i)) then fi_color i else "#F59E0B"
  | None => "#F59E0B"
  end.

Definition handleClose (w : World) : World :=
  setCreateFolderModalOpen false
    (setParentFolder None (setEditingFolder None w)).

(** [onSubmit]: the two validations return before anything is written; the
    toasts are presentation only. *)
Definition onSubmit (data : FolderFormData) (w : World) : World :=
  let fs := folders (store w) in
  let isEditMode :=
    match editingFolder w with Some _ => true | None => false end in
  let rejected :=
    match parentFolderId (store w) with
    | Some p =>
        if negb isEditMode && JS.truthy (Some p) then
          (* Validate: Cannot create sub-folder inside a sub-folder *)
          match JS.find (fun f => Folder.id f =? p) fs with
          | Some parent =>
              match Folder.parentId parent with
              | None => negb (canAddSubFolder p fs)
              | Some _ => true
              end
          | None => true
          end
        else false
    | None => false
    end in
  if rejected then w
  else
    let color := icon_color (fd_iconName data) in
    match editingFolder w with
    | Some ef =>
        handleClose
          (updateFolder env (Folder.id ef)
             (Folder.mkPartial None (Some (fd_name data)) None (Some color)
                (Some (fd_iconName data)) None None None None None)
             w)
    | None =>
        handleClose
          (addFolder env
             (Folder.mkData (fd_name data) (Some "") color
                (fd_iconName data) (parentFolderId (store w)) false None)
             w)
    end.

End FolderForm.

(* ================================================================= *)
(** ** The bulk operation coordinator *)

Record Toast : Type := mkToast {
  toast_title : string;
  toast_description : string
}.

(** The state around the store that the bulk handlers touch: the selection
    held by the page ([selectedIds] of [app/page.tsx]), the toasts shown and
    the confirmation dialogs opened so far. *)
Record UI : Type := mkUI {
  selectedIds : list string;
  toasts : list Toast;
  confirms : list string
}.

(** [handleClearSelection] of the page, passed as [onClearSelection]. *)
Definition onClearSelection (u : UI) : UI :=
  mkUI [] (toasts u) (confirms u).

Definition toast (t : Toast) (u : UI) : UI :=
  mkUI (selectedIds u) (toasts u ++ [t]) (confirms u).

Definition window_confirm (message : string) (u : UI) : UI :=
  mkUI (selectedIds u) (toasts u) (confirms u ++ [message]).

(** [n === 1 ? 'item' : 'items'] *)
Definition items (n : nat) : string :=
  if (n =? 1)%nat then "item" else "items".

Section Bulk.

Variable env : Env.

(** [links.filter(link => selectedIds.includes(link.id))] *)
Definition selectedLinks (ids : list string) (ls : list Link.t)
  : list Link.t :=
  filter (fun link => JS.includes ids (Link.id link)) ls.

Definition hasMixedStates (sl : list Link.t) : bool :=
  existsb Link.isFavorite sl
  && existsb (fun link => negb (Link.isFavorite link)) sl.

(** [hasMixedStates ? true : !selectedLinks[0]?.isFavorite] *)
Definition shouldFavorite (sl : list Link.t) : bool :=
  if hasMixedStates sl then true
  else match sl with
       | first :: _ => negb (Link.isFavorite first)
       | [] => true
       end.

(** [ids.forEach(id => action(id))] *)
Definition forEach (action : string -> World -> World) (ids : list string)
  (w : World) : World :=
  fold_left (fun w' id => action id w') ids w.

Definition handleBulkFavorite (st : World * UI) : World * UI :=
  let '(w, u) := st in
  let ids := selectedIds u in
  let fav := shouldFavorite (selectedLinks ids (links (store w))) in
  let n := List.length ids in
  let w' :=
    forEach (fun id =>
               updateLink env id
                 (Link.mkPartial None None None None None None None
                    (Some fav) None None None))
      ids w in
  (w',
   toast (mkToast
            (if fav then "Added to favorites" else "Removed from favorites")
            (JS.string_of_nat n ++ " " ++ items n ++ " "
               ++ (if fav then "added to" else "removed from")
               ++ " favorites."))
     u).

Definition handleConfirmDelete (st : World * UI) : World * UI :=
  let '(w, u) := st in
  let ids := selectedIds u in
  let n := List.length ids in
  let w' := forEach (deleteLink env) ids w in
  (w',
   onClearSelection
     (toast (mkToast "Items deleted"
               (JS.string_of_nat n ++ " " ++ items n ++ " moved to trash."))
        u)).

(** [handleMoveComplete] of the action bar, passed to the move modal as
    [onComplete]. *)
Definition handleMoveComplete (movedCount : nat) (u : UI) : UI :=
  if (0 <? movedCount)%nat then
    onClearSelection
      (toast (mkToast "Items moved"
                (JS.string_of_nat movedCount ++ " " ++ items movedCount
                   ++ " moved successfully."))
         u)
  else u.

(** The loop of [handleMove]: [links] is the collection as it was when the
    handler started, [w] the world the store actions have reached. *)
Fixpoint move_loop (links0 : list Link.t) (target : string)
  (ids : list string) (w : World) (movedCount : nat) : World * nat :=
  match ids with
  | [] => (w, movedCount)
  | id :: ids' =>
      match JS.find (fun l => Link.id l =? id) links0 with
      | Some link =>
          if negb (JS.opt_eqb (Link.folderId link) (Some target)) then
            move_loop links0 target ids'
              (updateLink env id
                 (Link.mkPartial None None None None None None
                    (Some (Some target)) None None None None) w)
              (S movedCount)
          else move_loop links0 target ids' w movedCount
      | None => move_loop links0 target ids' w movedCount
      end
  end.

(** [handleMove] of the move modal; [selectedFolderId] is the folder chosen
    in the modal and [proceed] the answer the user gives should the
    confirmation dialog open. *)
Definition handleMove (selectedFolderId : option string) (proceed : bool)
  (st : World * UI) : World * UI :=
  let '(w, u) := st in
  match selectedFolderId with
  | None => st
  | Some target =>
      if negb (JS.truthy (Some target)) then st
      else
        let links0 := links (store w) in
        let ids := selectedIds u in
        let alreadyInFolder :=
          filter (fun link => JS.opt_eqb (Link.folderId link) (Some target))
            (selectedLinks ids links0) in
        let n := List.length alreadyInFolder in
        let u1 :=
          if (0 <? n)%nat then
            window_confirm
              (JS.string_of_nat n ++ " "
                 ++ (if (n =? 1)%nat then "item is" else "items are")
                 ++ " already in the selected folder. Continue moving all selected items (including those already in the folder)?")
              u
          else u in
        if (0 <? n)%nat && negb proceed then (w, u1)
        else
          let '(w', movedCount) := move_loop links0 target ids w 0 in
          (w', handleMoveComplete movedCount u1)
  end.

End Bulk.

(* ================================================================= *)
(** ** Concrete environments used to evaluate the model *)

Module Demo.

(** A clock that advances by one millisecond at every reading, started on
    2025-10-18T00:00:00.000Z. *)
Definition ticking : nat -> Z := fun k => (1760745600000 + Z.of_nat k)%Z.

(** A clock that stands still. *)
Definition frozen : nat -> Z := fun _ => 1760745600000%Z.

(** Identifiers in the textual form of a version-4 UUID. *)
Definition uuid (k : nat) : string :=
  "00000000-0000-4000-8000-0000000000" ++ JS.pad2 (Z.of_nat k).

Definition env : Env := mkEnv ticking uuid.
Definition env_frozen : Env := mkEnv frozen uuid.

Definition a_link (id : string) (folderId : option string) (fav : bool)
  : Link.t :=
  Link.mk id ("https://example.org/" ++ id) id "" "" other folderId fav None
    "2025-01-01T00:00:00.000Z" "2025-01-01T00:00:00.000Z".

Definition world (ls : list Link.t) (fs : list Folder.t) : World :=
  mkWorld (mkAppState ls fs DEFAULT_SETTINGS true false None None)
          (mkStorage (Some ls) (Some fs) None)
          (mkSys 0 0).

Definition empty_world : World :=
  mkWorld initial_state (mkStorage None None None) (mkSys 0 0).

(** A store that holds two links, added one after the other to the empty
    store: their identifiers are the first two values of the generator. *)
Definition data0 : Link.data :=
  Link.mkData "https://example.org/0" "Zero" "" "" other None false.

Definition data1 : Link.data :=
  Link.mkData "https://example.org/1" "One" "" "" other None true.

Definition two_links : World :=
  addLink env data1 (addLink env data0 empty_world).

(** The argument [{ id: v }] of [updateLink]. *)
Definition id_update (v : string) : Link.partial :=
  Link.mkPartial (Some v) None None None None None None None None None None.

Definition table : list PlatformFolder :=
  map (fun p => mkPlatformFolder "Platform" "#6B7280" "Link" p) all_platforms.

Definition icons : list FolderIcon := [mkFolderIcon "Folder" "#F59E0B"].

End Demo.


(* ================================================================= *)
(** ** Vocabulary of the statements *)

(** A callback that only reads the clock. *)
Definition clock_only {A B : Type} (f : A -> Eff B) : Prop :=
  forall a s,
    ticks s <= ticks (snd (f a s)) /\ issued (snd (f a s)) = issued s.

(** The link at position [i] of the links collection. *)
Definition link_at (w : World) (i : nat) (l : Link.t) : Prop :=
  nth_error (links (store w)) i = Some l.

(** The timestamp written by the k-th reading of the clock. *)
Definition stamp (env : Env) (k : nat) : string :=
  JS.toISOString (clock env k).

(** No link of the collection carries the identifier [id]. *)
Definition absent_link (id : string) (w : World) : Prop :=
  forall l, In l (links (store w)) -> Link.id l <> id.

(** No folder of the collection carries the identifier [id]. *)
Definition absent_folder (id : string) (w : World) : Prop :=
  forall f, In f (folders (store w)) -> Folder.id f <> id.

(** The generator has not repeated itself among its first [n] values. *)
Definition distinct_below (env : Env) (n : nat) : Prop :=
  forall i j, i < j < n -> randomUUID env i <> randomUUID env j.

(** Every link identifier of the collection is one the generator has
    handed out. *)
Definition link_ids_issued (env : Env) (w : World) : Prop :=
  forall l, In l (links (store w)) ->
    exists j, j < issued (sys w) /\ Link.id l = randomUUID env j.

(** Both collections of [w'] are those of [w]. *)
Definition same_collections (w w' : World) : Prop :=
  links (store w') = links (store w)
  /\ folders (store w') = folders (store w).

(** Whether a link is in the trash. *)
Definition in_trash (l : Link.t) : bool :=
  match Link.deletedAt l with
  | Some _ => true
  | None => false
  end.

(** What [storage.getItem(STORAGE_KEYS.FOLDERS) || []] yields. *)
Definition stored_folders (w : World) : list Folder.t :=
  JS.or_else (linkvault_folders (storage w)) [].

(** The number of folders tied to the platform [p]. *)
Definition platform_count (p : Platform) (fs : list Folder.t) : nat :=
  List.length
    (filter (fun f => match Folder.platform f with
                      | Some q => Platform_eqb q p
                      | None => false
                      end) fs).

(** The number of entries of the table for the platform [p]. *)
Definition table_count (p : Platform) (table : list PlatformFolder) : nat :=
  List.length (filter (fun pf => Platform_eqb (pf_platform pf) p) table).

(** The table lists every platform of the enumeration once. *)
Definition one_entry_per_platform (table : list PlatformFolder) : Prop :=
  forall p, table_count p table = 1.

(** A built-in root folder. *)
Definition is_platform_root (f : Folder.t) : Prop :=
  Folder.isPlatformFolder f = true
  /\ Folder.parentId f = None
  /\ Folder.platform f <> None.

(** The argument [{ isFavorite: b }] of [updateLink]. *)
Definition favorite_update (b : bool) : Link.partial :=
  Link.mkPartial None None None None None None None (Some b) None None None.

(** The argument [{ folderId: target }] of [updateLink]. *)
Definition folder_update (target : string) : Link.partial :=
  Link.mkPartial None None None None None None (Some (Some target)) None None
    None None.

(** A selection is mixed when it holds a favorited link and one that is
    not. *)
Definition mixed (sl : list Link.t) : Prop :=
  (exists a, In a sl /\ Link.isFavorite a = true)
  /\ (exists b, In b sl /\ Link.isFavorite b = false).

(** The link is one of the selected ones. *)
Definition selected (u : UI) (l : Link.t) : bool :=
  JS.includes (selectedIds u) (Link.id l).

(** The link is already filed under [target]. *)
Definition in_folder (target : string) (l : Link.t) : bool :=
  JS.opt_eqb (Link.folderId l) (Some target).

(** The selected links already filed under [target]. *)
Definition alreadyInFolder (target : string) (u : UI) (w : World)
  : list Link.t :=
  filter (in_folder target) (selectedLinks (selectedIds u) (links (store w))).

(** Whether [handleMove] goes on to write: nothing selected is in the target
    already, or the user has answered yes. *)
Definition committed (target : string) (proceed : bool) (u : UI) (w : World)
  : bool :=
  match alreadyInFolder target u w with
  | [] => true
  | _ :: _ => proceed
  end.

(** The number of links the bulk move has to re-write: the selected links
    filed elsewhere. *)
Definition to_move (target : string) (u : UI) (w : World) : nat :=
  List.length
    (filter (fun l => selected u l && negb (in_folder target l))
       (links (store w))).

(** Identifiers are unique in the links collection. *)
Definition unique_link_ids (w : World) : Prop :=
  NoDup (map Link.id (links (store w))).

(** The test of the loop of [handleMove] on the identifier [a]: a link with
    that identifier is found and is not filed under [target]. *)
Definition should_move (links0 : list Link.t) (target : string) (a : string)
  : bool :=
  match JS.find (fun l => Link.id l =? a) links0 with
  | Some link => negb (in_folder target link)
  | None => false
  end.

(** The message of the confirmation dialog of [handleMove]. *)
Definition move_confirmation (n : nat) : string :=
  JS.string_of_nat n ++ " "
    ++ (if (n =? 1)%nat then "item is" else "items are")
    ++ " already in the selected folder. Continue moving all selected items (including those already in the folder)?".

(** The toasts of the three bulk actions. *)
Definition moved_toast (n : nat) : Toast :=
  mkToast "Items moved"
    (JS.string_of_nat n ++ " " ++ items n ++ " moved successfully.").

Definition deleted_toast (n : nat) : Toast :=
  mkToast "Items deleted"
    (JS.string_of_nat n ++ " " ++ items n ++ " moved to trash.").

Definition favorite_toast (fav : bool) (n : nat) : Toast :=
  mkToast (if fav then "Added to favorites" else "Removed from favorites")
    (JS.string_of_nat n ++ " " ++ items n ++ " "
       ++ (if fav then "added to" else "removed from") ++ " favorites.").

(* ================================================================= *)
(** ** The folder hierarchy as a state machine *)

(** The textual form of the values of [crypto.randomUUID()]: 36 characters,
    hyphens at positions 8, 13, 18 and 23, lower-case hexadecimal digits
    elsewhere. *)
Definition is_hex (c : ascii) : bool :=
  let n := nat_of_ascii c in
  ((48 <=? n)%nat && (n <=? 57)%nat) || ((97 <=? n)%nat && (n <=? 102)%nat).

Fixpoint uuid_shape (i : nat) (s : string) : bool :=
  match s with
  | EmptyString => (i =? 36)%nat
  | String c s' =>
      (if (i =? 8)%nat || (i =? 13)%nat || (i =? 18)%nat || (i =? 23)%nat
       then Ascii.eqb c "-" else is_hex c)
      && uuid_shape (S i) s'
  end.

Definition is_uuid (s : string) : bool := uuid_shape 0 s.

(** The generator returns identifiers of that form only. *)
Definition uuid_generator (env : Env) : Prop :=
  forall n, is_uuid (randomUUID env n) = true.

(** What the user can do to the folder collection: open the folder form for
    a sub-folder of a folder or for the edition of a folder, submit the form,
    and call the store's [updateFolder] and [deleteFolder]. *)
Inductive Action : Type :=
| SetParentFolder (folderId : option string)
| SetEditingFolder (folderId : option string)
| SubmitFolderForm (data : FolderFormData)
| UpdateFolder (id : string) (updates : Folder.partial)
| DeleteFolder (id : string).

Definition step (env : Env) (FOLDER_ICONS : list FolderIcon) (a : Action)
  (w : World) : World :=
  match a with
  | SetParentFolder p => setParentFolder p w
  | SetEditingFolder e => setEditingFolder e w
  | SubmitFolderForm data => onSubmit env FOLDER_ICONS data w
  | UpdateFolder id updates => updateFolder env id updates w
  | DeleteFolder id => deleteFolder id w
  end.

(** The worlds reached from the first hydration, at process start, of an
    empty storage by actions taken among the [allowed] ones. *)
Inductive reachable (env : Env) (PLATFORM_FOLDERS : list PlatformFolder)
  (FOLDER_ICONS : list FolderIcon) (allowed : Action -> Prop)
  : World -> Prop :=
| reach_hydrated w0 :
    store w0 = initial_state ->
    stored_folders w0 = [] ->
    reachable env PLATFORM_FOLDERS FOLDER_ICONS allowed
      (loadFromStorage env PLATFORM_FOLDERS w0)
| reach_step a w :
    reachable env PLATFORM_FOLDERS FOLDER_ICONS allowed w ->
    allowed a ->
    reachable env PLATFORM_FOLDERS FOLDER_ICONS allowed
      (step env FOLDER_ICONS a w).

(** Any action at all. *)
Definition any_action (a : Action) : Prop := True.

(** The actions whose [updateFolder] leaves [id] and [parentId] alone, as
    the folder form does (it updates name, icon and color). *)
Definition keeps_hierarchy (a : Action) : Prop :=
  match a with
  | UpdateFolder _ updates =>
      Folder.p_id updates = None /\ Folder.p_parentId updates = None
  | _ => True
  end.

(** The invariant of the specification: the parent of a sub-folder is in the
    collection and is a root. *)
Definition two_levels (fs : list Folder.t) : Prop :=
  forall f p,
    In f fs -> Folder.parentId f = Some p ->
    exists g, In g fs /\ Folder.id g = p /\ Folder.parentId g = None.

(** The invariant the store keeps: the folder a sub-folder names, if it is in
    the collection, is a root. *)
Definition two_levels_or_dangling (fs : list Folder.t) : Prop :=
  forall f p,
    In f fs -> Folder.parentId f = Some p ->
    forall g, In g fs -> Folder.id g = p -> Folder.parentId g = None.

(** What the hierarchy sees of a folder. *)
Definition shape (f : Folder.t) : string * option string :=
  (Folder.id f, Folder.parentId f).

(** An identifier is fresh up to the horizon [N] when the generator will not
    return it from now on (before its [N]-th value). *)
Definition not_upcoming (env : Env) (N : nat) (w : World) (s : string)
  : Prop :=
  forall n, issued (sys w) <= n < N -> s <> randomUUID env n.

(** The invariant carried along the runs. *)
Record hierarchy_inv (env : Env) (N : nat) (w : World) : Prop :=
  mk_hierarchy_inv {
  inv_levels : two_levels_or_dangling (folders (store w));
  inv_unique : NoDup (map Folder.id (folders (store w)));
  inv_nonempty : forall f, In f (folders (store w)) -> Folder.id f <> "";
  inv_ids : forall f, In f (folders (store w)) ->
            not_upcoming env N w (Folder.id f);
  inv_parents : forall f p, In f (folders (store w)) ->
                Folder.parentId f = Some p -> not_upcoming env N w p
}.

(** No dash in a string. *)
Fixpoint no_dash (s : string) : bool :=
  match s with
  | EmptyString => true
  | String c s' => negb (Ascii.eqb c "-") && no_dash s'
  end.

(** The condition under which the folder form lets a new folder in: it is a
    root, or names nothing, or names a root of the collection. *)
Definition admissible_parent (data : Folder.data) (w : World) : Prop :=
  Folder.d_parentId data = None
  \/ Folder.d_parentId data = Some ""
  \/ exists parent,
       In parent (folders (store w))
       /\ Folder.parentId parent = None
       /\ Folder.d_parentId data = Some (Folder.id parent).

(** The referenced parents are in the collection. *)
Definition parents_present (fs : list Folder.t) : Prop :=
  forall f p,
    In f fs -> Folder.parentId f = Some p ->
    exists g, In g fs /\ Folder.id g = p.

(** The actions that delete no folder (and open the form for a sub-folder
    of a named folder only). *)
Definition never_deletes (a : Action) : Prop :=
  match a with
  | DeleteFolder _ => False
  | SetParentFolder (Some s) => s <> ""
  | _ => True
  end.

Definition builds_only (a : Action) : Prop :=
  keeps_hierarchy a /\ never_deletes a.

(** [ids.forEach]-like run of a list of actions. *)
Definition run (env : Env) (FOLDER_ICONS : list FolderIcon)
  (actions : list Action) (w : World) : World :=
  fold_left (fun w' a => step env FOLDER_ICONS a w') actions w.

(** Executable forms of the two invariants. *)
Definition is_root (f : Folder.t) : bool :=
  match Folder.parentId f with
  | None => true
  | Some _ => false
  end.

Definition two_levelsb (fs : list Folder.t) : bool :=
  forallb (fun f =>
             match Folder.parentId f with
             | None => true
             | Some p =>
                 existsb (fun g => (Folder.id g =? p) && is_root g) fs
             end) fs.

Definition two_levels_or_danglingb (fs : list Folder.t) : bool :=
  forallb (fun f =>
             match Folder.parentId f with
             | None => true
             | Some p =>
                 forallb (fun g => negb (Folder.id g =? p) || is_root g) fs
             end) fs.

Module DemoRun.

(** The first hydration of an empty storage. *)
Definition hydrated : World :=
  loadFromStorage Demo.env Demo.table Demo.empty_world.

Definition youtube_folder : string := "platform-folder-0-1760745600000".
Definition twitter_folder : string := "platform-folder-1-1760745600003".

Definition form : FolderFormData := mkFolderFormData "Talks" "Folder".

(** A sub-folder is created under the first platform folder. *)
Definition create_sub : list Action :=
  [SetParentFolder (Some youtube_folder); SubmitFolderForm form].

(** ... and its parent is deleted afterwards. *)
Definition create_sub_delete_parent : list Action :=
  create_sub ++ [DeleteFolder youtube_folder].

(** Two roots are made children of one another by [updateFolder]. *)
Definition reparent : list Action :=
  [UpdateFolder youtube_folder
     (Folder.mkPartial None None None None None (Some (Some twitter_folder))
        None None None None);
   UpdateFolder twitter_folder
     (Folder.mkPartial None None None None None (Some (Some youtube_folder))
        None None None None)].

End DemoRun.

(* ================================================================= *)
(** ** More of the store ([store/useStore.ts]) *)

(** [Partial<AppSettings>]. *)
Record PartialSettings : Type := mkPartialSettings {
  p_theme : option Theme;
  p_viewMode : option ViewMode
}.

(** [{ ...state.settings, ...newSettings }] *)
Definition spread_settings (s : AppSettings) (p : PartialSettings)
  : AppSettings :=
  mkSettings (JS.or_else (p_theme p) (theme s))
             (JS.or_else (p_viewMode p) (viewMode s)).

Definition updateSettings (newSettings : PartialSettings) (w : World)
  : World :=
  let a := store w in
  let updatedSettings := spread_settings (settings a) newSettings in
  mkWorld (mkAppState (links a) (folders a) updatedSettings (isHydrated a)
             (isCreateFolderModalOpen a) (editingFolderId a)
             (parentFolderId a))
          (mkStorage (linkvault_links (storage w))
             (linkvault_folders (storage w)) (Some updatedSettings))
          (sys w).

(** A [Set<string>] as the list of its elements in insertion order. *)
Module StringSet.

Definition has (s : list string) (x : string) : bool := JS.includes s x.

Definition add (x : string) (s : list string) : list string :=
  if has s x then s else s ++ [x].

Definition delete (x : string) (s : list string) : list string :=
  filter (fun y => negb (y =? x)) s.

End StringSet.

(** [toggleFolderExpanded], on the field [expandedFolders] it rewrites. *)
Definition toggleFolderExpanded (id : string) (expandedFolders : list string)
  : list string :=
  let newExpanded := expandedFolders in
  if StringSet.has newExpanded id
  then StringSet.delete id newExpanded
  else StringSet.add id newExpanded.

(** The data actions of the store. *)
Module Act.

Inductive t : Type :=
| AddLink (linkData : Link.data)
| UpdateLink (id : string) (updates : Link.partial)
| DeleteLink (id : string)
| RestoreLink (id : string)
| PermanentlyDeleteLink (id : string)
| ToggleFavorite (id : string)
| AddFolder (folderData : Folder.data)
| UpdateFolder (id : string) (updates : Folder.partial)
| DeleteFolder (id : string)
| UpdateSettings (newSettings : PartialSettings).

Definition apply (env : Env) (a : t) (w : World) : World :=
  match a with
  | AddLink d => addLink env d w
  | UpdateLink id u => updateLink env id u w
  | DeleteLink id => deleteLink env id w
  | RestoreLink id => restoreLink env id w
  | PermanentlyDeleteLink id => permanentlyDeleteLink id w
  | ToggleFavorite id => toggleFavorite env id w
  | AddFolder d => addFolder env d w
  | UpdateFolder id u => updateFolder env id u w
  | DeleteFolder id => deleteFolder id w
  | UpdateSettings p => updateSettings p w
  end.

Definition run (env : Env) (actions : list t) (w : World) : World :=
  fold_left (fun w' a => apply env a w') actions w.

End Act.

(** The memory holds what a reload would read from the storage. *)
Definition synced (w : World) : Prop :=
  JS.or_else (linkvault_links (storage w)) [] = links (store w)
  /\ JS.or_else (linkvault_folders (storage w)) [] = folders (store w)
  /\ JS.or_else (linkvault_settings (storage w)) DEFAULT_SETTINGS
     = settings (store w).

(* ================================================================= *)
(** ** The selection held by the page ([app/page.tsx]) *)

Definition handleToggleSelect (linkId : string) (prev : list string)
  : list string :=
  if JS.includes prev linkId
  then filter (fun id => negb (id =? linkId)) prev
  else prev ++ [linkId].

(** The listener of the event [selectAllVisible]; [visibleLinkIds] are the
    identifiers of the links the page shows. *)
Definition handleSelectAllEvent (visibleLinkIds : list string)
  (prev : list string) : list string :=
  let allSelected := forallb (fun id => JS.includes prev id) visibleLinkIds in
  if allSelected then
    (* Deselect all visible *)
    filter (fun id => negb (JS.includes visibleLinkIds id)) prev
  else
    (* Select all visible *)
    fold_left (fun newSelection id =>
                 if negb (JS.includes newSelection id)
                 then newSelection ++ [id]
                 else newSelection)
      visibleLinkIds prev.

(* ================================================================= *)
(** ** The selection state of the action bar
       ([components/common/bulk-action-bar.tsx]) *)

Definition allSelected (selectedIds : list string) (totalVisibleItems : nat)
  : bool :=
  (List.length selectedIds =? totalVisibleItems)%nat
  && (0 <? totalVisibleItems)%nat.

Definition someSelected (selectedIds : list string) (totalVisibleItems : nat)
  : bool :=
  (0 <? List.length selectedIds)%nat
  && (List.length selectedIds <? totalVisibleItems)%nat.

Definition noneSelected (selectedIds : list string) : bool :=
  (List.length selectedIds =? 0)%nat.

(** [handleSelectAll]: the event it dispatches is handled, synchronously, by
    the listener of the page. *)
Definition handleSelectAll (visibleLinkIds : list string) (u : UI) : UI :=
  if allSelected (selectedIds u) (List.length visibleLinkIds)
  then onClearSelection u
  else mkUI (handleSelectAllEvent visibleLinkIds (selectedIds u))
            (toasts u) (confirms u).

(* ================================================================= *)
(** ** The counts of the sidebar ([components/layout/sidebar.tsx]) *)

Definition is_active (link : Link.t) : bool :=
  match Link.deletedAt link with
  | None => true
  | Some _ => false
  end.

Definition allLinksCount (ls : list Link.t) : nat :=
  List.length (filter is_active ls).

Definition favoritesCount (ls : list Link.t) : nat :=
  List.length (filter (fun link => Link.isFavorite link && is_active link) ls).

Definition trashCount (ls : list Link.t) : nat :=
  List.length (filter (fun link => negb (is_active link)) ls).

(** The folders the sidebar shows, in order: every root, followed by its
    sub-folders when it has some and is expanded. *)
Definition sidebar_folders (folders : list Folder.t)
  (expandedFolders : list string) : list Folder.t :=
  flat_map
    (fun folder =>
       let subFolders :=
         filter (fun f => JS.opt_eqb (Folder.parentId f)
                            (Some (Folder.id folder))) folders in
       let hasSubFolders := (0 <? List.length subFolders)%nat in
       let isExpanded := StringSet.has expandedFolders (Folder.id folder) in
       folder :: (if hasSubFolders && isExpanded then subFolders else []))
    (filter (fun f => JS.opt_eqb (Folder.parentId f) None) folders).

(* ================================================================= *)
(** ** Lazy loading of the grid ([components/links/link-grid.tsx]) *)

Definition INITIAL_LOAD : nat := 12.
Definition LOAD_MORE : nat := 12.

(** [array.slice(a, b)] for [0 <= a <= b]. *)
Definition slice {A : Type} (l : list A) (a b : nat) : list A :=
  firstn (b - a) (skipn a l).

(** [setDisplayedLinks(links.slice(0, INITIAL_LOAD))] *)
Definition initial_display (ls : list Link.t) : list Link.t :=
  slice ls 0 INITIAL_LOAD.

(** The update passed to [setDisplayedLinks] by the callback of the
    observer; [ls] is the array [links] the callback closes over, the one of
    the render that created the observer. *)
Definition load_more (ls : list Link.t) (prev : list Link.t) : list Link.t :=
  let nextIndex := List.length prev in
  let nextBatch := slice ls nextIndex (nextIndex + LOAD_MORE) in
  prev ++ nextBatch.

(** The grid between two renders: the prop [links] of the last render, the
    state [displayedLinks], and [observerRef.current], an observer being
    told by the array [links] its callback has closed over. *)
Record Grid : Type := mkGrid {
  g_links : list Link.t;
  displayedLinks : list Link.t;
  observerRef : option (list Link.t)
}.

(** The grid before its first render. *)
Definition unmounted : Grid := mkGrid [] [] None.

(** The second effect, with the values of the render it belongs to: once
    every link is displayed the observer is disconnected and dropped;
    otherwise an observer is created if there is none, and one that exists
    is kept as it is. The effect gives the same result when it runs again on
    the same values, so it is run after every render. *)
Definition observer_effect (g : Grid) : Grid :=
  if (List.length (g_links g) <=? List.length (displayedLinks g))%nat
  then mkGrid (g_links g) (displayedLinks g) None
  else match observerRef g with
       | Some _ => g
       | None => mkGrid (g_links g) (displayedLinks g) (Some (g_links g))
       end.

(** A render with a new array [links] (the first render included). Both
    effects run with the values of that render: the first asks for the
    display to be reset, the second sees the display as it still is. The
    reset causes a further render, after which the second effect runs
    again. *)
Definition render_links (ls : list Link.t) (g : Grid) : Grid :=
  let g1 := observer_effect (mkGrid ls (displayedLinks g) (observerRef g)) in
  observer_effect (mkGrid ls (initial_display ls) (observerRef g1)).

Definition mount (ls : list Link.t) : Grid := render_links ls unmounted.

(** The sentinel comes into view and the timer of the callback elapses: the
    callback of the observer at hand updates the display, and the second
    effect runs after the render this causes. Without an observer nothing
    happens. *)
Definition intersect (g : Grid) : Grid :=
  match observerRef g with
  | Some captured =>
      observer_effect
        (mkGrid (g_links g) (load_more captured (displayedLinks g))
           (observerRef g))
  | None => g
  end.

(* ================================================================= *)
(** ** The folder actions of the sidebar ([hooks/use-folder-actions.ts]) *)

(** The double quote of the messages. *)
Definition dq : string := String (ascii_of_nat 34) EmptyString.

(** [link${n > 1 ? 's' : ''}] *)
Definition plural (n : nat) : string :=
  if (1 <? n)%nat then "s" else "".

Section FolderActions.

Variable env : Env.

(** [handleEditFolder] *)
Definition handleEditFolder (folderId : string) (w : World) : World :=
  setCreateFolderModalOpen true (setEditingFolder (Some folderId) w).

(** [parentFolder?.name || 'This folder'] *)
Definition name_or_default (parentFolder : option Folder.t) : string :=
  match parentFolder with
  | Some f => if JS.truthy (Some (Folder.name f)) then Folder.name f
              else "This folder"
  | None => "This folder"
  end.

(** [handleAddSubFolder]: validates the sub-folder limit before opening the
    form. *)
Definition handleAddSubFolder (parentId : string) (st : World * UI)
  : World * UI :=
  let '(w, u) := st in
  let fs := folders (store w) in
  if negb (canAddSubFolder parentId fs) then
    let parentFolder := JS.find (fun f => Folder.id f =? parentId) fs in
    let count := getSubFolderCount parentId fs in
    (w,
     toast (mkToast "Maximum sub-folders reached"
              (dq ++ name_or_default parentFolder ++ dq ++ " already has "
                 ++ JS.string_of_nat count
                 ++ " sub-folders. You cannot create more than "
                 ++ JS.string_of_nat MAX_SUB_FOLDERS_PER_FOLDER
                 ++ " sub-folders per folder."))
       u)
  else
    (setCreateFolderModalOpen true (setParentFolder (Some parentId) w), u).

(** [getAllSubFolderIds] of [handleDeleteFolder]. The recursion follows the
    [parentId] references downwards; [fuel] bounds its depth and [None] is
    the call that does not return within that depth. *)
Fixpoint getAllSubFolderIds (fuel : nat) (fs : list Folder.t)
  (parentId : string) : option (list string) :=
  match fuel with
  | O => None
  | S fuel' =>
      let subFolders :=
        filter (fun f => JS.opt_eqb (Folder.parentId f) (Some parentId)) fs in
      let subFolderIds := map Folder.id subFolders in
      let nested :=
        fold_right
          (fun f acc =>
             match getAllSubFolderIds fuel' fs (Folder.id f), acc with
             | Some ids, Some rest => Some (ids ++ rest)
             | _, _ => None
             end)
          (Some []) subFolders in
      match nested with
      | Some nestedIds => Some (subFolderIds ++ nestedIds)
      | None => None
      end
  end.

(** The confirmation message of [handleDeleteFolder]. *)
Definition delete_confirmation (folderName : string) (linkCount : nat)
  : string :=
  let nl := String (ascii_of_nat 10) EmptyString in
  ("Delete folder " ++ dq ++ folderName ++ dq ++ "?")
    ++ (if (0 <? linkCount)%nat
        then nl ++ nl ++ "This folder contains " ++ JS.string_of_nat linkCount
               ++ " link" ++ plural linkCount ++ ". The link"
               ++ plural linkCount
               ++ " will not be deleted and will remain in " ++ dq
               ++ "All Links" ++ dq ++ "."
        else nl ++ nl ++ "This folder is empty.").

(** The links counted by [handleDeleteFolder]: those filed under the folder
    or one of its sub-folders ([link.folderId || ''] is looked up among the
    affected identifiers). Links in the trash are counted too. *)
Definition linksInFolder (allAffectedFolderIds : list string)
  (ls : list Link.t) : list Link.t :=
  filter (fun link =>
            JS.includes allAffectedFolderIds
              (JS.or_else (Link.folderId link) ""))
    ls.

(** The state [handleDeleteFolder] works on: the store, the toasts and
    dialogs, and the field [selectedFolderId] of the store. *)
Definition handleDeleteFolder (fuel : nat) (folderId folderName : string)
  (confirmed : bool) (st : World * UI * option string)
  : World * UI * option string :=
  let '(w, u, selectedFolderId) := st in
  match getAllSubFolderIds fuel (folders (store w)) folderId with
  | None => st
  | Some subs =>
      let allAffectedFolderIds := folderId :: subs in
      let linkCount :=
        List.length (linksInFolder allAffectedFolderIds (links (store w))) in
      let u1 := window_confirm (delete_confirmation folderName linkCount) u in
      if confirmed then
        (deleteFolder folderId w,
         toast (mkToast "Folder deleted"
                  (dq ++ folderName ++ dq ++ " has been deleted."))
           u1,
         (* Clear selection if the deleted folder was selected *)
         if JS.opt_eqb selectedFolderId (Some folderId) then None
         else selectedFolderId)
      else (w, u1, selectedFolderId)
  end.

End FolderActions.

(* ================================================================= *)
(** ** The link form ([components/modals/add-link-modal.tsx]) *)

(** The validated form data: [description] is optional, [folderId] optional
    and nullable. *)
Record LinkFormData : Type := mkLinkFormData {
  lf_url : string;
  lf_title : string;
  lf_description : option string;
  lf_folderId : option (option string)
}.

Section LinkForm.

Variable env : Env.

(** [detectPlatform] of [utils/platform], which is not part of the sources
    at hand: the form is modelled for an arbitrary detection. *)
Variable detectPlatform : string -> Platform.

(** [data.description], or the empty string when it is missing. *)
Definition description_or_empty (d : option string) : string :=
  match d with
  | Some s => s
  | None => ""
  end.

(** [data.folderId || null] *)
Definition folderId_or_null (f : option (option string)) : option string :=
  match f with
  | Some (Some s) => if JS.truthy (Some s) then Some s else None
  | _ => None
  end.

(** [editingLinkId ? links.find(l => l.id === editingLinkId) : null] *)
Definition editingLink (editingLinkId : option string) (w : World)
  : option Link.t :=
  match editingLinkId with
  | Some e =>
      if JS.truthy (Some e)
      then JS.find (fun l => Link.id l =? e) (links (store w))
      else None
  | None => None
  end.

(** [onSubmit] of the link form, as far as the links are concerned (the
    toast and the closing of the form are left out); [editingLinkId] is the
    field of the store and [thumbnail] the local state of the form. *)
Definition submitLink (editingLinkId : option string) (thumbnail : string)
  (data : LinkFormData) (w : World) : World :=
  let platform := detectPlatform (lf_url data) in
  match editingLink editingLinkId w with
  | Some el =>
      (* Update existing link *)
      updateLink env (Link.id el)
        (Link.mkPartial None (Some (lf_url data)) (Some (lf_title data))
           (Some (description_or_empty (lf_description data)))
           (Some thumbnail) (Some platform)
           (Some (folderId_or_null (lf_folderId data)))
           (Some (Link.isFavorite el)) None None None)
        w
  | None =>
      (* Add new link *)
      addLink env
        (Link.mkData (lf_url data) (lf_title data)
           (description_or_empty (lf_description data)) thumbnail platform
           (folderId_or_null (lf_folderId data)) false)
        w
  end.

End LinkForm.

(* ================================================================= *)
(** ** The favorite button of the two cards *)

Section Cards.

Variable env : Env.

(** [handleToggleFavorite] of the grid card
    ([components/links/link-card.tsx]); [link] is the link the card shows. *)
Definition card_toggleFavorite (link : Link.t) (w : World) : World :=
  updateLink env (Link.id link)
    (favorite_update (negb (Link.isFavorite link))) w.

(** [handleToggleFavorite] of the list card
    ([components/links/link-card-list.tsx]). *)
Definition list_card_toggleFavorite (link : Link.t) (w : World) : World :=
  toggleFavorite env (Link.id link) w.

End Cards.

(* ================================================================= *)
(** ** Keyboard shortcuts ([hooks/use-keyboard-shortcuts.ts]) *)

Record KeyboardEvent : Type := mkKeyboardEvent {
  ev_key : string;
  ev_ctrlKey : bool;
  ev_metaKey : bool;
  ev_shiftKey : bool;
  ev_altKey : bool
}.

Record KeyboardShortcut (C : Type) : Type := mkKeyboardShortcut {
  sc_key : string;
  sc_ctrlKey : option bool;
  sc_shiftKey : option bool;
  sc_altKey : option bool;
  sc_callback : C
}.

Arguments mkKeyboardShortcut {C}.
Arguments sc_key {C}.
Arguments sc_ctrlKey {C}.
Arguments sc_shiftKey {C}.
Arguments sc_altKey {C}.
Arguments sc_callback {C}.

(** Truthiness of an optional boolean. *)
Definition flag (b : option bool) : bool :=
  match b with
  | Some true => true
  | _ => false
  end.

Section Shortcuts.

Variable C : Type.

(** [String.prototype.toLowerCase], a built-in. *)
Variable toLowerCase : string -> string.

Definition matches (event : KeyboardEvent) (shortcut : KeyboardShortcut C)
  : bool :=
  let matchesKey := toLowerCase (ev_key event) =? toLowerCase (sc_key shortcut) in
  let matchesCtrl :=
    if flag (sc_ctrlKey shortcut)
    then ev_ctrlKey event || ev_metaKey event
    else negb (ev_ctrlKey event) && negb (ev_metaKey event) in
  let matchesShift :=
    if flag (sc_shiftKey shortcut) then ev_shiftKey event
    else negb (ev_shiftKey event) in
  let matchesAlt :=
    if flag (sc_altKey shortcut) then ev_altKey event
    else negb (ev_altKey event) in
  matchesKey && matchesCtrl && matchesShift && matchesAlt.

(** [handleKeyDown]: the callbacks run, in the order of the shortcuts. *)
Definition handleKeyDown (shortcuts : list (KeyboardShortcut C))
  (event : KeyboardEvent) : list C :=
  (* Skip if event.key is not available *)
  if negb (JS.truthy (Some (ev_key event))) then []
  else map sc_callback (filter (matches event) shortcuts).

(** What a shortcut asks for: its key in lower case and, for each of the
    three modifiers, whether it has to be down. *)
Definition signature (shortcut : KeyboardShortcut C)
  : string * bool * bool * bool :=
  (toLowerCase (sc_key shortcut), flag (sc_ctrlKey shortcut),
   flag (sc_shiftKey shortcut), flag (sc_altKey shortcut)).

(** What an event carries: its key in lower case and the modifiers that are
    down, Control and Meta counting as one. *)
Definition chord (event : KeyboardEvent) : string * bool * bool * bool :=
  (toLowerCase (ev_key event), ev_ctrlKey event || ev_metaKey event,
   ev_shiftKey event, ev_altKey event).

End Shortcuts.

(* ================================================================= *)
(** ** Vocabulary of the further statements *)

(** No folder that is named as a parent has more than the maximum number of
    sub-folders. *)
Definition fan_out_bounded (fs : list Folder.t) : Prop :=
  forall p, p <> "" ->
    getSubFolderCount p fs <= MAX_SUB_FOLDERS_PER_FOLDER.

(** The folder at position [i] of the folders collection. *)
Definition folder_at (w : World) (i : nat) (f : Folder.t) : Prop :=
  nth_error (folders (store w)) i = Some f.

(** The direct sub-folders of [parentId]. *)
Definition children (fs : list Folder.t) (parentId : string)
  : list Folder.t :=
  filter (fun f => JS.opt_eqb (Folder.parentId f) (Some parentId)) fs.
(* ================================================================= *)
(** ** General facts about [mapE] and the commits *)

Lemma mapE_cons {A B : Type} (f : A -> Eff B) a l s :
  mapE f (a :: l) s =
  (fst (f a s) :: fst (mapE f l (snd (f a s))),
   snd (mapE f l (snd (f a s)))).
Proof.
  simpl. unfold bind, ret.
  destruct (f a s) as [b s1]. simpl.
  destruct (mapE f l s1) as [bs s2]. reflexivity.
Qed.

Lemma mapE_length {A B : Type} (f : A -> Eff B) l s :
  List.length (fst (mapE f l s)) = List.length l.
Proof.
  revert s. induction l as [|a l IH]; intros s.
  - reflexivity.
  - rewrite mapE_cons. simpl. now rewrite IH.
Qed.

Lemma mapE_sys {A B : Type} (f : A -> Eff B) l s :
  clock_only f ->
  ticks s <= ticks (snd (mapE f l s))
  /\ issued (snd (mapE f l s)) = issued s.
Proof.
  intros Hf. revert s. induction l as [|a l IH]; intros s.
  - simpl. split; [lia | reflexivity].
  - rewrite mapE_cons. simpl.
    destruct (Hf a s) as [H1 H2].
    destruct (IH (snd (f a s))) as [H3 H4].
    split; [lia | congruence].
Qed.

(** What [map] puts at position [i]: the callback applied to the element
    that was there, at some moment of the traversal. *)
Lemma mapE_nth_error {A B : Type} (f : A -> Eff B) l s i a :
  clock_only f ->
  nth_error l i = Some a ->
  exists s1,
    ticks s <= ticks s1
    /\ ticks (snd (f a s1)) <= ticks (snd (mapE f l s))
    /\ issued s1 = issued s
    /\ nth_error (fst (mapE f l s)) i = Some (fst (f a s1)).
Proof.
  intros Hf. revert s i. induction l as [|x l IH]; intros s i Hi.
  - destruct i; discriminate.
  - rewrite mapE_cons. destruct i as [|i]; simpl in *.
    + injection Hi as ->. exists s.
      destruct (mapE_sys l (snd (f a s)) Hf) as [H1 _].
      repeat split; auto.
    + destruct (IH (snd (f x s)) i Hi) as (s1 & H1 & H2 & H3 & H4).
      destruct (Hf x s) as [H5 H6].
      exists s1. repeat split; auto; try lia; congruence.
Qed.

(** A callback that returns its argument on every element of the list
    leaves the list, and the environment, as they were. *)
Lemma mapE_unchanged {A : Type} (f : A -> Eff A) l s :
  (forall a, In a l -> forall s', f a s' = (a, s')) ->
  mapE f l s = (l, s).
Proof.
  revert s. induction l as [|a l IH]; intros s H.
  - reflexivity.
  - rewrite mapE_cons, (H a (or_introl eq_refl)). simpl.
    rewrite IH by (intros; apply H; now right). reflexivity.
Qed.

Lemma filter_unchanged {A : Type} (p : A -> bool) l :
  (forall a, In a l -> p a = true) -> filter p l = l.
Proof.
  induction l as [|a l IH]; intros H; simpl.
  - reflexivity.
  - rewrite (H a (or_introl eq_refl)), IH; auto.
    intros; apply H; now right.
Qed.

Lemma links_commit_links r w : links (store (commit_links r w)) = fst r.
Proof. reflexivity. Qed.

Lemma folders_commit_links r w :
  folders (store (commit_links r w)) = folders (store w).
Proof. reflexivity. Qed.

Lemma sys_commit_links r w : sys (commit_links r w) = snd r.
Proof. reflexivity. Qed.

Lemma folders_commit_folders r w :
  folders (store (commit_folders r w)) = fst r.
Proof. reflexivity. Qed.

Lemma links_commit_folders r w :
  links (store (commit_folders r w)) = links (store w).
Proof. reflexivity. Qed.

Lemma sys_commit_folders r w : sys (commit_folders r w) = snd r.
Proof. reflexivity. Qed.

(** The clock-only callbacks of the link actions. *)
Ltac clock_only_tac :=
  let a := fresh "a" in
  let s := fresh "s" in
  intros a s; unfold bind, ret, new_Date_toISOString;
  match goal with
  | |- context [if ?c then _ else _] => destruct c
  end; simpl; split; (lia || reflexivity).


(* ================================================================= *)
(** ** What each link action does at a position of the collection *)

Section LinkActions.

Variable env : Env.

Ltac open_action :=
  unfold link_at, updateLink, deleteLink, restoreLink, toggleFavorite;
  rewrite ?links_commit_links, ?sys_commit_links.

Ltac at_position H :=
  let s1 := fresh "s1" in
  let H1 := fresh "Hlo" in
  let H2 := fresh "Hhi" in
  let H3 := fresh "Hiss" in
  let H4 := fresh "Hnth" in
  match goal with
  | |- context [mapE ?f ?l ?s] =>
      destruct (@mapE_nth_error _ _ f l s _ _ ltac:(clock_only_tac) H)
        as (s1 & H1 & H2 & H3 & H4)
  end.

Lemma updateLink_miss id u w i l :
  link_at w i l -> Link.id l <> id ->
  link_at (updateLink env id u w) i l.
Proof.
  intros H Hne. open_action. at_position H.
  rewrite Hnth. apply String.eqb_neq in Hne. rewrite Hne. reflexivity.
Qed.

Lemma updateLink_hit id u w i l :
  link_at w i l -> Link.id l = id ->
  exists k,
    ticks (sys w) <= k < ticks (sys (updateLink env id u w))
    /\ link_at (updateLink env id u w) i
         (Link.set_updatedAt (stamp env k) (Link.spread l u)).
Proof.
  intros H He. open_action. at_position H.
  apply String.eqb_eq in He. rewrite He in *.
  exists (ticks s1). simpl in *. split; [lia | exact Hnth].
Qed.

Lemma deleteLink_miss id w i l :
  link_at w i l -> Link.id l <> id -> link_at (deleteLink env id w) i l.
Proof.
  intros H Hne. open_action. at_position H.
  rewrite Hnth. apply String.eqb_neq in Hne. rewrite Hne. reflexivity.
Qed.

Lemma deleteLink_hit id w i l :
  link_at w i l -> Link.id l = id ->
  exists k,
    ticks (sys w) <= k /\ S k < ticks (sys (deleteLink env id w))
    /\ link_at (deleteLink env id w) i
         (Link.set_updatedAt (stamp env (S k))
            (Link.set_deletedAt (Some (stamp env k)) l)).
Proof.
  intros H He. open_action. at_position H.
  apply String.eqb_eq in He. rewrite He in *.
  exists (ticks s1). simpl in *. repeat split; [lia | lia | exact Hnth].
Qed.

Lemma restoreLink_miss id w i l :
  link_at w i l -> Link.id l <> id -> link_at (restoreLink env id w) i l.
Proof.
  intros H Hne. open_action. at_position H.
  rewrite Hnth. apply String.eqb_neq in Hne. rewrite Hne. reflexivity.
Qed.

Lemma restoreLink_hit id w i l :
  link_at w i l -> Link.id l = id ->
  exists k,
    ticks (sys w) <= k < ticks (sys (restoreLink env id w))
    /\ link_at (restoreLink env id w) i
         (Link.set_updatedAt (stamp env k) (Link.set_deletedAt None l)).
Proof.
  intros H He. open_action. at_position H.
  apply String.eqb_eq in He. rewrite He in *.
  exists (ticks s1). simpl in *. split; [lia | exact Hnth].
Qed.

Lemma updateLink_length id u w :
  List.length (links (store (updateLink env id u w)))
  = List.length (links (store w)).
Proof. open_action. apply mapE_length. Qed.

Lemma deleteLink_length id w :
  List.length (links (store (deleteLink env id w)))
  = List.length (links (store w)).
Proof. open_action. apply mapE_length. Qed.

Lemma restoreLink_length id w :
  List.length (links (store (restoreLink env id w)))
  = List.length (links (store w)).
Proof. open_action. apply mapE_length. Qed.

Lemma updateLink_ticks id u w :
  ticks (sys w) <= ticks (sys (updateLink env id u w)).
Proof.
  open_action.
  match goal with
  | |- context [mapE ?f ?l ?s] =>
      apply (@mapE_sys _ _ f l s ltac:(clock_only_tac))
  end.
Qed.

Lemma deleteLink_ticks id w :
  ticks (sys w) <= ticks (sys (deleteLink env id w)).
Proof.
  open_action.
  match goal with
  | |- context [mapE ?f ?l ?s] =>
      apply (@mapE_sys _ _ f l s ltac:(clock_only_tac))
  end.
Qed.

End LinkActions.

(* ================================================================= *)
(** ** Soft delete and restore *)

(** C1. For a link [L] of the collection that is not in the trash,
    [deleteLink(L.id)] followed by [restoreLink(L.id)] leaves at [L]'s
    position a link with [deletedAt == null] whose fields other than
    [updatedAt] are those of [L]; [updatedAt] is the stamp of a clock reading
    made by the restore, later than the readings made by the delete. *)
Theorem restoreLink_after_deleteLink env w i L :
  link_at w i L ->
  Link.deletedAt L = None ->
  let w1 := deleteLink env (Link.id L) w in
  let w2 := restoreLink env (Link.id L) w1 in
  exists L',
    link_at w2 i L'
    /\ Link.deletedAt L' = None
    /\ Link.id L' = Link.id L
    /\ Link.url L' = Link.url L
    /\ Link.title L' = Link.title L
    /\ Link.description L' = Link.description L
    /\ Link.thumbnail L' = Link.thumbnail L
    /\ Link.platform L' = Link.platform L
    /\ Link.folderId L' = Link.folderId L
    /\ Link.isFavorite L' = Link.isFavorite L
    /\ Link.createdAt L' = Link.createdAt L
    /\ L' = Link.set_updatedAt (Link.updatedAt L') L
    /\ List.length (links (store w2)) = List.length (links (store w))
    /\ exists k,
         ticks (sys w) + 2 <= k < ticks (sys w2)
         /\ Link.updatedAt L' = stamp env k.
Proof.
  intros Hat Hdel w1 w2.
  destruct (@deleteLink_hit env _ w i L Hat eq_refl) as (k1 & Hk1 & Hk1' & Hat1).
  fold w1 in Hat1, Hk1'.
  destruct (@restoreLink_hit env (Link.id L) w1 i _ Hat1 eq_refl)
    as (k2 & Hk2 & Hat2).
  fold w2 in Hat2, Hk2.
  assert (Hlen : List.length (links (store w2))
                 = List.length (links (store w))).
  { unfold w2, w1. now rewrite restoreLink_length, deleteLink_length. }
  eexists. split; [exact Hat2 |].
  clearbody w1 w2.
  destruct L; simpl in *. subst.
  repeat (split; [reflexivity |]).
  split; [exact Hlen |].
  exists k2. split; [lia | reflexivity].
Qed.

Lemma restoreLink_after_deleteLink_witness :
  let L := Demo.a_link "a" None true in
  let w := Demo.world [Demo.a_link "b" None false; L] [] in
  link_at w 1 L
  /\ Link.deletedAt L = None
  /\ exists L',
       link_at (restoreLink Demo.env "a" (deleteLink Demo.env "a" w)) 1 L'
       /\ Link.deletedAt L' = None
       /\ Link.createdAt L' = Link.createdAt L.
Proof.
  intros L w.
  split; [reflexivity | split; [reflexivity |]].
  destruct (@restoreLink_after_deleteLink Demo.env w 1 L eq_refl eq_refl)
    as (L' & H1 & H2 & _ & _ & _ & _ & _ & _ & _ & _ & H3 & _).
  exists L'. repeat split; assumption.
Defined.

(** C3, as the code has it. Deleting a link that is already in the trash
    keeps it in the trash and leaves all its fields but [deletedAt] and
    [updatedAt] as they were; these two are stamped again, with two
    successive readings of the clock. Links with another identifier are not
    touched. *)
Theorem deleteLink_twice_restamps env w i L d :
  link_at w i L ->
  Link.deletedAt L = Some d ->
  let w' := deleteLink env (Link.id L) w in
  (exists k,
     ticks (sys w) <= k
     /\ link_at w' i
          (Link.set_updatedAt (stamp env (S k))
             (Link.set_deletedAt (Some (stamp env k)) L)))
  /\ List.length (links (store w')) = List.length (links (store w))
  /\ (forall j M, link_at w j M -> Link.id M <> Link.id L -> link_at w' j M)
  /\ folders (store w') = folders (store w).
Proof.
  intros Hat Hdel w'. repeat split.
  - destruct (@deleteLink_hit env _ w i L Hat eq_refl) as (k & Hk & _ & Hat').
    exists k. split; assumption.
  - apply deleteLink_length.
  - intros j M HM Hne. now apply (@deleteLink_miss env).
Qed.

Lemma deleteLink_twice_restamps_witness :
  let w := deleteLink Demo.env "a" (Demo.world [Demo.a_link "a" None true] []) in
  exists L d,
    link_at w 0 L
    /\ Link.deletedAt L = Some d
    /\ exists L',
         link_at (deleteLink Demo.env (Link.id L) w) 0 L'
         /\ Link.deletedAt L' = Some (stamp Demo.env 2).
Proof.
  intros w.
  eexists. eexists.
  split; [reflexivity | split; [reflexivity |]].
  destruct (@deleteLink_twice_restamps Demo.env w 0 _ _ eq_refl eq_refl)
    as ((k & Hk & Hat) & _).
  eexists. split; [reflexivity | reflexivity].
Defined.

(** C3 as stated fails: the second [deleteLink] changes the collection,
    because the clock has moved on. *)
Lemma deleteLink_not_idempotent :
  let w1 := deleteLink Demo.env "a" (Demo.world [Demo.a_link "a" None true] []) in
  (exists L d, link_at w1 0 L /\ Link.id L = "a" /\ Link.deletedAt L = Some d)
  /\ links (store (deleteLink Demo.env "a" w1)) <> links (store w1).
Proof.
  intros w1. split.
  - eexists. eexists. repeat split; reflexivity.
  - vm_compute. discriminate.
Qed.

(* ================================================================= *)
(** ** Unknown identifiers *)

Section UnknownIdentifier.

Variable env : Env.

Lemma map_links_absent (g : Link.t -> Eff Link.t) id w :
  absent_link id w ->
  mapE (fun link => if Link.id link =? id then g link else ret link)
    (links (store w)) (sys w)
  = (links (store w), sys w).
Proof.
  intros Habs. apply mapE_unchanged. intros a Ha s'.
  apply Habs, String.eqb_neq in Ha. now rewrite Ha.
Qed.

Lemma map_folders_absent (g : Folder.t -> Eff Folder.t) id w :
  absent_folder id w ->
  mapE (fun folder => if Folder.id folder =? id then g folder else ret folder)
    (folders (store w)) (sys w)
  = (folders (store w), sys w).
Proof.
  intros Habs. apply mapE_unchanged. intros a Ha s'.
  apply Habs, String.eqb_neq in Ha. now rewrite Ha.
Qed.

(** C8. On an identifier that no link carries, [updateLink], [deleteLink],
    [restoreLink], [toggleFavorite] and [permanentlyDeleteLink], and on an
    identifier that no folder carries, [updateFolder] and [deleteFolder],
    return (the actions are total functions) and leave the links and the
    folders collections as they were; no clock reading is consumed either. *)
Theorem unknown_identifier_is_noop id (lu : Link.partial)
  (fu : Folder.partial) w :
  (absent_link id w ->
   (same_collections w (updateLink env id lu w)
    /\ sys (updateLink env id lu w) = sys w)
   /\ (same_collections w (deleteLink env id w)
       /\ sys (deleteLink env id w) = sys w)
   /\ (same_collections w (restoreLink env id w)
       /\ sys (restoreLink env id w) = sys w)
   /\ (same_collections w (toggleFavorite env id w)
       /\ sys (toggleFavorite env id w) = sys w)
   /\ (same_collections w (permanentlyDeleteLink id w)
       /\ sys (permanentlyDeleteLink id w) = sys w))
  /\ (absent_folder id w ->
      (same_collections w (updateFolder env id fu w)
       /\ sys (updateFolder env id fu w) = sys w)
      /\ (same_collections w (deleteFolder id w)
          /\ sys (deleteFolder id w) = sys w)).
Proof.
  unfold same_collections, updateLink, updateFolder, deleteLink, restoreLink,
    toggleFavorite, permanentlyDeleteLink, deleteFolder.
  rewrite !links_commit_links, !folders_commit_links, !sys_commit_links,
    !folders_commit_folders, !links_commit_folders, !sys_commit_folders.
  split.
  - intros Hl. rewrite !(map_links_absent _ Hl). simpl.
    rewrite (@filter_unchanged _ _ (links (store w))).
    + repeat split; reflexivity.
    + intros a Ha. apply Hl, String.eqb_neq in Ha. now rewrite Ha.
  - intros Hf. rewrite !(map_folders_absent _ Hf). simpl.
    rewrite (@filter_unchanged _ _ (folders (store w))).
    + repeat split; reflexivity.
    + intros a Ha. apply Hf, String.eqb_neq in Ha. now rewrite Ha.
Qed.

End UnknownIdentifier.

Lemma unknown_identifier_is_noop_witness :
  let w := Demo.world [Demo.a_link "a" None true] [] in
  absent_link "zz" w
  /\ absent_folder "zz" w
  /\ same_collections w (deleteLink Demo.env "zz" w)
  /\ same_collections w (deleteFolder "zz" w).
Proof.
  intros w.
  assert (Hl : absent_link "zz" w).
  { intros l [<- | []]. discriminate. }
  assert (Hf : absent_folder "zz" w).
  { intros f []. }
  split; [exact Hl | split; [exact Hf |]].
  destruct (@unknown_identifier_is_noop Demo.env "zz" Link.empty Folder.empty
              w) as (Hlinks & Hfolders).
  destruct (Hlinks Hl) as (_ & (H3 & _) & _).
  destruct (Hfolders Hf) as (_ & (H7 & _)).
  split; assumption.
Defined.

(* ================================================================= *)
(** ** [updateLink] merges without protecting any field *)

Lemma String_cons_neq (a : ascii) (s : string) : String a s <> s.
Proof.
  revert a. induction s as [|b s IH]; intros a H.
  - discriminate.
  - injection H as _ H. exact (IH b H).
Qed.

(** C10. [updateLink(id, partial)] on a link that carries [id]: every field
    present in [partial] replaces the field of the link ([id], [createdAt]
    and [deletedAt] included), every absent one is kept, and [updatedAt] is
    stamped afterwards (so a [updatedAt] given in [partial] is lost). Hence
    some [partial] changes the identifier, some the creation timestamp, some
    the trash state, and some leaves [updatedAt] earlier than [createdAt]. *)
Theorem updateLink_unrestricted_merge env id u w i l :
  link_at w i l ->
  Link.id l = id ->
  (exists k l',
     ticks (sys w) <= k < ticks (sys (updateLink env id u w))
     /\ link_at (updateLink env id u w) i l'
     /\ l' = Link.set_updatedAt (stamp env k) (Link.spread l u)
     /\ Link.id l' = JS.or_else (Link.p_id u) (Link.id l)
     /\ Link.url l' = JS.or_else (Link.p_url u) (Link.url l)
     /\ Link.title l' = JS.or_else (Link.p_title u) (Link.title l)
     /\ Link.description l'
        = JS.or_else (Link.p_description u) (Link.description l)
     /\ Link.thumbnail l' = JS.or_else (Link.p_thumbnail u) (Link.thumbnail l)
     /\ Link.platform l' = JS.or_else (Link.p_platform u) (Link.platform l)
     /\ Link.folderId l' = JS.or_else (Link.p_folderId u) (Link.folderId l)
     /\ Link.isFavorite l'
        = JS.or_else (Link.p_isFavorite u) (Link.isFavorite l)
     /\ Link.deletedAt l' = JS.or_else (Link.p_deletedAt u) (Link.deletedAt l)
     /\ Link.createdAt l' = JS.or_else (Link.p_createdAt u) (Link.createdAt l)
     /\ Link.updatedAt l' = stamp env k)
  /\ (exists u1 l1,
        link_at (updateLink env id u1 w) i l1 /\ Link.id l1 <> Link.id l)
  /\ (exists u2 l2,
        link_at (updateLink env id u2 w) i l2
        /\ Link.createdAt l2 <> Link.createdAt l)
  /\ (exists u3 l3,
        link_at (updateLink env id u3 w) i l3
        /\ in_trash l3 <> in_trash l)
  /\ (let l0 := Demo.a_link "a" None false in
      let w0 := Demo.world [l0] [] in
      iso_le (Link.createdAt l0) (Link.updatedAt l0) = true
      /\ exists u4 l4,
           link_at (updateLink Demo.env "a" u4 w0) 0 l4
           /\ iso_lt (Link.updatedAt l4) (Link.createdAt l4) = true).
Proof.
  intros Hat Hid.
  assert (Hany : forall u', exists k,
             ticks (sys w) <= k < ticks (sys (updateLink env id u' w))
             /\ link_at (updateLink env id u' w) i
                  (Link.set_updatedAt (stamp env k) (Link.spread l u'))).
  { intros u'. now apply updateLink_hit. }
  split; [| split; [| split; [| split]]].
  - destruct (Hany u) as (k & Hk & Hat').
    exists k. eexists. split; [exact Hk |]. split; [exact Hat' |].
    repeat split; reflexivity.
  - destruct (Hany (Link.mkPartial (Some (String "x" (Link.id l))) None None
                      None None None None None None None None))
      as (k & _ & Hat').
    eexists. eexists. split; [exact Hat' |].
    simpl. apply String_cons_neq.
  - destruct (Hany (Link.mkPartial None None None None None None None None
                      None (Some (String "x" (Link.createdAt l))) None))
      as (k & _ & Hat').
    eexists. eexists. split; [exact Hat' |].
    simpl. apply String_cons_neq.
  - destruct (Hany (Link.mkPartial None None None None None None None None
                      (Some (match Link.deletedAt l with
                             | Some _ => None
                             | None => Some "2025-10-18T00:00:00.000Z"
                             end)) None None))
      as (k & _ & Hat').
    eexists. eexists. split; [exact Hat' |].
    unfold in_trash. simpl. destruct (Link.deletedAt l); discriminate.
  - split; [reflexivity |].
    exists (Link.mkPartial None None None None None None None None None
              (Some "2030-01-01T00:00:00.000Z") None).
    eexists. split; reflexivity.
Qed.

Lemma updateLink_unrestricted_merge_witness :
  let l := Demo.a_link "a" None false in
  let w := Demo.world [l] [] in
  let u := Link.mkPartial (Some "b") None None None None None None None
             (Some (Some "2025-10-18T00:00:00.000Z"))
             (Some "2030-01-01T00:00:00.000Z") None in
  link_at w 0 l
  /\ Link.id l = "a"
  /\ exists l',
       link_at (updateLink Demo.env "a" u w) 0 l'
       /\ Link.id l' = "b"
       /\ Link.deletedAt l' = Some "2025-10-18T00:00:00.000Z"
       /\ Link.createdAt l' = "2030-01-01T00:00:00.000Z".
Proof.
  intros l w u.
  split; [reflexivity | split; [reflexivity |]].
  destruct (@updateLink_unrestricted_merge Demo.env "a" u w 0 l
              eq_refl eq_refl)
    as ((k & l' & _ & Hat & _ & H1 & _ & _ & _ & _ & _ & _ & _ & H2 & H3 & _)
        & _).
  exists l'. repeat split; assumption.
Defined.

(* ================================================================= *)
(** ** [addLink] *)

(** C2, as the code has it. [addLink(data)] appends one link at the end of
    the collection and leaves the links before it as they were. The new link
    has [deletedAt == null] and the fields of [data]; [createdAt] and
    [updatedAt] are the stamps of two successive readings of the clock,
    equal when the clock shows the same instant at both; its identifier is
    the next value of the generator. The store makes no check of its own:
    that identifier differs from every identifier of the collection as long
    as these were issued by the generator and the generator has not repeated
    itself. *)
Theorem addLink_appends_one env data w :
  let w' := addLink env data w in
  exists l,
    links (store w') = links (store w) ++ [l]
    /\ Link.deletedAt l = None
    /\ Link.id l = randomUUID env (issued (sys w))
    /\ Link.createdAt l = stamp env (ticks (sys w))
    /\ Link.updatedAt l = stamp env (S (ticks (sys w)))
    /\ (clock env (ticks (sys w)) = clock env (S (ticks (sys w))) ->
        Link.createdAt l = Link.updatedAt l)
    /\ Link.url l = Link.d_url data
    /\ Link.title l = Link.d_title data
    /\ Link.description l = Link.d_description data
    /\ Link.thumbnail l = Link.d_thumbnail data
    /\ Link.platform l = Link.d_platform data
    /\ Link.folderId l = Link.d_folderId data
    /\ Link.isFavorite l = Link.d_isFavorite data
    /\ folders (store w') = folders (store w)
    /\ (link_ids_issued env w ->
        distinct_below env (S (issued (sys w))) ->
        ~ In (Link.id l) (map Link.id (links (store w)))
        /\ link_ids_issued env w').
Proof.
  intros w'.
  eexists. split; [reflexivity |]. simpl.
  do 4 (split; [reflexivity |]).
  split; [unfold stamp; now intros -> |].
  do 8 (split; [reflexivity |]).
  intros Hiss Hdist. split.
  - intros Hin. apply in_map_iff in Hin as (m & Hm & Hin).
    destruct (Hiss m Hin) as (j & Hj & Hmj).
    apply (Hdist j (issued (sys w))); [lia | congruence].
  - intros m Hin. unfold w', addLink in Hin. simpl in Hin.
    apply in_app_or in Hin as [Hin | [<- | []]].
    + destruct (Hiss m Hin) as (j & Hj & Hmj).
      exists j. split; [simpl; lia | exact Hmj].
    + exists (issued (sys w)). split; [simpl; lia | reflexivity].
Qed.

Lemma Demo_distinct_below_3 : distinct_below Demo.env 3.
Proof.
  intros i j Hij.
  assert (Hc : (i = 0 /\ j = 1) \/ (i = 0 /\ j = 2) \/ (i = 1 /\ j = 2))
    by lia.
  destruct Hc as [[-> ->] | [[-> ->] | [-> ->]]]; vm_compute; discriminate.
Qed.

(** The store of two links: its identifiers are the first two values of the
    generator, which has issued two. *)
Lemma Demo_two_links_issued :
  link_ids_issued Demo.env Demo.two_links
  /\ distinct_below Demo.env (S (issued (sys Demo.two_links)))
  /\ map Link.id (links (store Demo.two_links)) = [Demo.uuid 0; Demo.uuid 1].
Proof.
  split; [| split; [exact Demo_distinct_below_3 | reflexivity]].
  intros l Hl. vm_compute in Hl.
  destruct Hl as [<- | [<- | []]].
  - exists 0. split; [vm_compute; lia | vm_compute; reflexivity].
  - exists 1. split; [vm_compute; lia | vm_compute; reflexivity].
Qed.

Lemma addLink_appends_one_witness :
  let w := Demo.two_links in
  let data := Link.mkData "https://example.org" "Example" "" "" other None
                false in
  link_ids_issued Demo.env w
  /\ distinct_below Demo.env (S (issued (sys w)))
  /\ map Link.id (links (store w)) = [Demo.uuid 0; Demo.uuid 1]
  /\ exists l,
       links (store (addLink Demo.env data w)) = links (store w) ++ [l]
       /\ Link.deletedAt l = None
       /\ Link.id l = Demo.uuid 2
       /\ ~ In (Link.id l) (map Link.id (links (store w))).
Proof.
  intros w data.
  destruct Demo_two_links_issued as (H1 & H2 & H3).
  split; [exact H1 | split; [exact H2 | split; [exact H3 |]]].
  destruct (@addLink_appends_one Demo.env data w)
    as (l & Ha & Hb & Hc & _ & _ & _ & _ & _ & _ & _ & _ & _ & _ & _ & Hf).
  exists l. split; [exact Ha | split; [exact Hb | split; [exact Hc |]]].
  exact (proj1 (Hf H1 H2)).
Defined.

(** C2 as stated fails twice. On the timestamps: with a clock that advances
    between the two readings, the new link's [createdAt] and [updatedAt]
    differ. On the identifier: the store does not compare the value of the
    generator with the identifiers it holds, so after [updateLink] has given
    a link the identifier the generator returns next, [addLink] appends a
    link with an identifier that is already in the collection. *)
Lemma addLink_stamps_differ_and_id_may_repeat :
  let data := Link.mkData "https://example.org" "Example" "" "" other None
                false in
  let w1 := addLink Demo.env data Demo.empty_world in
  let w2 := updateLink Demo.env (Demo.uuid 0) (Demo.id_update (Demo.uuid 1))
              w1 in
  (exists l,
     links (store w1) = [l]
     /\ Link.createdAt l = "2025-10-18T00:00:00.000Z"
     /\ Link.updatedAt l = "2025-10-18T00:00:00.001Z"
     /\ Link.createdAt l <> Link.updatedAt l)
  /\ (exists a b,
        links (store w2) = [a]
        /\ links (store (addLink Demo.env data w2)) = [a; b]
        /\ Link.id a = Demo.uuid 1
        /\ Link.id b = Demo.uuid 1
        /\ In (Link.id b) (map Link.id (links (store w2)))).
Proof.
  intros data w1 w2. split.
  - eexists. split; [reflexivity |].
    split; [reflexivity |]. split; [reflexivity |].
    vm_compute. discriminate.
  - do 2 eexists. split; [reflexivity |]. split; [reflexivity |].
    split; [reflexivity |]. split; [reflexivity |].
    left. reflexivity.
Qed.

(* ================================================================= *)
(** ** Hydration *)

Lemma mapiE_cons {A B : Type} (f : A -> nat -> Eff B) i a l s :
  mapiE f i (a :: l) s =
  (fst (f a i s) :: fst (mapiE f (S i) l (snd (f a i s))),
   snd (mapiE f (S i) l (snd (f a i s)))).
Proof.
  simpl. unfold bind, ret.
  destruct (f a i s) as [b s1]. simpl.
  destruct (mapiE f (S i) l s1) as [bs s2]. reflexivity.
Qed.

Lemma mapiE_length {A B : Type} (f : A -> nat -> Eff B) i l s :
  List.length (fst (mapiE f i l s)) = List.length l.
Proof.
  revert i s. induction l as [|a l IH]; intros i s.
  - reflexivity.
  - rewrite mapiE_cons. simpl. now rewrite IH.
Qed.

(** A projection of the results that depends on the element only. *)
Lemma mapiE_map {A B C : Type} (f : A -> nat -> Eff B) (g : B -> C)
  (h : A -> C) i l s :
  (forall a j s', g (fst (f a j s')) = h a) ->
  map g (fst (mapiE f i l s)) = map h l.
Proof.
  intros H. revert i s. induction l as [|a l IH]; intros i s.
  - reflexivity.
  - rewrite mapiE_cons. simpl. now rewrite H, IH.
Qed.

Lemma mapiE_Forall {A B : Type} (f : A -> nat -> Eff B) (P : B -> Prop)
  i l s :
  (forall a j s', P (fst (f a j s'))) ->
  Forall P (fst (mapiE f i l s)).
Proof.
  intros H. revert i s. induction l as [|a l IH]; intros i s.
  - constructor.
  - rewrite mapiE_cons. simpl. constructor; [apply H | apply IH].
Qed.

Lemma mapiE_nth_error {A B : Type} (f : A -> nat -> Eff B) i l s j a :
  nth_error l j = Some a ->
  exists s1, nth_error (fst (mapiE f i l s)) j = Some (fst (f a (i + j) s1)).
Proof.
  revert i s j. induction l as [|x l IH]; intros i s j Hj.
  - destruct j; discriminate.
  - rewrite mapiE_cons. destruct j as [|j]; simpl in *.
    + injection Hj as ->. exists s. now rewrite Nat.add_0_r.
    + destruct (IH (S i) (snd (f x i s)) j Hj) as (s1 & H1).
      exists s1. now rewrite Nat.add_succ_r.
Qed.

(** Counting through a projection. *)
Lemma count_through_map {A B C : Type} (g : A -> C) (h : B -> C)
  (q : C -> bool) (r : list A) (l : list B) :
  map g r = map h l ->
  List.length (filter (fun x => q (g x)) r)
  = List.length (filter (fun y => q (h y)) l).
Proof.
  revert l. induction r as [|x r IH]; intros [|y l] H; try discriminate.
  - reflexivity.
  - simpl in *. injection H as Hx Hr. rewrite Hx.
    destruct (q (h y)); simpl; now rewrite (IH l Hr).
Qed.

Section HydrationFacts.

Variable env : Env.
Variable PLATFORM_FOLDERS : list PlatformFolder.

Lemma platform_folder_fields pf j s :
  let f := fst (platform_folder env pf j s) in
  Folder.platform f = Some (pf_platform pf)
  /\ Folder.isPlatformFolder f = true
  /\ Folder.parentId f = None
  /\ Folder.id f
     = ("platform-folder-" ++ JS.string_of_nat j ++ "-"
          ++ JS.string_of_Z (clock env (ticks s)))%string.
Proof. repeat split; reflexivity. Qed.

(** C9. [loadFromStorage()] sets the hydration flag. When the stored folder
    collection is empty (or missing), the folders collection becomes the
    image of the table of platform folders: one folder per entry, in the
    order of the table, each a platform folder at the root, and it is written
    to the storage; the table having one entry per platform, the collection
    is not empty and holds exactly one folder per platform. When the stored
    folder collection is not empty, it is loaded as it is and nothing is
    synthesized: no clock reading is made and the storage is not written. *)
Theorem loadFromStorage_platform_folders w :
  let w' := loadFromStorage env PLATFORM_FOLDERS w in
  isHydrated (store w') = true
  /\ links (store w') = JS.or_else (linkvault_links (storage w)) []
  /\ (stored_folders w = [] ->
      Forall is_platform_root (folders (store w'))
      /\ map Folder.platform (folders (store w'))
         = map (fun pf => Some (pf_platform pf)) PLATFORM_FOLDERS
      /\ linkvault_folders (storage w') = Some (folders (store w'))
      /\ (one_entry_per_platform PLATFORM_FOLDERS ->
          folders (store w') <> []
          /\ forall p, platform_count p (folders (store w')) = 1))
  /\ (stored_folders w <> [] ->
      folders (store w') = stored_folders w
      /\ storage w' = storage w
      /\ sys w' = sys w).
Proof.
  intros w'. unfold w', loadFromStorage, stored_folders.
  destruct (JS.or_else (linkvault_folders (storage w)) []) as [|f0 fs] eqn:E;
    simpl.
  - destruct (mapiE (platform_folder env) 0 PLATFORM_FOLDERS (sys w))
      as [folders' s] eqn:Em. simpl.
    assert (Hfs : folders' = fst (mapiE (platform_folder env) 0
                                    PLATFORM_FOLDERS (sys w)))
      by now rewrite Em.
    assert (Hmap : map Folder.platform folders'
                   = map (fun pf => Some (pf_platform pf)) PLATFORM_FOLDERS).
    { rewrite Hfs. apply mapiE_map. reflexivity. }
    split; [reflexivity | split; [reflexivity | split]].
    + intros _. split; [| split; [exact Hmap | split; [reflexivity |]]].
      * rewrite Hfs. apply mapiE_Forall. intros a j s'.
        repeat split. discriminate.
      * intros Htable.
        assert (Hcount : forall p, platform_count p folders' = 1).
        { intros p. rewrite <- (Htable p). unfold platform_count, table_count.
          apply (count_through_map Folder.platform
                   (fun pf => Some (pf_platform pf))
                   (fun o => match o with
                             | Some q => Platform_eqb q p
                             | None => false
                             end) folders' PLATFORM_FOLDERS Hmap). }
        split; [| exact Hcount].
        intros ->. specialize (Hcount youtube). discriminate.
    + intros H. now contradiction H.
  - split; [reflexivity | split; [reflexivity | split]].
    + discriminate.
    + intros _. repeat split.
Qed.

End HydrationFacts.

Lemma Demo_table_one_entry_per_platform : one_entry_per_platform Demo.table.
Proof. intros []; reflexivity. Qed.

Lemma loadFromStorage_platform_folders_witness :
  let w' := loadFromStorage Demo.env Demo.table Demo.empty_world in
  stored_folders Demo.empty_world = []
  /\ one_entry_per_platform Demo.table
  /\ isHydrated (store w') = true
  /\ List.length (folders (store w')) = 10
  /\ Forall is_platform_root (folders (store w'))
  /\ forall p, platform_count p (folders (store w')) = 1.
Proof.
  intros w'.
  split; [reflexivity |].
  split; [exact Demo_table_one_entry_per_platform |].
  destruct (@loadFromStorage_platform_folders Demo.env Demo.table
              Demo.empty_world) as (Hh & _ & He & _).
  destruct (He eq_refl) as (Hroot & _ & _ & Hone).
  split; [exact Hh | split; [reflexivity | split; [exact Hroot |]]].
  exact (proj2 (Hone Demo_table_one_entry_per_platform)).
Defined.

(* ================================================================= *)
(** ** Bulk operations: applying [updateLink] to a list of identifiers *)

Lemma spread_again l u t t' :
  Link.set_updatedAt t' (Link.spread (Link.set_updatedAt t (Link.spread l u)) u)
  = Link.set_updatedAt t' (Link.spread l u).
Proof.
  unfold Link.set_updatedAt, Link.spread. simpl.
  f_equal;
    match goal with
    | |- context [JS.or_else ?o _] => destruct o; reflexivity
    end.
Qed.

Lemma includes_cons ids a s :
  JS.includes (a :: ids) s = (s =? a) || JS.includes ids s.
Proof. reflexivity. Qed.

Lemma includes_In ids s : JS.includes ids s = true <-> In s ids.
Proof.
  unfold JS.includes. rewrite existsb_exists. split.
  - intros (x & Hx & He). apply String.eqb_eq in He. now subst.
  - intros H. exists s. split; [exact H | apply String.eqb_refl].
Qed.

Lemma includes_filter (P : string -> bool) ids s :
  JS.includes (filter P ids) s = JS.includes ids s && P s.
Proof.
  induction ids as [|a ids IH]; simpl.
  - reflexivity.
  - destruct (P a) eqn:Pa; simpl; rewrite IH.
    + destruct (s =? a) eqn:E; simpl; [| reflexivity].
      apply String.eqb_eq in E. subst. now rewrite Pa.
    + destruct (s =? a) eqn:E; simpl; [| reflexivity].
      apply String.eqb_eq in E. subst. rewrite Pa.
      now rewrite andb_false_r.
Qed.

Section ForEach.

Variable env : Env.

Lemma forEach_cons (action : string -> World -> World) a ids w :
  forEach action (a :: ids) w = forEach action ids (action a w).
Proof. reflexivity. Qed.

Lemma forEach_updateLink_ticks u ids w :
  ticks (sys w) <= ticks (sys (forEach (fun id => updateLink env id u) ids w)).
Proof.
  revert w. induction ids as [|a ids IH]; intros w.
  - simpl. lia.
  - rewrite forEach_cons.
    pose proof (updateLink_ticks env a u w). specialize (IH (updateLink env a u w)).
    lia.
Qed.

Lemma forEach_updateLink_folders u ids w :
  folders (store (forEach (fun id => updateLink env id u) ids w))
  = folders (store w).
Proof.
  revert w. induction ids as [|a ids IH]; intros w.
  - reflexivity.
  - rewrite forEach_cons, IH. reflexivity.
Qed.

Lemma forEach_updateLink_length u ids w :
  List.length (links (store (forEach (fun id => updateLink env id u) ids w)))
  = List.length (links (store w)).
Proof.
  revert w. induction ids as [|a ids IH]; intros w.
  - reflexivity.
  - rewrite forEach_cons, IH. apply updateLink_length.
Qed.

(** [ids.forEach(id => updateLink(id, u))] for an update that leaves the
    identifier alone: a link whose identifier is listed ends up merged with
    [u] and stamped; the others are not touched. *)
Lemma forEach_updateLink_at u ids :
  Link.p_id u = None ->
  forall w i m,
    link_at w i m ->
    let w' := forEach (fun id => updateLink env id u) ids w in
    (JS.includes ids (Link.id m) = false -> link_at w' i m)
    /\ (JS.includes ids (Link.id m) = true ->
        exists k,
          ticks (sys w) <= k < ticks (sys w')
          /\ link_at w' i (Link.set_updatedAt (stamp env k) (Link.spread m u))).
Proof.
  intros Hu. induction ids as [|a ids IH]; intros w i m Hat w'.
  - split; [intros _; exact Hat | discriminate].
  - unfold w'. rewrite forEach_cons, includes_cons.
    destruct (Link.id m =? a) eqn:E; simpl.
    + apply String.eqb_eq in E.
      destruct (@updateLink_hit env a u w i m Hat E) as (k1 & Hk1 & Hat1).
      set (m1 := Link.set_updatedAt (stamp env k1) (Link.spread m u)) in *.
      assert (Hid : Link.id m1 = Link.id m).
      { unfold m1. simpl. now rewrite Hu. }
      destruct (IH (updateLink env a u w) i m1 Hat1) as [Hno Hyes].
      rewrite Hid in Hno, Hyes.
      split; [discriminate |]. intros _.
      destruct (JS.includes ids (Link.id m)) eqn:Hin.
      * destruct (Hyes eq_refl) as (k & Hk & Hat').
        exists k. split; [lia |].
        unfold m1 in Hat'. now rewrite spread_again in Hat'.
      * exists k1. split; [| exact (Hno eq_refl)].
        pose proof (forEach_updateLink_ticks u ids (updateLink env a u w)).
        lia.
    + apply String.eqb_neq in E.
      pose proof (@updateLink_miss env a u w i m Hat E) as Hat1.
      destruct (IH (updateLink env a u w) i m Hat1) as [Hno Hyes].
      split; [exact Hno |]. intros Hin.
      destruct (Hyes Hin) as (k & Hk & Hat').
      exists k. split; [| exact Hat'].
      pose proof (updateLink_ticks env a u w). lia.
Qed.

Lemma forEach_deleteLink_ticks ids w :
  ticks (sys w) <= ticks (sys (forEach (deleteLink env) ids w)).
Proof.
  revert w. induction ids as [|a ids IH]; intros w.
  - simpl. lia.
  - rewrite forEach_cons.
    pose proof (deleteLink_ticks env a w). specialize (IH (deleteLink env a w)).
    lia.
Qed.

(** [ids.forEach(id => deleteLink(id))]: a link whose identifier is listed
    ends up in the trash, stamped by two successive readings of the clock;
    the others are not touched. *)
Lemma forEach_deleteLink_at ids :
  forall w i m,
    link_at w i m ->
    let w' := forEach (deleteLink env) ids w in
    (JS.includes ids (Link.id m) = false -> link_at w' i m)
    /\ (JS.includes ids (Link.id m) = true ->
        exists k,
          ticks (sys w) <= k
          /\ link_at w' i
               (Link.set_updatedAt (stamp env (S k))
                  (Link.set_deletedAt (Some (stamp env k)) m))).
Proof.
  induction ids as [|a ids IH]; intros w i m Hat w'.
  - split; [intros _; exact Hat | discriminate].
  - unfold w'. rewrite forEach_cons, includes_cons.
    destruct (Link.id m =? a) eqn:E; simpl.
    + apply String.eqb_eq in E.
      destruct (@deleteLink_hit env a w i m Hat E) as (k1 & Hk1 & Hk1' & Hat1).
      set (m1 := Link.set_updatedAt (stamp env (S k1))
                   (Link.set_deletedAt (Some (stamp env k1)) m)) in *.
      destruct (IH (deleteLink env a w) i m1 Hat1) as [Hno Hyes].
      change (Link.id m1) with (Link.id m) in Hno, Hyes.
      split; [discriminate |]. intros _.
      destruct (JS.includes ids (Link.id m)) eqn:Hin.
      * destruct (Hyes eq_refl) as (k & Hk & Hat').
        exists k. split; [lia | exact Hat'].
      * exists k1. split; [exact Hk1 | exact (Hno eq_refl)].
    + apply String.eqb_neq in E.
      pose proof (@deleteLink_miss env a w i m Hat E) as Hat1.
      destruct (IH (deleteLink env a w) i m Hat1) as [Hno Hyes].
      split; [exact Hno |]. intros Hin.
      destruct (Hyes Hin) as (k & Hk & Hat').
      exists k. split; [| exact Hat'].
      pose proof (deleteLink_ticks env a w). lia.
Qed.

End ForEach.

(* ================================================================= *)
(** ** Bulk favorite *)

Lemma hasMixedStates_mixed sl : hasMixedStates sl = true <-> mixed sl.
Proof.
  unfold hasMixedStates, mixed.
  rewrite andb_true_iff, !existsb_exists. split.
  - intros [(a & Ha & Hfa) (b & Hb & Hfb)]. split.
    + now exists a.
    + exists b. split; [exact Hb |]. now apply negb_true_iff.
  - intros [(a & Ha & Hfa) (b & Hb & Hfb)]. split.
    + now exists a.
    + exists b. split; [exact Hb |]. now apply negb_true_iff.
Qed.

Lemma selectedLinks_In ids ls l :
  In l (selectedLinks ids ls) <-> In l ls /\ JS.includes ids (Link.id l) = true.
Proof. unfold selectedLinks. apply filter_In. Qed.

Lemma handleBulkFavorite_links env w u :
  fst (handleBulkFavorite env (w, u))
  = forEach (fun id =>
               updateLink env id
                 (favorite_update
                    (shouldFavorite
                       (selectedLinks (selectedIds u) (links (store w))))))
      (selectedIds u) w.
Proof. reflexivity. Qed.

(** C5. The bulk favorite action on a selection that holds the link [l]: when
    the selection is mixed, [l] ends favorited; when it is uniform, [l] ends
    with the negation of the favorite flag of the first selected link. The
    other fields of [l], [updatedAt] apart, stay as they were, and the links
    outside the selection are not touched. *)
Theorem handleBulkFavorite_resolves_selection env w u i l :
  link_at w i l ->
  selected u l = true ->
  let sl := selectedLinks (selectedIds u) (links (store w)) in
  let w' := fst (handleBulkFavorite env (w, u)) in
  exists l',
    link_at w' i l'
    /\ (mixed sl -> Link.isFavorite l' = true)
    /\ (~ mixed sl ->
        exists first rest,
          sl = first :: rest
          /\ Link.isFavorite l' = negb (Link.isFavorite first))
    /\ l' = Link.set_updatedAt (Link.updatedAt l')
              (Link.set_isFavorite (Link.isFavorite l') l)
    /\ (forall j m, link_at w j m -> selected u m = false -> link_at w' j m)
    /\ List.length (links (store w')) = List.length (links (store w)).
Proof.
  intros Hat Hsel sl w'.
  unfold w'. rewrite handleBulkFavorite_links. fold sl.
  set (fav := shouldFavorite sl).
  destruct (@forEach_updateLink_at env (favorite_update fav) (selectedIds u)
              eq_refl w i l Hat) as [_ Hyes].
  destruct (Hyes Hsel) as (k & _ & Hat').
  eexists. split; [exact Hat' |].
  assert (Hin : In l sl).
  { apply selectedLinks_In. split; [| exact Hsel].
    eapply nth_error_In. exact Hat. }
  simpl. repeat split.
  - intros Hm. apply hasMixedStates_mixed in Hm.
    unfold fav, shouldFavorite. now rewrite Hm.
  - intros Hnm.
    assert (Hf : hasMixedStates sl = false).
    { destruct (hasMixedStates sl) eqn:E; [| reflexivity].
      contradiction Hnm. now apply hasMixedStates_mixed. }
    destruct sl as [|first rest] eqn:Esl; [contradiction Hin |].
    exists first, rest. split; [reflexivity |].
    unfold fav, shouldFavorite. now rewrite Hf.
  - intros j m Hm Hns.
    destruct (@forEach_updateLink_at env (favorite_update fav) (selectedIds u)
                eq_refl w j m Hm) as [Hno _].
    exact (Hno Hns).
  - apply forEach_updateLink_length.
Qed.

(** The scenario of the specification: of three selected links two are
    favorited and one is not; all three end favorited. *)
Lemma handleBulkFavorite_resolves_selection_witness :
  let l1 := Demo.a_link "a" None true in
  let l2 := Demo.a_link "b" None false in
  let l3 := Demo.a_link "c" None true in
  let w := Demo.world [l1; l2; l3] [] in
  let u := mkUI ["c"; "a"; "b"] [] [] in
  link_at w 1 l2
  /\ selected u l2 = true
  /\ mixed (selectedLinks (selectedIds u) (links (store w)))
  /\ map Link.isFavorite (links (store (fst (handleBulkFavorite Demo.env (w, u)))))
     = [true; true; true]
  /\ exists l',
       link_at (fst (handleBulkFavorite Demo.env (w, u))) 1 l'
       /\ Link.isFavorite l' = true.
Proof.
  intros l1 l2 l3 w u.
  assert (Hm : mixed (selectedLinks (selectedIds u) (links (store w)))).
  { split; [exists l1 | exists l2]; split; try reflexivity; simpl; auto. }
  split; [reflexivity | split; [reflexivity | split; [exact Hm |]]].
  split; [reflexivity |].
  destruct (@handleBulkFavorite_resolves_selection Demo.env w u 1 l2
              eq_refl eq_refl) as (l' & Hat & Hmixed & _).
  exists l'. split; [exact Hat | exact (Hmixed Hm)].
Defined.

(* ================================================================= *)
(** ** Bulk move *)

Section Move.

Variable env : Env.

Lemma move_loop_spec links0 target ids w c :
  move_loop env links0 target ids w c
  = (forEach (fun id => updateLink env id (folder_update target))
       (filter (should_move links0 target) ids) w,
     c + List.length (filter (should_move links0 target) ids)).
Proof.
  revert w c. induction ids as [|a ids IH]; intros w c.
  - simpl. now rewrite Nat.add_0_r.
  - cbn [move_loop filter].
    assert (Hs : should_move links0 target a
                 = match JS.find (fun l => Link.id l =? a) links0 with
                   | Some link => negb (in_folder target link)
                   | None => false
                   end) by reflexivity.
    destruct (JS.find (fun l => Link.id l =? a) links0) as [link|].
    + rewrite Hs. fold (in_folder target link).
      destruct (in_folder target link); simpl.
      * apply IH.
      * rewrite IH. f_equal. lia.
    + rewrite Hs. apply IH.
Qed.

Lemma find_unique (ls : list Link.t) l :
  NoDup (map Link.id ls) -> In l ls ->
  JS.find (fun x => Link.id x =? Link.id l) ls = Some l.
Proof.
  induction ls as [|x ls IH]; intros Hnd Hin; [contradiction |].
  simpl in *. inversion Hnd as [|? ? Hx Hnd']; subst.
  destruct Hin as [-> | Hin].
  - now rewrite String.eqb_refl.
  - destruct (Link.id x =? Link.id l) eqn:E.
    + apply String.eqb_eq in E. contradiction Hx.
      rewrite E. now apply in_map.
    + now apply IH.
Qed.

Lemma handleMove_unfold target proceed w u :
  target <> "" ->
  handleMove env (Some target) proceed (w, u)
  = let n := List.length (alreadyInFolder target u w) in
    let u1 := if (0 <? n)%nat then window_confirm (move_confirmation n) u
              else u in
    let moved := filter (should_move (links (store w)) target)
                   (selectedIds u) in
    if committed target proceed u w
    then (forEach (fun id => updateLink env id (folder_update target)) moved w,
          handleMoveComplete (List.length moved) u1)
    else (w, u1).
Proof.
  intros Ht. unfold handleMove, committed. simpl.
  apply String.eqb_neq in Ht. rewrite Ht. simpl.
  fold (in_folder target). fold (alreadyInFolder target u w).
  fold (move_confirmation (List.length (alreadyInFolder target u w))).
  rewrite move_loop_spec. simpl.
  destruct (alreadyInFolder target u w) as [|x xs]; simpl.
  - reflexivity.
  - destruct proceed; reflexivity.
Qed.

End Move.

(* ================================================================= *)
(** ** Counting selected links by their identifiers *)

Lemma filter_none {A : Type} (p : A -> bool) l :
  (forall a, In a l -> p a = false) -> filter p l = [].
Proof.
  induction l as [|a l IH]; intros H; simpl.
  - reflexivity.
  - rewrite (H a (or_introl eq_refl)). apply IH. intros; apply H; now right.
Qed.

(** With unique identifiers, at most one link answers to [a]. *)
Lemma count_one (Q : Link.t -> bool) (ls : list Link.t) a :
  NoDup (map Link.id ls) ->
  List.length (filter (fun l => (Link.id l =? a) && Q l) ls)
  = if match JS.find (fun l => Link.id l =? a) ls with
       | Some l => Q l
       | None => false
       end
    then 1 else 0.
Proof.
  induction ls as [|x ls IH]; intros Hnd; [reflexivity |].
  simpl in *. inversion Hnd as [|? ? Hx Hnd']; subst.
  destruct (Link.id x =? a) eqn:E; simpl.
  - apply String.eqb_eq in E. subst a.
    rewrite (@filter_none _ _ ls).
    + destruct (Q x); reflexivity.
    + intros l Hl. destruct (Link.id l =? Link.id x) eqn:E'; [| reflexivity].
      apply String.eqb_eq in E'. contradiction Hx.
      rewrite <- E'. now apply in_map.
  - now apply IH.
Qed.

Lemma count_split {A : Type} (p q : A -> bool) l :
  (forall a, In a l -> p a = true -> q a = false) ->
  List.length (filter (fun a => p a || q a) l)
  = List.length (filter p l) + List.length (filter q l).
Proof.
  induction l as [|a l IH]; intros H; [reflexivity |].
  simpl. specialize (IH (fun b Hb => H b (or_intror Hb))).
  pose proof (H a (or_introl eq_refl)) as Ha.
  destruct (p a); simpl.
  - rewrite (Ha eq_refl). simpl. now rewrite IH.
  - destruct (q a); simpl; rewrite IH; lia.
Qed.

Lemma filter_ext_length {A : Type} (p q : A -> bool) l :
  (forall a, p a = q a) ->
  List.length (filter p l) = List.length (filter q l).
Proof.
  intros H. induction l as [|a l IH]; simpl; [reflexivity |].
  rewrite H. destruct (q a); simpl; now rewrite IH.
Qed.

(** With unique link identifiers and a selection without repetition, the
    selected links that satisfy [Q] are as many as the selected identifiers
    whose link satisfies [Q]. *)
Lemma count_by_id (Q : Link.t -> bool) (ls : list Link.t) ids :
  NoDup (map Link.id ls) ->
  NoDup ids ->
  List.length (filter (fun l => JS.includes ids (Link.id l) && Q l) ls)
  = List.length
      (filter (fun a => match JS.find (fun l => Link.id l =? a) ls with
                        | Some l => Q l
                        | None => false
                        end) ids).
Proof.
  intros Hls. induction ids as [|a ids IH]; intros Hids.
  - simpl. now rewrite filter_none.
  - inversion Hids as [|? ? Ha Hids']; subst.
    rewrite (filter_ext_length
               (fun l => JS.includes (a :: ids) (Link.id l) && Q l)
               (fun l => ((Link.id l =? a) && Q l)
                         || (JS.includes ids (Link.id l) && Q l))).
    2:{ intros l. rewrite includes_cons.
        destruct (Link.id l =? a), (JS.includes ids (Link.id l)), (Q l);
          reflexivity. }
    rewrite count_split.
    + rewrite (@count_one Q ls a Hls), (IH Hids'). simpl.
      destruct (match JS.find (fun l => Link.id l =? a) ls with
                | Some l => Q l
                | None => false
                end); reflexivity.
    + intros l _ H. apply andb_true_iff in H as [H _].
      apply String.eqb_eq in H. subst a.
      destruct (JS.includes ids (Link.id l)) eqn:E; [| reflexivity].
      apply includes_In in E. contradiction.
Qed.

(* ================================================================= *)
(** ** Bulk move, bulk delete and bulk favorite as the user sees them *)

Section BulkOutcome.

Variable env : Env.

Lemma handleMoveComplete_confirms n u :
  confirms (handleMoveComplete n u) = confirms u.
Proof. unfold handleMoveComplete. destruct (0 <? n)%nat; reflexivity. Qed.

(** C6, as the code has it. Bulk move to a folder [target], identifiers
    being unique in the collection. When some selected link is already filed
    under [target], the confirmation dialog opens before anything is
    written, and a negative answer leaves the store, the selection and the
    toasts as they were. When the move is committed, every selected link
    filed elsewhere gets [folderId = target] and a new [updatedAt]; the
    selected links already filed under [target] are left as they are,
    whatever the answer was, and so are the links outside the selection. *)
Theorem handleMove_moves_selected target proceed w u :
  unique_link_ids w ->
  target <> "" ->
  let w' := fst (handleMove env (Some target) proceed (w, u)) in
  let u' := snd (handleMove env (Some target) proceed (w, u)) in
  (alreadyInFolder target u w = [] -> confirms u' = confirms u)
  /\ (alreadyInFolder target u w <> [] ->
      confirms u'
      = confirms u
          ++ [move_confirmation (List.length (alreadyInFolder target u w))])
  /\ (committed target proceed u w = false ->
      w' = w /\ selectedIds u' = selectedIds u /\ toasts u' = toasts u)
  /\ (committed target proceed u w = true ->
      forall i l,
        link_at w i l ->
        (selected u l = true -> in_folder target l = false ->
         exists k,
           ticks (sys w) <= k < ticks (sys w')
           /\ link_at w' i
                (Link.set_updatedAt (stamp env k)
                   (Link.set_folderId (Some target) l)))
        /\ (selected u l = true -> in_folder target l = true ->
            link_at w' i l)
        /\ (selected u l = false -> link_at w' i l)).
Proof.
  intros Hnd Ht w' u'. unfold w', u'.
  rewrite (@handleMove_unfold env target proceed w u Ht). cbv zeta.
  set (moved := filter (should_move (links (store w)) target) (selectedIds u)).
  split; [| split; [| split]].
  - intros He.
    destruct (committed target proceed u w); simpl;
      rewrite ?handleMoveComplete_confirms, He; reflexivity.
  - intros Hne.
    destruct (committed target proceed u w); simpl;
      rewrite ?handleMoveComplete_confirms;
      (destruct (alreadyInFolder target u w); [contradiction | reflexivity]).
  - intros Hc. rewrite Hc. simpl.
    destruct (0 <? _)%nat; repeat split; reflexivity.
  - intros Hc i l Hat. rewrite Hc. simpl.
    destruct (@forEach_updateLink_at env (folder_update target) moved
                eq_refl w i l Hat) as [Hno Hyes].
    assert (Hm : JS.includes moved (Link.id l)
                 = selected u l && negb (in_folder target l)).
    { unfold moved. rewrite includes_filter. unfold should_move.
      now rewrite (@find_unique (links (store w)) l Hnd
                     (nth_error_In _ _ Hat)). }
    rewrite Hm in Hno, Hyes.
    split; [| split].
    + intros Hsel Hout. apply Hyes. now rewrite Hsel, Hout.
    + intros Hsel Hin. apply Hno. rewrite Hin. apply andb_false_r.
    + intros Hns. apply Hno. now rewrite Hns.
Qed.

End BulkOutcome.

(** Without a target (the entry "None" of the modal, or an empty
    identifier) [handleMove] returns at once. *)
Lemma handleMove_without_target env proceed st :
  handleMove env None proceed st = st
  /\ handleMove env (Some "") proceed st = st.
Proof. destruct st as [w u]. split; reflexivity. Qed.

Lemma handleMove_moves_selected_witness :
  let l1 := Demo.a_link "a" (Some "f") false in
  let l2 := Demo.a_link "b" None false in
  let w := Demo.world [l1; l2] [] in
  let u := mkUI ["a"; "b"] [] [] in
  let w' := fst (handleMove Demo.env (Some "f") true (w, u)) in
  unique_link_ids w
  /\ "f" <> ""
  /\ committed "f" true u w = true
  /\ link_at w' 0 l1
  /\ exists k,
       link_at w' 1
         (Link.set_updatedAt (stamp Demo.env k)
            (Link.set_folderId (Some "f") l2)).
Proof.
  intros l1 l2 w u w'.
  assert (Hnd : unique_link_ids w).
  { unfold unique_link_ids. simpl. repeat constructor; simpl; intuition discriminate. }
  assert (Ht : "f" <> "") by discriminate.
  split; [exact Hnd | split; [exact Ht | split; [reflexivity |]]].
  destruct (@handleMove_moves_selected Demo.env "f" true w u Hnd Ht)
    as (_ & _ & _ & Hcommit).
  split.
  - exact (proj1 (proj2 (Hcommit eq_refl 0 l1 eq_refl)) eq_refl eq_refl).
  - destruct (proj1 (Hcommit eq_refl 1 l2 eq_refl) eq_refl eq_refl)
      as (k & _ & Hk).
    exists k. exact Hk.
Defined.

(** C6 as stated fails where it lets a confirmed move re-write the links
    already in the target: the dialog has opened, the user has answered yes,
    and the link already filed under the target is exactly as before (its
    [updatedAt] is not a stamp of this run); the single clock reading went
    to the other link. *)
Lemma handleMove_confirmed_still_skips :
  let l1 := Demo.a_link "a" (Some "f") false in
  let l2 := Demo.a_link "b" None false in
  let w := Demo.world [l1; l2] [] in
  let u := mkUI ["a"; "b"] [] [] in
  let w' := fst (handleMove Demo.env (Some "f") true (w, u)) in
  let u' := snd (handleMove Demo.env (Some "f") true (w, u)) in
  confirms u' = [move_confirmation 1]
  /\ link_at w' 0 l1
  /\ ticks (sys w') = 1
  /\ Link.updatedAt l1 <> stamp Demo.env 0
  /\ link_at w' 1
       (Link.set_updatedAt (stamp Demo.env 0) (Link.set_folderId (Some "f") l2)).
Proof.
  intros l1 l2 w u w' u'.
  split; [reflexivity |]. split; [reflexivity |]. split; [reflexivity |].
  split; [vm_compute; discriminate | reflexivity].
Qed.

Section Reports.

Variable env : Env.

Lemma find_present (ls : list Link.t) a :
  (exists l, In l ls /\ Link.id l = a) ->
  JS.find (fun l => Link.id l =? a) ls <> None.
Proof.
  intros (l & Hin & Hid) Hnone.
  pose proof (find_none _ _ Hnone l Hin) as H. simpl in H.
  apply String.eqb_neq in H. contradiction.
Qed.

(** With unique identifiers, a selection without repetition whose
    identifiers all name a link selects as many links as it has
    identifiers. *)
Lemma selectedLinks_length (ls : list Link.t) ids :
  NoDup (map Link.id ls) ->
  NoDup ids ->
  (forall a, In a ids -> exists l, In l ls /\ Link.id l = a) ->
  List.length (selectedLinks ids ls) = List.length ids.
Proof.
  intros Hls Hids Hall. unfold selectedLinks.
  rewrite (filter_ext_length
             (fun link => JS.includes ids (Link.id link))
             (fun link => JS.includes ids (Link.id link) && true)).
  2:{ intros l. now rewrite andb_true_r. }
  rewrite (@count_by_id (fun _ => true) ls ids Hls Hids).
  rewrite filter_unchanged; [reflexivity |].
  intros a Ha. pose proof (@find_present ls a (Hall a Ha)) as H.
  destruct (JS.find (fun l => Link.id l =? a) ls); [reflexivity | contradiction].
Qed.

(** C7, as the code has it. A committed bulk move reports the number of
    links it has re-written (the selected links filed elsewhere) and clears
    the selection, when that number is positive; when it is zero it shows
    nothing and keeps the selection. Bulk delete moves the selected links to
    the trash and leaves the others alone; it and bulk favorite report the
    number of selected identifiers, which is the number of selected links
    when every selected identifier names a link; bulk delete clears the
    selection and bulk favorite keeps it. *)
Theorem bulk_actions_report_and_selection target proceed w u :
  unique_link_ids w ->
  NoDup (selectedIds u) ->
  target <> "" ->
  committed target proceed u w = true ->
  (let u' := snd (handleMove env (Some target) proceed (w, u)) in
   (0 < to_move target u w ->
    toasts u' = toasts u ++ [moved_toast (to_move target u w)]
    /\ selectedIds u' = [])
   /\ (to_move target u w = 0 ->
       toasts u' = toasts u /\ selectedIds u' = selectedIds u))
  /\ (let u' := snd (handleConfirmDelete env (w, u)) in
      let w' := fst (handleConfirmDelete env (w, u)) in
      toasts u' = toasts u ++ [deleted_toast (List.length (selectedIds u))]
      /\ selectedIds u' = []
      /\ forall i l,
           link_at w i l ->
           (selected u l = true ->
            exists k,
              link_at w' i
                (Link.set_updatedAt (stamp env (S k))
                   (Link.set_deletedAt (Some (stamp env k)) l)))
           /\ (selected u l = false -> link_at w' i l))
  /\ (let u' := snd (handleBulkFavorite env (w, u)) in
      toasts u'
      = toasts u
          ++ [favorite_toast
                (shouldFavorite
                   (selectedLinks (selectedIds u) (links (store w))))
                (List.length (selectedIds u))]
      /\ selectedIds u' = selectedIds u)
  /\ ((forall a, In a (selectedIds u) ->
         exists l, In l (links (store w)) /\ Link.id l = a) ->
      List.length (selectedLinks (selectedIds u) (links (store w)))
      = List.length (selectedIds u)).
Proof.
  intros Hnd Hsel Ht Hc.
  split; [| split; [| split]].
  - cbv zeta. rewrite (@handleMove_unfold env target proceed w u Ht).
    cbv zeta. rewrite Hc. simpl.
    assert (Hn : List.length
                   (filter (should_move (links (store w)) target)
                      (selectedIds u))
                 = to_move target u w).
    { unfold to_move, should_move, selected.
      symmetry.
      apply (@count_by_id (fun l => negb (in_folder target l))
               (links (store w)) (selectedIds u) Hnd Hsel). }
    rewrite Hn. unfold handleMoveComplete. split.
    + intros Hpos. apply Nat.ltb_lt in Hpos. rewrite Hpos.
      destruct (0 <? List.length (alreadyInFolder target u w))%nat;
        split; reflexivity.
    + intros ->.
      destruct (0 <? List.length (alreadyInFolder target u w))%nat;
        split; reflexivity.
  - split; [reflexivity | split; [reflexivity |]].
    intros i l Hat.
    destruct (@forEach_deleteLink_at env (selectedIds u) w i l Hat)
      as [Hno Hyes].
    split; [| exact Hno].
    intros Hs. destruct (Hyes Hs) as (k & _ & Hk). now exists k.
  - split; reflexivity.
  - intros Hall. now apply selectedLinks_length.
Qed.

End Reports.

Lemma bulk_actions_report_and_selection_witness :
  let l1 := Demo.a_link "a" (Some "f") false in
  let l2 := Demo.a_link "b" None false in
  let l3 := Demo.a_link "c" None true in
  let w := Demo.world [l1; l2; l3] [] in
  let u := mkUI ["a"; "b"; "c"] [] [] in
  unique_link_ids w
  /\ NoDup (selectedIds u)
  /\ "f" <> ""
  /\ committed "f" true u w = true
  /\ to_move "f" u w = 2
  /\ toasts (snd (handleMove Demo.env (Some "f") true (w, u)))
     = [mkToast "Items moved" "2 items moved successfully."]
  /\ selectedIds (snd (handleMove Demo.env (Some "f") true (w, u))) = [].
Proof.
  intros l1 l2 l3 w u.
  assert (Hnd : unique_link_ids w).
  { unfold unique_link_ids. simpl.
    repeat constructor; simpl; intuition discriminate. }
  assert (Hsel : NoDup (selectedIds u)).
  { simpl. repeat constructor; simpl; intuition discriminate. }
  assert (Ht : "f" <> "") by discriminate.
  split; [exact Hnd | split; [exact Hsel | split; [exact Ht |]]].
  split; [reflexivity | split; [reflexivity |]].
  destruct (@bulk_actions_report_and_selection Demo.env "f" true w u
              Hnd Hsel Ht eq_refl) as ((Hpos & _) & _).
  assert (H2 : 0 < to_move "f" u w) by (vm_compute; lia).
  destruct (Hpos H2) as [Ha Hb].
  split; [exact Ha | exact Hb].
Defined.

(** C7 as stated fails in three places. (1) Bulk delete reports the number of
    selected identifiers, here 2, though one of them names no link and a
    single link is written. (2) Bulk favorite leaves the selection in place.
    (3) A confirmed bulk move of links that are all in the target already
    shows no toast and keeps the selection. *)
Lemma bulk_reports_count_selected :
  let l1 := Demo.a_link "a" (Some "f") false in
  let w := Demo.world [l1] [] in
  let u := mkUI ["a"; "gone"] [] [] in
  (toasts (snd (handleConfirmDelete Demo.env (w, u)))
   = [mkToast "Items deleted" "2 items moved to trash."]
   /\ List.length (links (store w)) = 1
   /\ List.length (selectedLinks (selectedIds u) (links (store w))) = 1)
  /\ (toasts (snd (handleBulkFavorite Demo.env (w, u)))
      = [mkToast "Added to favorites" "2 items added to favorites."]
      /\ selectedIds (snd (handleBulkFavorite Demo.env (w, u))) <> [])
  /\ (confirms (snd (handleMove Demo.env (Some "f") true (w, u)))
      = [move_confirmation 1]
      /\ fst (handleMove Demo.env (Some "f") true (w, u)) = w
      /\ toasts (snd (handleMove Demo.env (Some "f") true (w, u))) = []
      /\ selectedIds (snd (handleMove Demo.env (Some "f") true (w, u))) <> []).
Proof.
  intros l1 w u.
  repeat split; try reflexivity; vm_compute; discriminate.
Qed.

(* ================================================================= *)
(** ** Identifiers: generated ones and those of the platform folders *)

Lemma is_uuid_nonempty s : is_uuid s = true -> s <> "".
Proof. intros H ->. discriminate. Qed.

Lemma is_uuid_not_platform s t :
  is_uuid s = true -> s <> ("platform-folder-" ++ t)%string.
Proof. intros H ->. simpl in H. discriminate. Qed.

Lemma NilEmpty_no_dash d : no_dash (NilEmpty.string_of_uint d) = true.
Proof. induction d; simpl; auto. Qed.

Lemma to_uint_nonnil n : Nat.to_uint n <> Decimal.Nil.
Proof.
  rewrite <- (DecimalNat.Unsigned.of_to n) at 1.
  rewrite DecimalNat.Unsigned.to_of. apply DecimalFacts.unorm_nonnil.
Qed.

Lemma string_of_nat_no_dash n : no_dash (JS.string_of_nat n) = true.
Proof.
  unfold JS.string_of_nat, NilZero.string_of_uint.
  destruct (Nat.to_uint n) eqn:E; try reflexivity;
    rewrite <- E; apply NilEmpty_no_dash.
Qed.

Lemma string_of_nat_inj i j :
  JS.string_of_nat i = JS.string_of_nat j -> i = j.
Proof.
  unfold JS.string_of_nat. intros H.
  apply (f_equal NilZero.uint_of_string) in H.
  rewrite !NilZero.usu in H by apply to_uint_nonnil.
  injection H as H. now apply DecimalNat.Unsigned.to_uint_inj.
Qed.

(** Two strings without dash that are followed by a dash in the same string
    are equal. *)
Lemma split_at_dash s1 s2 t1 t2 :
  no_dash s1 = true -> no_dash s2 = true ->
  (s1 ++ String "-" t1 = s2 ++ String "-" t2)%string -> s1 = s2.
Proof.
  revert s2. induction s1 as [|a s1 IH]; intros [|c s2] H1 H2 H; simpl in *.
  - reflexivity.
  - injection H as Hc _. subst c. discriminate.
  - injection H as Ha _. subst a. discriminate.
  - injection H as -> H.
    apply andb_true_iff in H1 as [_ H1]. apply andb_true_iff in H2 as [_ H2].
    f_equal. now apply IH.
Qed.

Lemma index_dash_inj i j t t' :
  (JS.string_of_nat i ++ String "-" t
   = JS.string_of_nat j ++ String "-" t')%string ->
  i = j.
Proof.
  intros H. apply string_of_nat_inj.
  apply (split_at_dash _ _ _ _ (string_of_nat_no_dash i)
           (string_of_nat_no_dash j) H).
Qed.

Lemma platform_id_inj i j t t' :
  ("platform-folder-" ++ JS.string_of_nat i ++ "-" ++ t
   = "platform-folder-" ++ JS.string_of_nat j ++ "-" ++ t')%string ->
  i = j.
Proof.
  intros H. simpl in H. injection H as H. exact (index_dash_inj _ _ _ _ H).
Qed.

(* ================================================================= *)
(** ** The hierarchy invariant *)

Section Hierarchy.

Variable env : Env.
Variable PLATFORM_FOLDERS : list PlatformFolder.
Variable FOLDER_ICONS : list FolderIcon.
Variable N : nat.

Hypothesis Huuid : uuid_generator env.
Hypothesis Hdistinct : distinct_below env N.

Lemma platform_ids_unique i s :
  NoDup (map Folder.id
           (fst (mapiE (platform_folder env) i PLATFORM_FOLDERS s))).
Proof.
  apply NoDup_nth_error. intros a b Ha Hab.
  rewrite length_map, mapiE_length in Ha.
  rewrite !nth_error_map in Hab.
  destruct (nth_error PLATFORM_FOLDERS a) as [pa|] eqn:Ea.
  2:{ apply nth_error_None in Ea. lia. }
  destruct (mapiE_nth_error (platform_folder env) i PLATFORM_FOLDERS s a Ea)
    as (sa & Hna).
  rewrite Hna in Hab. simpl in Hab.
  destruct (nth_error PLATFORM_FOLDERS b) as [pb|] eqn:Eb.
  - destruct (mapiE_nth_error (platform_folder env) i PLATFORM_FOLDERS s b Eb)
      as (sb & Hnb).
    rewrite Hnb in Hab. simpl in Hab. injection Hab as Hab.
    apply index_dash_inj in Hab. lia.
  - apply nth_error_None in Eb.
    assert (Hnone : nth_error
                      (fst (mapiE (platform_folder env) i PLATFORM_FOLDERS s))
                      b = None).
    { apply nth_error_None. now rewrite mapiE_length. }
    rewrite Hnone in Hab. discriminate.
Qed.

(** The hydration of an empty storage establishes the invariant. *)
Lemma hydrated_inv w0 :
  stored_folders w0 = [] ->
  hierarchy_inv env N (loadFromStorage env PLATFORM_FOLDERS w0).
Proof.
  intros He. unfold loadFromStorage. unfold stored_folders in He.
  rewrite He. simpl.
  destruct (mapiE (platform_folder env) 0 PLATFORM_FOLDERS (sys w0))
    as [fs s] eqn:Em.
  assert (Hfs : fs = fst (mapiE (platform_folder env) 0 PLATFORM_FOLDERS
                            (sys w0))) by now rewrite Em.
  assert (Hall : Forall (fun f => Folder.parentId f = None
                                  /\ exists t, Folder.id f
                                       = ("platform-folder-" ++ t)%string) fs).
  { rewrite Hfs. apply mapiE_Forall. intros a j s'. split; [reflexivity |].
    eexists. reflexivity. }
  rewrite Forall_forall in Hall.
  constructor; simpl.
  - intros f p Hf Hp. destruct (Hall f Hf) as [Hnone _]. congruence.
  - rewrite Hfs. apply platform_ids_unique.
  - intros f Hf. destruct (Hall f Hf) as [_ (t & ->)]. discriminate.
  - intros f Hf n _. destruct (Hall f Hf) as [_ (t & ->)].
    intros Heq. symmetry in Heq. revert Heq.
    apply is_uuid_not_platform, Huuid.
  - intros f p Hf Hp. destruct (Hall f Hf) as [Hnone _]. congruence.
Qed.

End Hierarchy.

Lemma mapE_map {A C : Type} (f : A -> Eff A) (g : A -> C) l s :
  (forall a s', g (fst (f a s')) = g a) ->
  map g (fst (mapE f l s)) = map g l.
Proof.
  intros H. revert s. induction l as [|a l IH]; intros s.
  - reflexivity.
  - rewrite mapE_cons. simpl. now rewrite H, IH.
Qed.

Lemma NoDup_map_filter {A B : Type} (g : A -> B) (p : A -> bool) l :
  NoDup (map g l) -> NoDup (map g (filter p l)).
Proof.
  induction l as [|a l IH]; intros H; simpl in *; [constructor |].
  inversion H as [|? ? Ha Hl]; subst.
  destruct (p a); simpl; [| now apply IH].
  constructor; [| now apply IH].
  intros Hin. apply Ha. apply in_map_iff in Hin as (x & Hx & Hin).
  apply filter_In in Hin as [Hin _]. apply in_map_iff. now exists x.
Qed.

Lemma NoDup_map_In_eq {A B : Type} (g : A -> B) l a b :
  NoDup (map g l) -> In a l -> In b l -> g a = g b -> a = b.
Proof.
  induction l as [|x l IH]; intros H Ha Hb He; [contradiction |].
  simpl in *. inversion H as [|? ? Hx Hl]; subst.
  destruct Ha as [-> | Ha], Hb as [-> | Hb].
  - reflexivity.
  - contradiction Hx. rewrite He. now apply in_map.
  - contradiction Hx. rewrite <- He. now apply in_map.
  - now apply IH.
Qed.

Section HierarchySteps.

Variable env : Env.
Variable FOLDER_ICONS : list FolderIcon.
Variable N : nat.

Hypothesis Huuid : uuid_generator env.
Hypothesis Hdistinct : distinct_below env N.

(** The invariant passes to a world whose folders have the shapes of
    folders of the first, without repeated identifier. *)
Lemma inv_transfer w w' :
  hierarchy_inv env N w ->
  (forall f', In f' (folders (store w')) ->
     exists f, In f (folders (store w)) /\ shape f = shape f') ->
  NoDup (map Folder.id (folders (store w'))) ->
  issued (sys w) <= issued (sys w') ->
  hierarchy_inv env N w'.
Proof.
  intros [Hl Hu Hn Hi Hp] Hsh Hnd Hiss. constructor.
  - intros f' p Hf' Hpar g' Hg' Hid.
    destruct (Hsh f' Hf') as (f & Hf & Ef).
    destruct (Hsh g' Hg') as (g & Hg & Eg).
    unfold shape in Ef, Eg. injection Ef as Ef1 Ef2. injection Eg as Eg1 Eg2.
    rewrite <- Eg2. apply (Hl f p Hf); congruence.
  - exact Hnd.
  - intros f' Hf'. destruct (Hsh f' Hf') as (f & Hf & Ef).
    unfold shape in Ef. injection Ef as Ef1 _. rewrite <- Ef1. now apply Hn.
  - intros f' Hf' n Hn'. destruct (Hsh f' Hf') as (f & Hf & Ef).
    unfold shape in Ef. injection Ef as Ef1 _. rewrite <- Ef1.
    apply (Hi f Hf). lia.
  - intros f' p Hf' Hpar n Hn'. destruct (Hsh f' Hf') as (f & Hf & Ef).
    unfold shape in Ef. injection Ef as _ Ef2.
    apply (Hp f p Hf); [congruence | lia].
Qed.

Lemma inv_same_folders w w' :
  hierarchy_inv env N w ->
  folders (store w') = folders (store w) ->
  sys w' = sys w ->
  hierarchy_inv env N w'.
Proof.
  intros H Hf Hs. apply (@inv_transfer w w' H).
  - intros f'. rewrite Hf. intros Hin. now exists f'.
  - rewrite Hf. apply (inv_unique H).
  - rewrite Hs. lia.
Qed.

Lemma inv_deleteFolder id w :
  hierarchy_inv env N w -> hierarchy_inv env N (deleteFolder id w).
Proof.
  intros H. apply (@inv_transfer w (deleteFolder id w) H); unfold deleteFolder;
    rewrite ?folders_commit_folders, ?sys_commit_folders; simpl.
  - intros f' Hin. apply filter_In in Hin as [Hin _]. now exists f'.
  - apply NoDup_map_filter, (inv_unique H).
  - lia.
Qed.

Lemma updateFolder_shapes id u w :
  Folder.p_id u = None -> Folder.p_parentId u = None ->
  map shape (folders (store (updateFolder env id u w)))
  = map shape (folders (store w)).
Proof.
  intros Hid Hpar. unfold updateFolder. rewrite folders_commit_folders.
  apply mapE_map. intros a s'.
  destruct (Folder.id a =? id); [| reflexivity].
  unfold shape. simpl. now rewrite Hid, Hpar.
Qed.

Lemma updateFolder_issued id u w :
  issued (sys (updateFolder env id u w)) = issued (sys w).
Proof.
  unfold updateFolder. rewrite sys_commit_folders.
  match goal with
  | |- context [mapE ?f ?l ?s] =>
      apply (@mapE_sys _ _ f l s ltac:(clock_only_tac))
  end.
Qed.

Lemma inv_updateFolder id u w :
  Folder.p_id u = None -> Folder.p_parentId u = None ->
  hierarchy_inv env N w -> hierarchy_inv env N (updateFolder env id u w).
Proof.
  intros Hid Hpar H.
  pose proof (@updateFolder_shapes id u w Hid Hpar) as Hsh.
  apply (@inv_transfer w (updateFolder env id u w) H).
  - intros f' Hin. apply (in_map shape) in Hin. rewrite Hsh in Hin.
    apply in_map_iff in Hin as (f & Ef & Hf). now exists f.
  - replace (map Folder.id (folders (store (updateFolder env id u w))))
      with (map fst (map shape (folders (store (updateFolder env id u w)))))
      by (rewrite map_map; reflexivity).
    rewrite Hsh, map_map. apply (inv_unique H).
  - rewrite updateFolder_issued. lia.
Qed.

(** A new folder with an admissible parent may be appended. *)
Lemma inv_addFolder data w :
  hierarchy_inv env N w ->
  issued (sys w) < N ->
  admissible_parent data w ->
  hierarchy_inv env N (addFolder env data w).
Proof.
  intros [Hl Hu Hn Hi Hp] Hlt Hparent.
  set (k := issued (sys w)) in *.
  assert (Hnew : forall f, In f (folders (store (addFolder env data w))) ->
            In f (folders (store w))
            \/ (Folder.id f = randomUUID env k
                /\ Folder.parentId f = Folder.d_parentId data)).
  { intros f Hin. unfold addFolder in Hin. simpl in Hin.
    apply in_app_or in Hin as [Hin | [<- | []]]; [now left | right].
    split; reflexivity. }
  assert (Hfresh : forall f, In f (folders (store w)) ->
            Folder.id f <> randomUUID env k).
  { intros f Hf. apply (Hi f Hf). unfold k. lia. }
  assert (Hk : randomUUID env k <> "") by apply is_uuid_nonempty, Huuid.
  constructor.
  - intros f p Hf Hpar g Hg Hid.
    destruct (Hnew f Hf) as [Hf' | [Hfi Hfp]],
             (Hnew g Hg) as [Hg' | [Hgi Hgp]].
    + now apply (Hl f p Hf' Hpar g Hg').
    + exfalso. apply (Hp f p Hf' Hpar k); [unfold k; lia | congruence].
    + rewrite Hfp in Hpar.
      destruct Hparent as [Hd | [Hd | (parent & Hpin & Hproot & Hd)]];
        rewrite Hd in Hpar; try discriminate; injection Hpar as <-.
      * exfalso. now apply (Hn g Hg').
      * now rewrite (@NoDup_map_In_eq _ _ Folder.id _ g parent Hu Hg' Hpin Hid).
    + exfalso. rewrite Hfp in Hpar.
      destruct Hparent as [Hd | [Hd | (parent & Hpin & Hproot & Hd)]];
        rewrite Hd in Hpar; try discriminate; injection Hpar as <-.
      * apply Hk. congruence.
      * apply (Hfresh parent Hpin). congruence.
  - unfold addFolder. simpl. rewrite map_app. simpl.
    apply NoDup_app; [exact Hu | repeat constructor; intros [] |].
    intros x Hx [<- | []].
    apply in_map_iff in Hx as (f & Ef & Hf). now apply (Hfresh f Hf).
  - intros f Hf. destruct (Hnew f Hf) as [Hf' | [Hfi _]].
    + now apply Hn.
    + now rewrite Hfi.
  - intros f Hf n Hn'. change (issued (sys (addFolder env data w))) with (S k) in Hn'.
    destruct (Hnew f Hf) as [Hf' | [Hfi _]].
    + apply (Hi f Hf'). unfold k in *. lia.
    + rewrite Hfi. apply Hdistinct. lia.
  - intros f p Hf Hpar n Hn'.
    change (issued (sys (addFolder env data w))) with (S k) in Hn'.
    destruct (Hnew f Hf) as [Hf' | [_ Hfp]].
    + apply (Hp f p Hf' Hpar). unfold k in *. lia.
    + rewrite Hfp in Hpar.
      destruct Hparent as [Hd | [Hd | (parent & Hpin & Hproot & Hd)]];
        rewrite Hd in Hpar; try discriminate; injection Hpar as <-.
      * intros Heq. symmetry in Heq. revert Heq.
        apply is_uuid_nonempty, Huuid.
      * apply (Hi parent Hpin). unfold k in *. lia.
Qed.

(** The three ways the submission of the folder form ends: rejected, an
    update of name, icon and color, or the creation of a folder with an
    admissible parent. *)
Lemma onSubmit_cases data w :
  onSubmit env FOLDER_ICONS data w = w
  \/ (exists id u,
        Folder.p_id u = None /\ Folder.p_parentId u = None
        /\ onSubmit env FOLDER_ICONS data w
           = handleClose (updateFolder env id u w))
  \/ (exists fdata,
        admissible_parent fdata w
        /\ Folder.d_parentId fdata = parentFolderId (store w)
        /\ onSubmit env FOLDER_ICONS data w
           = handleClose (addFolder env fdata w)).
Proof.
  unfold onSubmit.
  destruct (editingFolder w) as [ef|] eqn:Ee.
  - right; left.
    assert (Hrej : match parentFolderId (store w) with
                   | Some p =>
                       if negb true && JS.truthy (Some p)
                       then match JS.find (fun f => Folder.id f =? p)
                                    (folders (store w)) with
                            | Some parent =>
                                match Folder.parentId parent with
                                | None => negb (canAddSubFolder p
                                                  (folders (store w)))
                                | Some _ => true
                                end
                            | None => true
                            end
                       else false
                   | None => false
                   end = false)
      by (destruct (parentFolderId (store w)); reflexivity).
    rewrite Hrej. eexists. eexists.
    split; [| split; [| reflexivity]]; reflexivity.
  - destruct (parentFolderId (store w)) as [p|] eqn:Ep.
    + simpl. destruct (p =? "") eqn:Epe; simpl.
      * right; right. eexists. split; [| split; [| reflexivity]].
        -- apply String.eqb_eq in Epe. subst p.
           right; left. reflexivity.
        -- reflexivity.
      * destruct (JS.find (fun f => Folder.id f =? p) (folders (store w)))
          as [parent|] eqn:Ef; [| now left].
        destruct (Folder.parentId parent) eqn:Epp; [now left |].
        destruct (canAddSubFolder p (folders (store w))); simpl;
          [| now left].
        right; right. eexists. split; [| split; [| reflexivity]].
        -- right; right. exists parent.
           apply find_some in Ef as [Hin Hid]. apply String.eqb_eq in Hid.
           simpl. subst p. repeat split; assumption.
        -- reflexivity.
    + right; right. eexists. split; [| split; [| reflexivity]].
      * now left.
      * reflexivity.
Qed.

Lemma handleClose_folders w :
  folders (store (handleClose w)) = folders (store w).
Proof. reflexivity. Qed.

Lemma handleClose_sys w : sys (handleClose w) = sys w.
Proof. reflexivity. Qed.

Lemma onSubmit_issued data w :
  issued (sys w) <= issued (sys (onSubmit env FOLDER_ICONS data w)).
Proof.
  destruct (onSubmit_cases data w)
    as [-> | [(id & u & _ & _ & ->) | (fdata & _ & _ & ->)]].
  - lia.
  - rewrite handleClose_sys, updateFolder_issued. lia.
  - rewrite handleClose_sys. simpl. lia.
Qed.

Lemma inv_onSubmit data w :
  hierarchy_inv env N w ->
  issued (sys (onSubmit env FOLDER_ICONS data w)) <= N ->
  hierarchy_inv env N (onSubmit env FOLDER_ICONS data w).
Proof.
  intros H.
  destruct (onSubmit_cases data w)
    as [-> | [(id & u & Hid & Hpar & ->) | (fdata & Hadm & _ & ->)]];
    intros Hle.
  - exact H.
  - apply (@inv_same_folders (updateFolder env id u w));
      [now apply inv_updateFolder | reflexivity | reflexivity].
  - apply (@inv_same_folders (addFolder env fdata w));
      [| reflexivity | reflexivity].
    apply inv_addFolder; [exact H | | exact Hadm].
    rewrite handleClose_sys in Hle. simpl in Hle. lia.
Qed.

Lemma step_issued a w :
  issued (sys w) <= issued (sys (step env FOLDER_ICONS a w)).
Proof.
  destruct a; cbn [step].
  - simpl. lia.
  - simpl. lia.
  - apply onSubmit_issued.
  - rewrite updateFolder_issued. lia.
  - simpl. lia.
Qed.

Lemma inv_step a w :
  keeps_hierarchy a ->
  hierarchy_inv env N w ->
  issued (sys (step env FOLDER_ICONS a w)) <= N ->
  hierarchy_inv env N (step env FOLDER_ICONS a w).
Proof.
  intros Ha H Hle. destruct a; cbn [step keeps_hierarchy] in *.
  - now apply (@inv_same_folders w).
  - now apply (@inv_same_folders w).
  - now apply inv_onSubmit.
  - destruct Ha. now apply inv_updateFolder.
  - now apply inv_deleteFolder.
Qed.

End HierarchySteps.

(* ================================================================= *)
(** ** Runs of the folder state machine *)

Lemma two_levels_check fs : two_levels fs -> two_levelsb fs = true.
Proof.
  intros H. apply forallb_forall. intros f Hf.
  destruct (Folder.parentId f) as [p|] eqn:Ep; [| reflexivity].
  destruct (H f p Hf Ep) as (g & Hg & Hid & Hroot).
  apply existsb_exists. exists g. split; [exact Hg |].
  unfold is_root. rewrite Hroot, andb_true_r. now apply String.eqb_eq.
Qed.

Lemma two_levels_or_dangling_check fs :
  two_levels_or_dangling fs -> two_levels_or_danglingb fs = true.
Proof.
  intros H. apply forallb_forall. intros f Hf.
  destruct (Folder.parentId f) as [p|] eqn:Ep; [| reflexivity].
  apply forallb_forall. intros g Hg.
  destruct (Folder.id g =? p) eqn:E; [| reflexivity].
  apply String.eqb_eq in E. unfold is_root.
  now rewrite (H f p Hf Ep g Hg E).
Qed.

Lemma reachable_weaken env PF ICONS (P Q : Action -> Prop) w :
  (forall a, P a -> Q a) ->
  reachable env PF ICONS P w -> reachable env PF ICONS Q w.
Proof.
  intros HPQ. induction 1 as [w0 H0 H1 | a w Hr IH Ha].
  - now apply reach_hydrated.
  - apply reach_step; [exact IH | now apply HPQ].
Qed.

Section Runs.

Variable env : Env.
Variable PLATFORM_FOLDERS : list PlatformFolder.
Variable FOLDER_ICONS : list FolderIcon.

Hypothesis Huuid : uuid_generator env.

Lemma reachable_inv N w :
  distinct_below env N ->
  reachable env PLATFORM_FOLDERS FOLDER_ICONS keeps_hierarchy w ->
  issued (sys w) <= N ->
  hierarchy_inv env N w.
Proof.
  intros Hd. induction 1 as [w0 H0 H1 | a w Hr IH Ha]; intros Hle.
  - now apply hydrated_inv.
  - apply inv_step; try assumption.
    apply IH. pose proof (step_issued env FOLDER_ICONS a w). lia.
Qed.

Lemma parents_present_shapes fs fs' :
  map shape fs' = map shape fs ->
  parents_present fs -> parents_present fs'.
Proof.
  intros Hsh H f' p Hf' Hp.
  apply (in_map shape) in Hf'. rewrite Hsh in Hf'.
  apply in_map_iff in Hf' as (f & Ef & Hf).
  unfold shape in Ef. injection Ef as _ Ef2.
  destruct (H f p Hf ltac:(congruence)) as (g & Hg & Hid).
  apply (in_map shape) in Hg. rewrite <- Hsh in Hg.
  apply in_map_iff in Hg as (g' & Eg & Hg').
  unfold shape in Eg. injection Eg as Eg1 _.
  exists g'. split; [exact Hg' | congruence].
Qed.

(** Without deletion the referenced parents stay in the collection. *)
Lemma reachable_parents_present w :
  reachable env PLATFORM_FOLDERS FOLDER_ICONS builds_only w ->
  parents_present (folders (store w))
  /\ parentFolderId (store w) <> Some "".
Proof.
  induction 1 as [w0 H0 H1 | a w Hr [IHp IHf] [Hk Hn]].
  - split.
    + intros f p Hf Hp. exfalso. revert Hf Hp.
      unfold loadFromStorage. unfold stored_folders in H1. rewrite H1. simpl.
      destruct (mapiE (platform_folder env) 0 PLATFORM_FOLDERS (sys w0))
        as [fs s] eqn:Em. simpl. intros Hf Hp.
      assert (Hall : Forall (fun f => Folder.parentId f = None) fs).
      { replace fs with (fst (mapiE (platform_folder env) 0 PLATFORM_FOLDERS
                                (sys w0))) by now rewrite Em.
        apply mapiE_Forall. reflexivity. }
      rewrite Forall_forall in Hall. rewrite (Hall f Hf) in Hp. discriminate.
    + unfold loadFromStorage. unfold stored_folders in H1. rewrite H1. simpl.
      destruct (mapiE (platform_folder env) 0 PLATFORM_FOLDERS (sys w0)).
      simpl. rewrite H0. discriminate.
  - destruct a; cbn [step keeps_hierarchy never_deletes] in *.
    + split; [exact IHp |]. simpl. destruct folderId; [| discriminate].
      intros [= ->]. now apply Hn.
    + split; [exact IHp | exact IHf].
    + destruct (onSubmit_cases env FOLDER_ICONS data w)
        as [-> | [(id & u & Hid & Hpar & ->) | (fdata & Hadm & Hd & ->)]].
      * split; assumption.
      * split; [| discriminate]. rewrite handleClose_folders.
        apply (@parents_present_shapes _ _
                 (@updateFolder_shapes env id u w Hid Hpar) IHp).
      * split; [| discriminate]. rewrite handleClose_folders.
        intros f p Hf Hp. unfold addFolder in Hf. simpl in Hf.
        apply in_app_or in Hf as [Hf | [<- | []]].
        -- destruct (IHp f p Hf Hp) as (g & Hg & Hid).
           exists g. split; [| exact Hid].
           unfold addFolder. simpl. apply in_or_app. now left.
        -- simpl in Hp.
           destruct Hadm as [Ha | [Ha | (parent & Hpin & _ & Ha)]].
           ++ congruence.
           ++ exfalso. apply IHf. congruence.
           ++ exists parent. split; [| congruence].
              unfold addFolder. simpl. apply in_or_app. now left.
    + destruct Hk as [Hid Hpar]. split; [| exact IHf].
      apply (@parents_present_shapes _ _
               (@updateFolder_shapes env id updates w Hid Hpar) IHp).
    + contradiction.
Qed.

End Runs.

Lemma reachable_run env PF ICONS (P : Action -> Prop) actions w :
  reachable env PF ICONS P w ->
  Forall P actions ->
  reachable env PF ICONS P (run env ICONS actions w).
Proof.
  revert w. induction actions as [|a actions IH]; intros w Hr Hall.
  - exact Hr.
  - inversion Hall as [|? ? Ha Hrest]; subst. simpl.
    apply IH; [| exact Hrest]. now apply reach_step.
Qed.

Lemma is_hex_digit d : is_hex (JS.digit d) = true.
Proof.
  unfold is_hex, JS.digit.
  assert (Hd : Z.to_nat (d mod 10) < 10).
  { pose proof (Z.mod_pos_bound d 10 ltac:(lia)). lia. }
  rewrite nat_ascii_embedding by lia.
  apply orb_true_iff. left. apply andb_true_iff.
  split; apply Nat.leb_le; lia.
Qed.

Lemma is_uuid_two_digits (a b : ascii) :
  is_hex a = true -> is_hex b = true ->
  is_uuid ("00000000-0000-4000-8000-0000000000" ++ String a (String b ""))
  = true.
Proof.
  intros Ha Hb. unfold is_uuid. cbn [append uuid_shape].
  rewrite Ha, Hb. reflexivity.
Qed.

Lemma Demo_uuid_generator : uuid_generator Demo.env.
Proof.
  intros n.
  change (is_uuid ("00000000-0000-4000-8000-0000000000"
                     ++ String (JS.digit (Z.of_nat n / 10))
                          (String (JS.digit (Z.of_nat n)) "")) = true).
  apply is_uuid_two_digits; apply is_hex_digit.
Qed.

Lemma DemoRun_hydrated_reachable (P : Action -> Prop) :
  reachable Demo.env Demo.table Demo.icons P DemoRun.hydrated.
Proof. apply reach_hydrated; reflexivity. Qed.

(* ================================================================= *)
(** ** The depth of the folder tree *)

(** C4, as the code has it. In every world reached from the first hydration
    of an empty storage through the folder form (with its creation-time
    checks), [updateFolder] with updates that leave [id] and [parentId] alone,
    and [deleteFolder], the folder that a sub-folder names, if it is in the
    collection, has [parentId == null], and identifiers are unique. As long
    as no folder has been deleted, the named folder is in the collection.
    The generator is taken to return UUIDs and not to have repeated itself
    so far. *)
Theorem folder_depth_at_most_two env PF ICONS w :
  uuid_generator env ->
  distinct_below env (issued (sys w)) ->
  (reachable env PF ICONS keeps_hierarchy w ->
   two_levels_or_dangling (folders (store w))
   /\ NoDup (map Folder.id (folders (store w))))
  /\ (reachable env PF ICONS builds_only w ->
      two_levels (folders (store w))).
Proof.
  intros Huuid Hd.
  assert (Hinv : reachable env PF ICONS keeps_hierarchy w ->
                 hierarchy_inv env (issued (sys w)) w).
  { intros Hr. apply (@reachable_inv env PF ICONS Huuid); auto. }
  split.
  - intros Hr. destruct (Hinv Hr) as [Hl Hu _ _ _]. now split.
  - intros Hr.
    assert (Hr' : reachable env PF ICONS keeps_hierarchy w).
    { apply (@reachable_weaken env PF ICONS builds_only); [| exact Hr].
      now intros a [Ha _]. }
    destruct (Hinv Hr') as [Hl _ _ _ _].
    destruct (@reachable_parents_present env PF ICONS w Hr) as [Hp _].
    intros f p Hf Hpar.
    destruct (Hp f p Hf Hpar) as (g & Hg & Hid).
    exists g. repeat split; try assumption.
    now apply (Hl f p Hf Hpar g Hg).
Qed.

Lemma folder_depth_at_most_two_witness :
  let w := run Demo.env Demo.icons DemoRun.create_sub DemoRun.hydrated in
  uuid_generator Demo.env
  /\ distinct_below Demo.env (issued (sys w))
  /\ reachable Demo.env Demo.table Demo.icons builds_only w
  /\ List.length (folders (store w)) = 11
  /\ two_levels (folders (store w)).
Proof.
  intros w.
  assert (Hd : distinct_below Demo.env (issued (sys w))).
  { intros i j Hij. apply Demo_distinct_below_3.
    change (issued (sys w)) with 1 in Hij. lia. }
  assert (Hr : reachable Demo.env Demo.table Demo.icons builds_only w).
  { apply reachable_run; [apply DemoRun_hydrated_reachable |].
    repeat constructor. discriminate. }
  split; [exact Demo_uuid_generator | split; [exact Hd | split; [exact Hr |]]].
  split; [reflexivity |].
  exact (proj2 (@folder_depth_at_most_two Demo.env Demo.table Demo.icons w
                  Demo_uuid_generator Hd) Hr).
Defined.

(** C4 as stated fails. (1) The store's [deleteFolder] does not cascade:
    after a sub-folder has been created through the form and its parent
    deleted, the sub-folder names a folder that is not in the collection.
    (2) The store's [updateFolder] merges any update: two roots made children
    of one another name folders that are not roots. *)
Lemma folder_parent_may_be_missing :
  let w1 := run Demo.env Demo.icons DemoRun.create_sub_delete_parent
              DemoRun.hydrated in
  let w2 := run Demo.env Demo.icons DemoRun.reparent DemoRun.hydrated in
  (reachable Demo.env Demo.table Demo.icons keeps_hierarchy w1
   /\ ~ two_levels (folders (store w1)))
  /\ (reachable Demo.env Demo.table Demo.icons any_action w2
      /\ ~ two_levels (folders (store w2))
      /\ ~ two_levels_or_dangling (folders (store w2))).
Proof.
  intros w1 w2. split; [split | split; [| split]].
  - apply reachable_run; [apply DemoRun_hydrated_reachable |].
    repeat constructor.
  - intros H. apply two_levels_check in H. vm_compute in H. discriminate.
  - apply reachable_run; [apply DemoRun_hydrated_reachable |].
    repeat constructor.
  - intros H. apply two_levels_check in H. vm_compute in H. discriminate.
  - intros H. apply two_levels_or_dangling_check in H.
    vm_compute in H. discriminate.
Qed.

(* ================================================================= *)
(** * Further properties of the store *)

Ltac open_link_action :=
  unfold link_at, updateLink, deleteLink, restoreLink, toggleFavorite;
  rewrite ?links_commit_links, ?sys_commit_links.

Ltac at_link_position H :=
  let s1 := fresh "s1" in
  let H1 := fresh "Hlo" in
  let H2 := fresh "Hhi" in
  let H3 := fresh "Hiss" in
  let H4 := fresh "Hnth" in
  match goal with
  | |- context [mapE ?f ?l ?s] =>
      destruct (@mapE_nth_error _ _ f l s _ _ ltac:(clock_only_tac) H)
        as (s1 & H1 & H2 & H3 & H4)
  end.

Section MoreLinkActions.

Variable env : Env.

Lemma toggleFavorite_miss id w i l :
  link_at w i l -> Link.id l <> id -> link_at (toggleFavorite env id w) i l.
Proof.
  intros H Hne. open_link_action. at_link_position H.
  rewrite Hnth. apply String.eqb_neq in Hne. rewrite Hne. reflexivity.
Qed.

Lemma toggleFavorite_hit id w i l :
  link_at w i l -> Link.id l = id ->
  exists k,
    ticks (sys w) <= k < ticks (sys (toggleFavorite env id w))
    /\ link_at (toggleFavorite env id w) i
         (Link.set_updatedAt (stamp env k)
            (Link.set_isFavorite (negb (Link.isFavorite l)) l)).
Proof.
  intros H He. open_link_action. at_link_position H.
  apply String.eqb_eq in He. rewrite He in *.
  exists (ticks s1). simpl in *. split; [lia | exact Hnth].
Qed.

Lemma toggleFavorite_length id w :
  List.length (links (store (toggleFavorite env id w)))
  = List.length (links (store w)).
Proof. open_link_action. apply mapE_length. Qed.

(** X1. [toggleFavorite(id)] applied twice gives every link its favorite
    flag back: the links that carry [id] differ from what they were in
    [updatedAt] only, the others are not touched. *)
Theorem toggleFavorite_twice id w i l :
  link_at w i l ->
  let w2 := toggleFavorite env id (toggleFavorite env id w) in
  exists l',
    link_at w2 i l'
    /\ Link.isFavorite l' = Link.isFavorite l
    /\ l' = Link.set_updatedAt (Link.updatedAt l') l
    /\ (Link.id l <> id -> l' = l)
    /\ (Link.id l = id ->
        exists k, ticks (sys w) < k /\ Link.updatedAt l' = stamp env k)
    /\ List.length (links (store w2)) = List.length (links (store w)).
Proof.
  intros Hat w2.
  assert (Hlen : List.length (links (store w2))
                 = List.length (links (store w))).
  { unfold w2. now rewrite !toggleFavorite_length. }
  destruct (String.eqb_spec (Link.id l) id) as [He | Hne].
  - destruct (@toggleFavorite_hit id w i l Hat He) as (k1 & Hk1 & Hat1).
    destruct (@toggleFavorite_hit id (toggleFavorite env id w) i _ Hat1 He)
      as (k2 & Hk2 & Hat2).
    eexists. split; [exact Hat2 |].
    split; [simpl; apply negb_involutive |].
    split; [destruct l; simpl; now rewrite negb_involutive |].
    split; [intros Hne; contradiction |].
    split; [| exact Hlen].
    intros _. exists k2. split; [lia | reflexivity].
  - pose proof (@toggleFavorite_miss id w i l Hat Hne) as Hat1.
    pose proof (@toggleFavorite_miss id _ i l Hat1 Hne) as Hat2.
    exists l. split; [exact Hat2 |].
    split; [reflexivity |]. split; [now destruct l |].
    split; [reflexivity |]. split; [| exact Hlen].
    intros He. contradiction.
Qed.

(** X2. [permanentlyDeleteLink(id)] removes every link that carries [id],
    whether it is in the trash or not, and keeps the others, in order; the
    folders are not touched. Nothing brings the link back: afterwards
    [restoreLink(id)], [deleteLink(id)] and [updateLink(id, _)] leave the
    collection as it is. *)
Theorem permanentlyDeleteLink_irreversible id (u : Link.partial) w :
  let w' := permanentlyDeleteLink id w in
  absent_link id w'
  /\ (forall l, In l (links (store w)) -> Link.id l <> id ->
        In l (links (store w')))
  /\ (forall l, In l (links (store w')) -> In l (links (store w)))
  /\ filter (fun l => negb (Link.id l =? id)) (links (store w))
     = links (store w')
  /\ folders (store w') = folders (store w)
  /\ links (store (restoreLink env id w')) = links (store w')
  /\ links (store (deleteLink env id w')) = links (store w')
  /\ links (store (updateLink env id u w')) = links (store w').
Proof.
  intros w'.
  assert (Habs : absent_link id w').
  { intros l Hl. unfold w', permanentlyDeleteLink in Hl.
    rewrite links_commit_links in Hl. simpl in Hl.
    apply filter_In in Hl as [_ Hl]. apply negb_true_iff in Hl.
    now apply String.eqb_neq. }
  split; [exact Habs |].
  split.
  { intros l Hl Hne. unfold w', permanentlyDeleteLink.
    rewrite links_commit_links. simpl. apply filter_In. split; [exact Hl |].
    apply negb_true_iff. now apply String.eqb_neq. }
  split.
  { intros l Hl. unfold w', permanentlyDeleteLink in Hl.
    rewrite links_commit_links in Hl. simpl in Hl.
    now apply filter_In in Hl as [Hl _]. }
  split; [reflexivity | split; [reflexivity |]].
  unfold restoreLink, deleteLink, updateLink.
  rewrite !links_commit_links, !(map_links_absent _ Habs).
  repeat split; reflexivity.
Qed.

End MoreLinkActions.

Lemma toggleFavorite_twice_witness :
  let l := Demo.a_link "a" None true in
  let w := Demo.world [l; Demo.a_link "b" None false] [] in
  link_at w 0 l
  /\ exists l',
       link_at (toggleFavorite Demo.env "a" (toggleFavorite Demo.env "a" w))
         0 l'
       /\ Link.isFavorite l' = true.
Proof.
  intros l w. split; [reflexivity |].
  destruct (@toggleFavorite_twice Demo.env "a" w 0 l eq_refl)
    as (l' & Hat & Hfav & _).
  exists l'. split; [exact Hat | exact Hfav].
Defined.

(** X3. Adding a link and then permanently deleting the identifier it was
    given restores the links collection, as long as the identifiers of the
    collection were issued by the generator and the generator has not
    repeated itself. *)
Theorem addLink_then_permanentlyDeleteLink env data w :
  link_ids_issued env w ->
  distinct_below env (S (issued (sys w))) ->
  links (store (permanentlyDeleteLink (randomUUID env (issued (sys w)))
                  (addLink env data w)))
  = links (store w).
Proof.
  intros Hiss Hdist.
  unfold permanentlyDeleteLink, addLink. simpl.
  rewrite filter_app. simpl. rewrite String.eqb_refl. simpl.
  rewrite List.app_nil_r. apply filter_unchanged.
  intros l Hl. apply negb_true_iff, String.eqb_neq.
  destruct (Hiss l Hl) as (j & Hj & ->).
  apply Hdist. lia.
Qed.

Lemma addLink_then_permanentlyDeleteLink_witness :
  let w := Demo.two_links in
  let data := Link.mkData "https://example.org" "Example" "" "" other None
                false in
  link_ids_issued Demo.env w
  /\ distinct_below Demo.env (S (issued (sys w)))
  /\ map Link.id (links (store w)) = [Demo.uuid 0; Demo.uuid 1]
  /\ List.length (links (store (addLink Demo.env data w))) = 3
  /\ links (store (permanentlyDeleteLink (Demo.uuid 2)
                     (addLink Demo.env data w)))
     = links (store w).
Proof.
  intros w data.
  destruct Demo_two_links_issued as (H1 & H2 & H3).
  split; [exact H1 | split; [exact H2 | split; [exact H3 |]]].
  split; [reflexivity |].
  exact (@addLink_then_permanentlyDeleteLink Demo.env data w H1 H2).
Defined.

(* ================================================================= *)
(** ** The storage follows the memory *)

Section Mirror.

Variable env : Env.
Variable PLATFORM_FOLDERS : list PlatformFolder.

Lemma synced_apply a w : synced w -> synced (Act.apply env a w).
Proof.
  intros (Hl & Hf & Hs).
  destruct a; unfold Act.apply, synced;
    try (unfold addLink;
         match goal with
         | |- context [let '(_, _) := ?m in _] => destruct m
         end);
    try (unfold addFolder;
         match goal with
         | |- context [let '(_, _) := ?m in _] => destruct m
         end);
    unfold updateLink, deleteLink, restoreLink, permanentlyDeleteLink,
      toggleFavorite, updateFolder, deleteFolder, updateSettings,
      commit_links, commit_folders;
    simpl; repeat split; assumption || reflexivity.
Qed.

Lemma synced_run actions w : synced w -> synced (Act.run env actions w).
Proof.
  revert w. induction actions as [|a actions IH]; intros w H.
  - exact H.
  - simpl. apply IH. now apply synced_apply.
Qed.

Lemma synced_loadFromStorage w :
  synced (loadFromStorage env PLATFORM_FOLDERS w).
Proof.
  unfold loadFromStorage, synced.
  destruct (JS.or_else (linkvault_folders (storage w)) []) as [|f fs] eqn:E.
  - simpl.
    destruct (mapiE (platform_folder env) 0 PLATFORM_FOLDERS (sys w)).
    simpl. repeat split; reflexivity.
  - simpl. repeat split; try reflexivity. exact E.
Qed.

(** X4. The durable storage mirrors the memory. After [loadFromStorage()]
    and any sequence of store actions, a reload would read from the storage
    the links, folders and settings that are in memory; so, unless the
    folders collection has become empty, [loadFromStorage()] leaves the
    three collections, the storage and the clock as they are. *)
Theorem reload_reproduces_memory actions w0 :
  let w := Act.run env actions (loadFromStorage env PLATFORM_FOLDERS w0) in
  let w' := loadFromStorage env PLATFORM_FOLDERS w in
  synced w
  /\ links (store w') = links (store w)
  /\ settings (store w') = settings (store w)
  /\ (folders (store w) <> [] ->
      folders (store w') = folders (store w)
      /\ storage w' = storage w
      /\ sys w' = sys w).
Proof.
  intros w w'.
  assert (Hs : synced w) by apply synced_run, synced_loadFromStorage.
  split; [exact Hs |].
  destruct Hs as (Hl & Hf & Hst).
  unfold w', loadFromStorage. rewrite Hl, Hf, Hst.
  destruct (folders (store w)) as [|f fs] eqn:E.
  - simpl.
    destruct (mapiE (platform_folder env) 0 PLATFORM_FOLDERS (sys w)).
    simpl. split; [reflexivity | split; [reflexivity |]].
    intros H. now contradiction H.
  - simpl. repeat split.
Qed.

End Mirror.

(** X5. [loadFromStorage()] is idempotent: a second load changes nothing, in
    memory, in the storage or on the clock, whatever the storage held. *)
Theorem loadFromStorage_idempotent env PLATFORM_FOLDERS w :
  loadFromStorage env PLATFORM_FOLDERS
    (loadFromStorage env PLATFORM_FOLDERS w)
  = loadFromStorage env PLATFORM_FOLDERS w.
Proof.
  unfold loadFromStorage.
  destruct (JS.or_else (linkvault_folders (storage w)) []) as [|f fs] eqn:E.
  - destruct PLATFORM_FOLDERS as [|pf table].
    + reflexivity.
    + cbn [List.length Nat.eqb]. rewrite mapiE_cons. reflexivity.
  - cbn [List.length Nat.eqb]. simpl. rewrite E. reflexivity.
Qed.

(* ================================================================= *)
(** * The selection *)

Lemma includes_false_iff ids s : JS.includes ids s = false <-> ~ In s ids.
Proof.
  rewrite <- includes_In. destruct (JS.includes ids s); split;
    intros H; try reflexivity; try discriminate; try (intros H'; discriminate).
  contradiction H. reflexivity.
Qed.

Lemma includes_app l1 l2 s :
  JS.includes (l1 ++ l2) s = JS.includes l1 s || JS.includes l2 s.
Proof. unfold JS.includes. apply existsb_app. Qed.

Lemma filter_neq_absent (x : string) l :
  ~ In x l -> filter (fun y => negb (y =? x)) l = l.
Proof.
  intros H. apply filter_unchanged. intros a Ha.
  apply negb_true_iff, String.eqb_neq. intros ->. contradiction.
Qed.

(** X6. [handleToggleSelect(id)] flips the membership of [id] in the
    selection and of no other identifier, keeps a selection without
    repetition so, and selecting then deselecting an identifier gives the
    selection back as it was. *)
Theorem handleToggleSelect_flips id prev :
  let next := handleToggleSelect id prev in
  JS.includes next id = negb (JS.includes prev id)
  /\ (forall x, x <> id -> JS.includes next x = JS.includes prev x)
  /\ (NoDup prev -> NoDup next)
  /\ (JS.includes prev id = false -> handleToggleSelect id next = prev)
  /\ (JS.includes prev id = false ->
      List.length next = S (List.length prev)).
Proof.
  intros next. unfold next, handleToggleSelect.
  destruct (JS.includes prev id) eqn:E.
  - repeat split.
    + simpl. apply includes_false_iff. intros H.
      apply filter_In in H as [_ H]. now rewrite String.eqb_refl in H.
    + intros x Hx.
      rewrite (includes_filter (fun y => negb (y =? id)) prev x).
      apply String.eqb_neq in Hx. rewrite Hx. apply andb_true_r.
    + intros H. now apply NoDup_filter.
    + discriminate.
    + discriminate.
  - apply includes_false_iff in E. repeat split.
    + rewrite includes_app. simpl. rewrite String.eqb_refl.
      now rewrite orb_true_r.
    + intros x Hx. rewrite includes_app. simpl.
      apply String.eqb_neq in Hx. rewrite Hx. now rewrite !orb_false_r.
    + intros H. apply NoDup_app; [exact H | repeat constructor; intros [] |].
      intros x Hx [<- | []]. contradiction.
    + intros _. rewrite includes_app. simpl. rewrite String.eqb_refl.
      rewrite orb_true_r. rewrite filter_app. simpl.
      rewrite String.eqb_refl. simpl. rewrite List.app_nil_r.
      now apply filter_neq_absent.
    + intros _. rewrite length_app. simpl. lia.
Qed.

(** The loop of the "select all visible" branch. *)
Lemma select_visible_In visible prev x :
  In x (fold_left (fun newSelection id =>
                     if negb (JS.includes newSelection id)
                     then newSelection ++ [id]
                     else newSelection) visible prev)
  <-> In x prev \/ In x visible.
Proof.
  revert prev. induction visible as [|v visible IH]; intros prev; simpl.
  - tauto.
  - rewrite IH. destruct (JS.includes prev v) eqn:E; simpl.
    + apply includes_In in E. split; [tauto |].
      intros [H | [<- | H]]; tauto.
    + rewrite in_app_iff. simpl. tauto.
Qed.

Lemma select_visible_NoDup visible prev :
  NoDup prev ->
  NoDup (fold_left (fun newSelection id =>
                      if negb (JS.includes newSelection id)
                      then newSelection ++ [id]
                      else newSelection) visible prev).
Proof.
  revert prev. induction visible as [|v visible IH]; intros prev H; simpl.
  - exact H.
  - apply IH. destruct (JS.includes prev v) eqn:E; simpl; [exact H |].
    apply includes_false_iff in E.
    apply NoDup_app; [exact H | repeat constructor; intros [] |].
    intros x Hx [<- | []]. contradiction.
Qed.

Lemma select_visible_prefix visible prev :
  exists added,
    fold_left (fun newSelection id =>
                 if negb (JS.includes newSelection id)
                 then newSelection ++ [id]
                 else newSelection) visible prev
    = prev ++ added.
Proof.
  revert prev. induction visible as [|v visible IH]; intros prev; simpl.
  - exists []. now rewrite List.app_nil_r.
  - destruct (JS.includes prev v); simpl.
    + apply IH.
    + destruct (IH (prev ++ [v])) as (added & ->).
      exists (v :: added). now rewrite <- app_assoc.
Qed.

Lemma all_visible_selected visible prev :
  forallb (fun id => JS.includes prev id) visible = true
  <-> (forall v, In v visible -> In v prev).
Proof.
  rewrite forallb_forall. split; intros H v Hv.
  - apply includes_In. now apply H.
  - apply includes_In. now apply H.
Qed.

(** X7. The "select all" event of the page. When some visible link is not
    selected, the new selection is the old one followed by the visible
    identifiers it lacked: every visible identifier is selected and nothing
    is deselected. When every visible link is selected, the visible
    identifiers are removed and the others kept. A selection without
    repetition stays so. *)
Theorem handleSelectAllEvent_toggles visible prev :
  let next := handleSelectAllEvent visible prev in
  ((exists v, In v visible /\ ~ In v prev) ->
   (forall x, In x next <-> In x prev \/ In x visible)
   /\ exists added, next = prev ++ added)
  /\ ((forall v, In v visible -> In v prev) ->
      forall x, In x next <-> In x prev /\ ~ In x visible)
  /\ (NoDup prev -> NoDup next).
Proof.
  intros next. unfold next, handleSelectAllEvent.
  destruct (forallb (fun id => JS.includes prev id) visible) eqn:E.
  - pose proof (proj1 (all_visible_selected visible prev) E) as E'.
    split; [| split].
    + intros (v & Hv & Hn). contradiction Hn. now apply E'.
    + intros _ x. rewrite filter_In, negb_true_iff, includes_false_iff.
      tauto.
    + intros H. now apply NoDup_filter.
  - assert (Hnot : ~ (forall v, In v visible -> In v prev)).
    { intros H. apply (proj2 (all_visible_selected visible prev)) in H.
      congruence. }
    split; [| split].
    + intros _. split.
      * intros x. apply select_visible_In.
      * apply select_visible_prefix.
    + intros H. contradiction.
    + apply select_visible_NoDup.
Qed.

Lemma handleSelectAllEvent_toggles_witness :
  (exists v, In v ["a"; "b"; "c"] /\ ~ In v ["b"; "z"])
  /\ handleSelectAllEvent ["a"; "b"; "c"] ["b"; "z"] = ["b"; "z"; "a"; "c"]
  /\ forall x,
       In x (handleSelectAllEvent ["a"; "b"; "c"] ["b"; "z"])
       <-> In x ["b"; "z"] \/ In x ["a"; "b"; "c"].
Proof.
  assert (H : exists v, In v ["a"; "b"; "c"] /\ ~ In v ["b"; "z"]).
  { exists "a". split; [now left |]. simpl. intuition discriminate. }
  split; [exact H | split; [reflexivity |]].
  exact (proj1 (proj1 (@handleSelectAllEvent_toggles ["a"; "b"; "c"]
                         ["b"; "z"]) H)).
Defined.

Lemma handleToggleSelect_flips_witness :
  JS.includes ["a"; "b"] "c" = false
  /\ NoDup ["a"; "b"]
  /\ handleToggleSelect "c" (handleToggleSelect "c" ["a"; "b"]) = ["a"; "b"]
  /\ NoDup (handleToggleSelect "c" ["a"; "b"]).
Proof.
  assert (Hn : NoDup ["a"; "b"]).
  { repeat constructor; simpl; intuition discriminate. }
  destruct (@handleToggleSelect_flips "c" ["a"; "b"])
    as (_ & _ & Hnd & Hback & _).
  split; [reflexivity | split; [exact Hn | split]].
  - exact (Hback eq_refl).
  - exact (Hnd Hn).
Defined.

(* ================================================================= *)
(** ** The action bar *)

Lemma allSelected_iff ids (visible : list string) :
  NoDup ids -> NoDup visible -> incl ids visible ->
  (allSelected ids (List.length visible) = true
   <-> visible <> [] /\ forall v, In v visible -> In v ids).
Proof.
  intros Hnd Hvis Hincl. unfold allSelected.
  rewrite andb_true_iff, Nat.eqb_eq, Nat.ltb_lt. split.
  - intros [He Ht]. split.
    + intros ->. simpl in Ht. lia.
    + apply (NoDup_length_incl Hnd); [lia | exact Hincl].
  - intros [Hne Hall].
    pose proof (NoDup_incl_length Hnd Hincl) as Hle.
    pose proof (NoDup_incl_length Hvis Hall) as Hge.
    split; [lia |].
    destruct visible; [now contradiction Hne |]. simpl. lia.
Qed.

(** X8. The three selection states of the action bar exclude one another,
    and one of them holds exactly when the selection is not larger than the
    list shown. When the selection has no repetition and lies within the
    identifiers shown, themselves without repetition, the bar's test by
    count, [allSelected], agrees with the page's test by membership: every
    visible identifier is selected. *)
Theorem selection_states ids (visible : list string) :
  let total := List.length visible in
  allSelected ids total && someSelected ids total = false
  /\ allSelected ids total && noneSelected ids = false
  /\ someSelected ids total && noneSelected ids = false
  /\ (allSelected ids total || someSelected ids total || noneSelected ids
      = (List.length ids <=? total)%nat)
  /\ (NoDup ids -> NoDup visible -> incl ids visible ->
      (allSelected ids total = true
       <-> visible <> [] /\ forall v, In v visible -> In v ids)).
Proof.
  intros total.
  assert (Hstates :
            allSelected ids total && someSelected ids total = false
            /\ allSelected ids total && noneSelected ids = false
            /\ someSelected ids total && noneSelected ids = false
            /\ (allSelected ids total || someSelected ids total
                  || noneSelected ids
                = (List.length ids <=? total)%nat)).
  { unfold allSelected, someSelected, noneSelected.
    destruct (Nat.eqb_spec (List.length ids) total);
      destruct (Nat.ltb_spec 0 total);
      destruct (Nat.ltb_spec 0 (List.length ids));
      destruct (Nat.ltb_spec (List.length ids) total);
      destruct (Nat.eqb_spec (List.length ids) 0);
      destruct (Nat.leb_spec (List.length ids) total);
      simpl; repeat split; reflexivity || lia. }
  destruct Hstates as (H1 & H2 & H3 & H4).
  split; [exact H1 | split; [exact H2 | split; [exact H3 |]]].
  split; [exact H4 |].
  intros Hnd Hvis Hincl. now apply allSelected_iff.
Qed.

Lemma selection_states_witness :
  NoDup ["b"; "a"]
  /\ NoDup ["a"; "b"]
  /\ incl ["b"; "a"] ["a"; "b"]
  /\ (allSelected ["b"; "a"] 2 = true
      <-> ["a"; "b"] <> [] /\ forall v, In v ["a"; "b"] -> In v ["b"; "a"]).
Proof.
  assert (H1 : NoDup ["b"; "a"]).
  { repeat constructor; simpl; intuition discriminate. }
  assert (H2 : NoDup ["a"; "b"]).
  { repeat constructor; simpl; intuition discriminate. }
  assert (H3 : incl ["b"; "a"] ["a"; "b"]).
  { intros x Hx. simpl in *. tauto. }
  split; [exact H1 | split; [exact H2 | split; [exact H3 |]]].
  destruct (@selection_states ["b"; "a"] ["a"; "b"]) as (_ & _ & _ & _ & H).
  exact (H H1 H2 H3).
Defined.

(** X9. [handleSelectAll] of the action bar, the selection lying within the
    identifiers shown and neither having a repetition: when every visible
    identifier is selected the selection is cleared, otherwise it becomes
    the old selection followed by the visible identifiers it lacked, so
    that afterwards every visible identifier is selected. *)
Theorem handleSelectAll_toggles visible u :
  NoDup (selectedIds u) ->
  NoDup visible ->
  incl (selectedIds u) visible ->
  let u' := handleSelectAll visible u in
  ((visible <> [] /\ forall v, In v visible -> In v (selectedIds u)) ->
   selectedIds u' = [])
  /\ (~ (forall v, In v visible -> In v (selectedIds u)) ->
      (forall v, In v visible -> In v (selectedIds u'))
      /\ (forall x, In x (selectedIds u) -> In x (selectedIds u'))
      /\ incl (selectedIds u') visible
      /\ NoDup (selectedIds u')
      /\ allSelected (selectedIds u') (List.length visible) = true)
  /\ toasts u' = toasts u
  /\ confirms u' = confirms u.
Proof.
  intros Hnd Hvis Hincl u'.
  pose proof (@allSelected_iff (selectedIds u) visible Hnd Hvis Hincl) as Hiff.
  unfold u', handleSelectAll.
  destruct (allSelected (selectedIds u) (List.length visible)) eqn:E.
  - split; [intros _; reflexivity |].
    split; [| split; reflexivity].
    intros Hnot. exfalso. apply Hnot. now apply Hiff.
  - split.
    + intros H. apply Hiff in H. discriminate.
    + split; [| split; reflexivity]. intros Hnot. simpl.
      assert (F : forallb (fun id => JS.includes (selectedIds u) id) visible
                  = false).
      { destruct (forallb (fun id => JS.includes (selectedIds u) id) visible)
          eqn:F; [| reflexivity].
        exfalso. apply Hnot.
        now apply (proj1 (all_visible_selected visible (selectedIds u))). }
      unfold handleSelectAllEvent. rewrite F.
      set (next := fold_left _ visible (selectedIds u)).
      assert (Hin : forall x, In x next <-> In x (selectedIds u) \/ In x visible)
        by (intros x; apply select_visible_In).
      assert (Hv : forall v, In v visible -> In v next).
      { intros v Hv. apply Hin. now right. }
      assert (Hi : incl next visible).
      { intros x Hx. apply Hin in Hx as [Hx | Hx];
          [now apply Hincl | exact Hx]. }
      assert (Hn : NoDup next) by now apply select_visible_NoDup.
      split; [exact Hv |].
      split; [intros x Hx; apply Hin; now left |].
      split; [exact Hi | split; [exact Hn |]].
      apply (@allSelected_iff next visible Hn Hvis Hi).
      split; [| exact Hv].
      intros ->. apply Hnot. intros v [].
Qed.

Lemma handleSelectAll_toggles_witness :
  let u := mkUI ["b"] [] [] in
  NoDup (selectedIds u)
  /\ NoDup ["a"; "b"; "c"]
  /\ incl (selectedIds u) ["a"; "b"; "c"]
  /\ selectedIds (handleSelectAll ["a"; "b"; "c"] u) = ["b"; "a"; "c"]
  /\ selectedIds (handleSelectAll ["a"; "b"; "c"]
                    (handleSelectAll ["a"; "b"; "c"] u)) = []
  /\ forall v, In v ["a"; "b"; "c"] ->
       In v (selectedIds (handleSelectAll ["a"; "b"; "c"] u)).
Proof.
  intros u.
  assert (H1 : NoDup (selectedIds u)).
  { repeat constructor; simpl; intuition discriminate. }
  assert (H2 : NoDup ["a"; "b"; "c"]).
  { repeat constructor; simpl; intuition discriminate. }
  assert (H3 : incl (selectedIds u) ["a"; "b"; "c"]).
  { intros x Hx. simpl in *. tauto. }
  split; [exact H1 | split; [exact H2 | split; [exact H3 |]]].
  split; [reflexivity | split; [reflexivity |]].
  destruct (@handleSelectAll_toggles ["a"; "b"; "c"] u H1 H2 H3)
    as (_ & Hsome & _).
  apply Hsome. intros H.
  specialize (H "a" (or_introl eq_refl)). simpl in H.
  intuition discriminate.
Defined.

(* ================================================================= *)
(** * The sidebar *)

Lemma mapE_map_to {A C : Type} (f : A -> Eff A) (g h : A -> C) l s :
  (forall a s', g (fst (f a s')) = h a) ->
  map g (fst (mapE f l s)) = map h l.
Proof.
  intros H. revert s. induction l as [|a l IH]; intros s.
  - reflexivity.
  - rewrite mapE_cons. simpl. now rewrite H, IH.
Qed.

Lemma count_partition {A : Type} (p : A -> bool) l :
  List.length (filter p l) + List.length (filter (fun a => negb (p a)) l)
  = List.length l.
Proof.
  induction l as [|a l IH]; simpl; [reflexivity |].
  destruct (p a); simpl; lia.
Qed.

Lemma count_le {A : Type} (p q : A -> bool) l :
  (forall a, p a = true -> q a = true) ->
  List.length (filter p l) <= List.length (filter q l).
Proof.
  intros H. induction l as [|a l IH]; simpl; [lia |].
  destruct (p a) eqn:E.
  - rewrite (H a E). simpl. lia.
  - destruct (q a); simpl; lia.
Qed.

Section SidebarCounts.

Variable env : Env.

Lemma deleteLink_active id w :
  map is_active (links (store (deleteLink env id w)))
  = map (fun l => is_active l && negb (Link.id l =? id)) (links (store w)).
Proof.
  unfold deleteLink. rewrite links_commit_links.
  apply mapE_map_to. intros a s'.
  destruct (Link.id a =? id); simpl;
    [now rewrite andb_false_r | now rewrite andb_true_r].
Qed.

Lemma restoreLink_active id w :
  map is_active (links (store (restoreLink env id w)))
  = map (fun l => is_active l || (Link.id l =? id)) (links (store w)).
Proof.
  unfold restoreLink. rewrite links_commit_links.
  apply mapE_map_to. intros a s'.
  destruct (Link.id a =? id); simpl;
    [now rewrite orb_true_r | now rewrite orb_false_r].
Qed.

(** X10. The counts of the sidebar. "All Links" and "Trash" split the
    collection: their counts add up to its length, and "Favorites" counts no
    more than "All Links". [deleteLink(id)] moves the active links that carry
    [id] from "All Links" to "Trash", [restoreLink(id)] moves the links in
    the trash that carry [id] back, and neither changes the total. *)
Theorem sidebar_counts id w :
  let ls := links (store w) in
  let deleted := links (store (deleteLink env id w)) in
  let restored := links (store (restoreLink env id w)) in
  let n := List.length
             (filter (fun l => is_active l && (Link.id l =? id)) ls) in
  let m := List.length
             (filter (fun l => negb (is_active l) && (Link.id l =? id)) ls) in
  allLinksCount ls + trashCount ls = List.length ls
  /\ favoritesCount ls <= allLinksCount ls
  /\ allLinksCount deleted + n = allLinksCount ls
  /\ trashCount deleted = trashCount ls + n
  /\ allLinksCount restored = allLinksCount ls + m
  /\ trashCount restored + m = trashCount ls.
Proof.
  intros ls deleted restored n m.
  assert (Hpart : forall l, allLinksCount l + trashCount l = List.length l).
  { intros l. apply count_partition. }
  assert (Hd : allLinksCount deleted + n = allLinksCount ls).
  { assert (E1 : allLinksCount deleted
                 = List.length
                     (filter (fun l => is_active l
                                       && negb (Link.id l =? id)) ls)).
    { exact (count_through_map is_active
               (fun l => is_active l && negb (Link.id l =? id))
               (fun b => b) deleted ls (deleteLink_active id w)). }
    rewrite E1. unfold allLinksCount, n. rewrite Nat.add_comm.
    rewrite <- (@count_split _
                  (fun l => is_active l && (Link.id l =? id))
                  (fun l => is_active l && negb (Link.id l =? id)) ls).
    - apply filter_ext_length. intros a.
      destruct (is_active a), (Link.id a =? id); reflexivity.
    - intros a _ H. apply andb_true_iff in H as [_ H]. rewrite H.
      apply andb_false_r. }
  assert (Hr : allLinksCount restored = allLinksCount ls + m).
  { assert (E1 : allLinksCount restored
                 = List.length
                     (filter (fun l => is_active l || (Link.id l =? id)) ls)).
    { exact (count_through_map is_active
               (fun l => is_active l || (Link.id l =? id))
               (fun b => b) restored ls (restoreLink_active id w)). }
    rewrite E1. unfold allLinksCount, m.
    rewrite <- (@count_split _ is_active
                  (fun l => negb (is_active l) && (Link.id l =? id)) ls).
    - apply filter_ext_length. intros a.
      destruct (is_active a), (Link.id a =? id); reflexivity.
    - intros a _ H. now rewrite H. }
  assert (Hlen_d : List.length deleted = List.length ls)
    by apply deleteLink_length.
  assert (Hlen_r : List.length restored = List.length ls)
    by apply restoreLink_length.
  pose proof (Hpart ls). pose proof (Hpart deleted). pose proof (Hpart restored).
  split; [apply Hpart |].
  split.
  { unfold favoritesCount, allLinksCount. apply count_le.
    intros a H'. now apply andb_true_iff in H' as [_ H']. }
  repeat split; lia.
Qed.

End SidebarCounts.

(** X11. The folders the sidebar shows are the roots and, under an expanded
    root, the folders that name it as their parent. A folder whose parent is
    not in the collection, as after the deletion of its parent, is in the
    collection and is not shown; nor is the sub-folder of a sub-folder. *)
Theorem sidebar_shows fs expanded f :
  (In f (sidebar_folders fs expanded)
   <-> In f fs
       /\ (Folder.parentId f = None
           \/ exists r,
                In r fs /\ Folder.parentId r = None
                /\ Folder.parentId f = Some (Folder.id r)
                /\ In (Folder.id r) expanded))
  /\ (forall p,
        Folder.parentId f = Some p ->
        (forall r, In r fs -> Folder.id r = p -> Folder.parentId r <> None) ->
        ~ In f (sidebar_folders fs expanded)).
Proof.
  assert (Hopt : forall a b, JS.opt_eqb a b = true <-> a = b).
  { intros [a|] [b|]; simpl; split; intros H; try discriminate; try reflexivity.
    - apply String.eqb_eq in H. now subst.
    - injection H as ->. apply String.eqb_refl. }
  assert (Hiff : In f (sidebar_folders fs expanded)
                 <-> In f fs
                     /\ (Folder.parentId f = None
                         \/ exists r,
                              In r fs /\ Folder.parentId r = None
                              /\ Folder.parentId f = Some (Folder.id r)
                              /\ In (Folder.id r) expanded)).
  { unfold sidebar_folders. rewrite in_flat_map. split.
    - intros (r & Hr & Hin). apply filter_In in Hr as [Hr Hroot].
      apply Hopt in Hroot. destruct Hin as [<- | Hin].
      + split; [exact Hr | now left].
      + destruct ((0 <? _)%nat && StringSet.has expanded (Folder.id r))
          eqn:E; [| contradiction].
        apply andb_true_iff in E as [_ E]. apply includes_In in E.
        apply filter_In in Hin as [Hin Hpar]. apply Hopt in Hpar.
        split; [exact Hin |]. right. exists r. repeat split; assumption.
    - intros [Hf [Hroot | (r & Hr & Hrroot & Hpar & Hexp)]].
      + exists f. split; [| now left].
        apply filter_In. split; [exact Hf | now apply Hopt].
      + exists r. split.
        * apply filter_In. split; [exact Hr | now apply Hopt].
        * right.
          assert (Hin : In f (filter (fun g => JS.opt_eqb (Folder.parentId g)
                                                 (Some (Folder.id r))) fs)).
          { apply filter_In. split; [exact Hf | now apply Hopt]. }
          assert (Hpos : (0 <? List.length
                                 (filter (fun g => JS.opt_eqb
                                                     (Folder.parentId g)
                                                     (Some (Folder.id r))) fs))%nat
                         = true).
          { apply Nat.ltb_lt.
            destruct (filter _ fs); [contradiction | simpl; lia]. }
          rewrite Hpos. unfold StringSet.has.
          rewrite (proj2 (includes_In expanded (Folder.id r)) Hexp).
          exact Hin. }
  split; [exact Hiff |].
  intros p Hp Hnone Hin. apply Hiff in Hin as [_ [Hroot | (r & Hr & Hrr & Hpar & _)]].
  - congruence.
  - apply (Hnone r Hr); congruence.
Qed.

Lemma sidebar_shows_witness :
  let root := Folder.mk "r" "Root" None "#000000" "Folder" None false None
                "2025-01-01T00:00:00.000Z" "2025-01-01T00:00:00.000Z" in
  let sub := Folder.mk "s" "Sub" None "#000000" "Folder" (Some "r") false None
               "2025-01-01T00:00:00.000Z" "2025-01-01T00:00:00.000Z" in
  let w := Demo.world [] [root; sub] in
  Folder.parentId sub = Some "r"
  /\ In sub (sidebar_folders (folders (store w)) ["r"])
  /\ In sub (folders (store (deleteFolder "r" w)))
  /\ ~ In sub (sidebar_folders (folders (store (deleteFolder "r" w))) ["r"]).
Proof.
  intros root sub w.
  split; [reflexivity |]. split; [simpl; tauto |].
  split; [simpl; tauto |].
  apply (proj2 (@sidebar_shows (folders (store (deleteFolder "r" w))) ["r"]
                  sub) "r" eq_refl).
  intros r [<- | []]. discriminate.
Defined.

(* ================================================================= *)
(** * Lazy loading of the grid *)

Lemma firstn_add {A : Type} (a b : nat) (l : list A) :
  firstn (a + b) l = firstn a l ++ firstn b (skipn a l).
Proof.
  revert l. induction a as [|a IH]; intros l.
  - reflexivity.
  - destruct l as [|x l]; simpl.
    + now rewrite firstn_nil.
    + now rewrite IH.
Qed.

Lemma load_more_prefix (ls : list Link.t) k :
  load_more ls (firstn k ls) = firstn (k + LOAD_MORE) ls.
Proof.
  unfold load_more, slice.
  replace (List.length (firstn k ls) + LOAD_MORE - List.length (firstn k ls))
    with LOAD_MORE by lia.
  rewrite length_firstn.
  destruct (Nat.le_ge_cases k (List.length ls)) as [Hle | Hge].
  - rewrite Nat.min_l by exact Hle. symmetry. apply firstn_add.
  - rewrite Nat.min_r by exact Hge.
    rewrite skipn_all. rewrite firstn_nil, List.app_nil_r.
    rewrite !firstn_all2 by lia. reflexivity.
Qed.

Lemma firstn_all_eq {A : Type} k (l : list A) :
  List.length l <= List.length (firstn k l) -> firstn k l = l.
Proof.
  intros H. rewrite length_firstn in H. apply firstn_all2. lia.
Qed.

(** What the grid is after its first render and [n] loads: the display is a
    prefix of the links, and the observer, there as long as some link is not
    displayed, is the one of the first render. *)
Lemma mounted_grid (ls : list Link.t) n :
  Nat.iter n intersect (mount ls)
  = let d := firstn (INITIAL_LOAD + n * LOAD_MORE) ls in
    mkGrid ls d
      (if (List.length ls <=? List.length d)%nat then None else Some ls).
Proof.
  induction n as [|n IH].
  - change (Nat.iter 0 intersect (mount ls)) with (mount ls).
    unfold mount, render_links, unmounted, observer_effect,
      initial_display, slice.
    cbn [g_links displayedLinks observerRef skipn List.length].
    rewrite Nat.sub_0_r, Nat.mul_0_l, Nat.add_0_r. cbv zeta.
    destruct (List.length ls <=? 0)%nat eqn:E0;
      cbn [g_links displayedLinks observerRef];
      destruct (List.length ls <=? List.length (firstn INITIAL_LOAD ls))%nat;
      reflexivity.
  - rewrite Nat.iter_succ, IH. cbv zeta. unfold intersect.
    cbn [g_links displayedLinks observerRef].
    replace (INITIAL_LOAD + S n * LOAD_MORE)
      with (INITIAL_LOAD + n * LOAD_MORE + LOAD_MORE) by lia.
    set (k := INITIAL_LOAD + n * LOAD_MORE).
    destruct (List.length ls <=? List.length (firstn k ls))%nat eqn:E.
    + apply Nat.leb_le in E. pose proof (firstn_all_eq k ls E) as Hk.
      assert (Hk' : firstn (k + LOAD_MORE) ls = ls).
      { apply firstn_all2. rewrite length_firstn in E. lia. }
      rewrite Hk, Hk', Nat.leb_refl. reflexivity.
    + rewrite load_more_prefix. unfold observer_effect.
      cbn [g_links displayedLinks observerRef].
      destruct (List.length ls <=? List.length (firstn (k + LOAD_MORE) ls))%nat;
        reflexivity.
Qed.

Lemma displayed_observer_effect g :
  displayedLinks (observer_effect g) = displayedLinks g.
Proof.
  unfold observer_effect.
  destruct (List.length (g_links g) <=? List.length (displayedLinks g))%nat;
    [reflexivity |].
  destruct (observerRef g); reflexivity.
Qed.

(** A render with a new array: the display is reset, and the observer that
    is left is the one there was, unless it has been dropped on the way or
    there was none. *)
Lemma render_links_eq (ls' : list Link.t) g :
  render_links ls' g
  = let o1 := if (List.length ls' <=? List.length (displayedLinks g))%nat
              then None
              else Some (match observerRef g with
                         | Some captured => captured
                         | None => ls'
                         end) in
    mkGrid ls' (firstn INITIAL_LOAD ls')
      (if (List.length ls'
           <=? List.length (firstn INITIAL_LOAD ls'))%nat
       then None
       else Some (match o1 with
                  | Some captured => captured
                  | None => ls'
                  end)).
Proof.
  unfold render_links, observer_effect, initial_display, slice.
  cbn [g_links displayedLinks observerRef skipn]. rewrite Nat.sub_0_r.
  cbv zeta.
  destruct (List.length ls' <=? List.length (displayedLinks g))%nat;
    cbn [g_links displayedLinks observerRef];
    destruct (List.length ls'
              <=? List.length (firstn INITIAL_LOAD ls'))%nat;
    try reflexivity;
    destruct (observerRef g); reflexivity.
Qed.

(** X12. The lazy loading of the grid. As long as the grid is rendered with
    the array of links it was first rendered with, it shows a prefix of the
    links: after [n] loads the first [12 + 12 * n] of them, in order,
    without repetition or gap; the observer is dropped exactly when every
    link is shown, and loading more changes nothing then. A render with
    another array resets the display to its first 12 links. The observer is
    not renewed by that render when both arrays are longer than what was
    displayed and the new one has more than 12 links: the next load then
    appends links 12 to 24 of the old array. In the other cases the
    observer, if any, is one of the new array and the next load shows its
    first 24 links. *)
Theorem lazy_loading_shows_prefix (ls ls' : list Link.t) n :
  let g := Nat.iter n intersect (mount ls) in
  let g' := render_links ls' g in
  displayedLinks g = firstn (INITIAL_LOAD + n * LOAD_MORE) ls
  /\ List.length (displayedLinks g)
     = Nat.min (INITIAL_LOAD + n * LOAD_MORE) (List.length ls)
  /\ (observerRef g = None <-> displayedLinks g = ls)
  /\ (observerRef g <> None -> observerRef g = Some ls)
  /\ (List.length ls <= INITIAL_LOAD + n * LOAD_MORE ->
      displayedLinks g = ls /\ intersect g = g)
  /\ g_links g' = ls'
  /\ displayedLinks g' = firstn INITIAL_LOAD ls'
  /\ (List.length (displayedLinks g) < List.length ls ->
      List.length (displayedLinks g) < List.length ls' ->
      INITIAL_LOAD < List.length ls' ->
      observerRef g' = Some ls
      /\ displayedLinks (intersect g')
         = firstn INITIAL_LOAD ls'
             ++ slice ls INITIAL_LOAD (INITIAL_LOAD + LOAD_MORE))
  /\ (List.length ls <= List.length (displayedLinks g)
      \/ List.length ls' <= List.length (displayedLinks g)
      \/ List.length ls' <= INITIAL_LOAD ->
      (observerRef g' = None \/ observerRef g' = Some ls')
      /\ displayedLinks (intersect g')
         = firstn (INITIAL_LOAD + LOAD_MORE) ls').
Proof.
  intros g g'.
  assert (Hg : g = mkGrid ls (firstn (INITIAL_LOAD + n * LOAD_MORE) ls)
                     (if (List.length ls
                          <=? List.length
                                (firstn (INITIAL_LOAD + n * LOAD_MORE) ls))%nat
                      then None else Some ls))
    by apply mounted_grid.
  unfold g'. rewrite render_links_eq. rewrite Hg. cbv zeta.
  set (k := INITIAL_LOAD + n * LOAD_MORE).
  set (d := firstn k ls).
  cbn [g_links displayedLinks observerRef].
  assert (Hlen : List.length d = Nat.min k (List.length ls))
    by apply length_firstn.
  assert (H12 : List.length (firstn INITIAL_LOAD ls')
                = Nat.min INITIAL_LOAD (List.length ls'))
    by apply length_firstn.
  split; [reflexivity | split; [exact Hlen |]].
  split.
  { destruct (List.length ls <=? List.length d)%nat eqn:E.
    - apply Nat.leb_le in E. split; [intros _ | reflexivity].
      now apply firstn_all_eq.
    - apply Nat.leb_gt in E. split; [discriminate |].
      intros Hd. rewrite Hd in E. lia. }
  split.
  { destruct (List.length ls <=? List.length d)%nat;
      [intros H; now contradiction H | reflexivity]. }
  split.
  { intros Hle.
    assert (Hd : d = ls) by (apply firstn_all2; exact Hle).
    split; [exact Hd |]. rewrite Hd, Nat.leb_refl. reflexivity. }
  split; [reflexivity | split; [reflexivity |]].
  split.
  - intros H1 H2 H3.
    assert (E1 : (List.length ls <=? List.length d)%nat = false)
      by (apply Nat.leb_gt; exact H1).
    assert (E2 : (List.length ls' <=? List.length d)%nat = false)
      by (apply Nat.leb_gt; exact H2).
    assert (E3 : (List.length ls'
                  <=? List.length (firstn INITIAL_LOAD ls'))%nat = false)
      by (apply Nat.leb_gt; lia).
    rewrite E1, E2, E3. split; [reflexivity |].
    unfold intersect. cbn [g_links displayedLinks observerRef].
    rewrite displayed_observer_effect. cbn [displayedLinks].
    unfold load_more. rewrite H12, Nat.min_l by lia. reflexivity.
  - intros H.
    destruct (List.length ls' <=? List.length (firstn INITIAL_LOAD ls'))%nat
      eqn:E3.
    + apply Nat.leb_le in E3.
      split; [now left |].
      unfold intersect. cbn [g_links displayedLinks observerRef].
      rewrite (firstn_all_eq _ _ E3). symmetry. apply firstn_all2.
      rewrite H12 in E3. lia.
    + apply Nat.leb_gt in E3.
      assert (Hc : match
                     (if (List.length ls' <=? List.length d)%nat
                      then None
                      else Some
                             match
                               (if (List.length ls <=? List.length d)%nat
                                then None else Some ls)
                             with
                             | Some captured => captured
                             | None => ls'
                             end)
                   with
                   | Some captured => captured
                   | None => ls'
                   end = ls').
      { destruct (List.length ls' <=? List.length d)%nat eqn:E2;
          [reflexivity |].
        destruct (List.length ls <=? List.length d)%nat eqn:E1;
          [reflexivity |].
        apply Nat.leb_gt in E1, E2. exfalso. lia. }
      rewrite Hc. split; [now right |].
      unfold intersect. cbn [g_links displayedLinks observerRef].
      rewrite displayed_observer_effect. cbn [displayedLinks].
      apply (load_more_prefix ls' INITIAL_LOAD).
Qed.

Lemma lazy_loading_shows_prefix_witness :
  let ls := map (fun i => Demo.a_link (JS.string_of_nat i) None false)
              (seq 0 30) in
  let ls' := map (fun i => Demo.a_link (JS.string_of_nat i) None true)
               (seq 0 30) in
  let g := Nat.iter 0 intersect (mount ls) in
  let g' := render_links ls' g in
  List.length (displayedLinks g) < List.length ls
  /\ List.length (displayedLinks g) < List.length ls'
  /\ INITIAL_LOAD < List.length ls'
  /\ observerRef g' = Some ls
  /\ displayedLinks (intersect g')
     = firstn 12 ls' ++ firstn 12 (skipn 12 ls)
  /\ displayedLinks (intersect g') <> firstn 24 ls'.
Proof.
  intros ls ls' g g'.
  assert (H1 : List.length (displayedLinks g) < List.length ls)
    by (vm_compute; lia).
  assert (H2 : List.length (displayedLinks g) < List.length ls')
    by (vm_compute; lia).
  assert (H3 : INITIAL_LOAD < List.length ls') by (vm_compute; lia).
  split; [exact H1 | split; [exact H2 | split; [exact H3 |]]].
  destruct (lazy_loading_shows_prefix ls ls' 0)
    as (_ & _ & _ & _ & _ & _ & _ & Hstale & _).
  destruct (Hstale H1 H2 H3) as [Ho Hd].
  split; [exact Ho | split; [exact Hd |]].
  vm_compute. discriminate.
Defined.

(* ================================================================= *)
(** * The folder form and the folder actions *)

Lemma opt_eqb_eq a b : JS.opt_eqb a b = true <-> a = b.
Proof.
  destruct a as [a|], b as [b|]; simpl; split; intros H;
    try discriminate; try reflexivity.
  - apply String.eqb_eq in H. now subst.
  - injection H as ->. apply String.eqb_refl.
Qed.

Lemma getSubFolderCount_shapes p fs fs' :
  map shape fs' = map shape fs ->
  getSubFolderCount p fs' = getSubFolderCount p fs.
Proof.
  intros H. unfold getSubFolderCount.
  exact (count_through_map shape shape
           (fun sh => JS.opt_eqb (snd sh) (Some p)) fs' fs H).
Qed.

Lemma getSubFolderCount_app p fs f :
  getSubFolderCount p (fs ++ [f])
  = getSubFolderCount p fs
    + (if JS.opt_eqb (Folder.parentId f) (Some p) then 1 else 0).
Proof.
  unfold getSubFolderCount. rewrite filter_app, length_app. simpl.
  destruct (JS.opt_eqb (Folder.parentId f) (Some p)); reflexivity.
Qed.

Lemma getSubFolderCount_filter p (q : Folder.t -> bool) fs :
  getSubFolderCount p (filter q fs) <= getSubFolderCount p fs.
Proof.
  unfold getSubFolderCount. induction fs as [|f fs IH]; simpl; [lia |].
  destruct (q f); simpl;
    destruct (JS.opt_eqb (Folder.parentId f) (Some p)); simpl; lia.
Qed.

Section FolderFormFacts.

Variable env : Env.
Variable FOLDER_ICONS : list FolderIcon.

(** The ways the submission of the folder form ends, with what the form has
    checked when it creates a sub-folder. *)
Lemma onSubmit_outcomes data w :
  onSubmit env FOLDER_ICONS data w = w
  \/ (exists ef,
        editingFolder w = Some ef
        /\ onSubmit env FOLDER_ICONS data w
           = handleClose
               (updateFolder env (Folder.id ef)
                  (Folder.mkPartial None (Some (fd_name data)) None
                     (Some (icon_color FOLDER_ICONS (fd_iconName data)))
                     (Some (fd_iconName data)) None None None None None) w))
  \/ (editingFolder w = None
      /\ onSubmit env FOLDER_ICONS data w
         = handleClose
             (addFolder env
                (Folder.mkData (fd_name data) (Some "")
                   (icon_color FOLDER_ICONS (fd_iconName data))
                   (fd_iconName data) (parentFolderId (store w)) false None)
                w)
      /\ forall p,
           parentFolderId (store w) = Some p -> p <> "" ->
           canAddSubFolder p (folders (store w)) = true
           /\ exists parent,
                JS.find (fun f => Folder.id f =? p) (folders (store w))
                = Some parent
                /\ Folder.parentId parent = None).
Proof.
  unfold onSubmit.
  destruct (editingFolder w) as [ef|] eqn:Ee.
  - right; left. exists ef. split; [reflexivity |].
    destruct (parentFolderId (store w)); reflexivity.
  - destruct (parentFolderId (store w)) as [p|] eqn:Ep.
    + simpl. destruct (p =? "") eqn:Epe; simpl.
      * right; right. split; [reflexivity | split; [reflexivity |]].
        intros p' [= <-] Hp. apply String.eqb_neq in Hp. congruence.
      * destruct (JS.find (fun f => Folder.id f =? p) (folders (store w)))
          as [parent|] eqn:Ef; [| now left].
        destruct (Folder.parentId parent) eqn:Epp; [now left |].
        destruct (canAddSubFolder p (folders (store w))) eqn:Ec; simpl;
          [| now left].
        right; right. split; [reflexivity | split; [reflexivity |]].
        intros p' [= <-] _. split; [exact Ec |].
        exists parent. split; [exact Ef | exact Epp].
    + right; right. split; [reflexivity | split; [reflexivity |]].
      intros p [=].
Qed.

Lemma fan_out_step a w :
  keeps_hierarchy a ->
  fan_out_bounded (folders (store w)) ->
  fan_out_bounded (folders (store (step env FOLDER_ICONS a w))).
Proof.
  intros Ha H. destruct a; cbn [step keeps_hierarchy] in *.
  - exact H.
  - exact H.
  - destruct (onSubmit_outcomes data w)
      as [-> | [(ef & _ & ->) | (_ & -> & Hchk)]].
    + exact H.
    + rewrite handleClose_folders. intros p Hp.
      rewrite (@getSubFolderCount_shapes p _ _
                 (@updateFolder_shapes env (Folder.id ef)
                    (Folder.mkPartial None (Some (fd_name data)) None
                       (Some (icon_color FOLDER_ICONS (fd_iconName data)))
                       (Some (fd_iconName data)) None None None None None)
                    w eq_refl eq_refl)).
      now apply H.
    + rewrite handleClose_folders. intros p Hp.
      unfold addFolder. simpl. rewrite getSubFolderCount_app. simpl.
      destruct (JS.opt_eqb (parentFolderId (store w)) (Some p)) eqn:E.
      * apply opt_eqb_eq in E. destruct (Hchk p E Hp) as [Hc _].
        unfold canAddSubFolder in Hc. apply Nat.ltb_lt in Hc. lia.
      * specialize (H p Hp). lia.
  - destruct Ha as [Hid Hpar]. intros p Hp.
    rewrite (@getSubFolderCount_shapes p _ _
               (@updateFolder_shapes env id updates w Hid Hpar)).
    now apply H.
  - intros p Hp. unfold deleteFolder. rewrite folders_commit_folders. simpl.
    pose proof (getSubFolderCount_filter p
                  (fun folder => negb (Folder.id folder =? id))
                  (folders (store w))).
    specialize (H p Hp). lia.
Qed.

End FolderFormFacts.

(** X13. The fan-out limit holds in every reachable folder collection:
    starting from the first hydration of an empty storage, through the folder
    form, [updateFolder] with updates that leave [id] and [parentId] alone,
    and [deleteFolder], no folder has more than
    [MAX_SUB_FOLDERS_PER_FOLDER] sub-folders ([canAddSubFolder] being the
    comparison of the count with that maximum). *)
Theorem fan_out_limit_kept env PF ICONS w :
  reachable env PF ICONS keeps_hierarchy w ->
  fan_out_bounded (folders (store w)).
Proof.
  induction 1 as [w0 H0 H1 | a w Hr IH Ha].
  - intros p Hp. unfold loadFromStorage. unfold stored_folders in H1.
    rewrite H1. simpl.
    destruct (mapiE (platform_folder env) 0 PF (sys w0)) as [fs s] eqn:Em.
    simpl.
    assert (Hall : Forall (fun f => Folder.parentId f = None) fs).
    { replace fs with (fst (mapiE (platform_folder env) 0 PF (sys w0)))
        by now rewrite Em.
      apply mapiE_Forall. reflexivity. }
    unfold getSubFolderCount. rewrite filter_none; [simpl; lia |].
    rewrite Forall_forall in Hall. intros f Hf. now rewrite (Hall f Hf).
  - now apply fan_out_step.
Qed.

Lemma fan_out_limit_kept_witness :
  let w := run Demo.env Demo.icons DemoRun.create_sub DemoRun.hydrated in
  reachable Demo.env Demo.table Demo.icons keeps_hierarchy w
  /\ getSubFolderCount DemoRun.youtube_folder (folders (store w)) = 1
  /\ fan_out_bounded (folders (store w)).
Proof.
  intros w.
  assert (Hr : reachable Demo.env Demo.table Demo.icons keeps_hierarchy w).
  { apply reachable_run; [apply DemoRun_hydrated_reachable |].
    repeat constructor. }
  split; [exact Hr | split; [reflexivity |]].
  exact (@fan_out_limit_kept Demo.env Demo.table Demo.icons w Hr).
Defined.

Section SubFolderFlow.

Variable env : Env.
Variable FOLDER_ICONS : list FolderIcon.

(** X14. "Add sub-folder" from the sidebar, then the submission of the
    form, the form not being in edit mode. At the limit of sub-folders the
    form is not even opened: a toast is shown and the store is left as it
    is. Below the limit the form opens for the parent; on submission, when
    the parent is a root of the collection, one folder is appended, filed
    under the parent, not a platform folder, with the next identifier of the
    generator, and the form is closed and reset; when the parent is missing
    or is itself a sub-folder, the submission is rejected and nothing
    changes (the depth rule is checked by the form, not by the sidebar
    action). *)
Theorem add_sub_folder_flow p data w u :
  editingFolderId (store w) = None ->
  p <> "" ->
  let fs := folders (store w) in
  let w1 := fst (handleAddSubFolder p (w, u)) in
  let u1 := snd (handleAddSubFolder p (w, u)) in
  let w2 := onSubmit env FOLDER_ICONS data w1 in
  (canAddSubFolder p fs = false ->
   w1 = w /\ List.length (toasts u1) = S (List.length (toasts u)))
  /\ (canAddSubFolder p fs = true ->
      parentFolderId (store w1) = Some p
      /\ isCreateFolderModalOpen (store w1) = true
      /\ folders (store w1) = fs
      /\ u1 = u
      /\ ((exists parent,
             JS.find (fun f => Folder.id f =? p) fs = Some parent
             /\ Folder.parentId parent = None) ->
          exists child,
            folders (store w2) = fs ++ [child]
            /\ Folder.parentId child = Some p
            /\ Folder.name child = fd_name data
            /\ Folder.icon child = fd_iconName data
            /\ Folder.isPlatformFolder child = false
            /\ Folder.id child = randomUUID env (issued (sys w))
            /\ getSubFolderCount p (folders (store w2))
               = S (getSubFolderCount p fs)
            /\ parentFolderId (store w2) = None
            /\ isCreateFolderModalOpen (store w2) = false
            /\ links (store w2) = links (store w))
      /\ ((JS.find (fun f => Folder.id f =? p) fs = None
           \/ exists parent q,
                JS.find (fun f => Folder.id f =? p) fs = Some parent
                /\ Folder.parentId parent = Some q) ->
          w2 = w1)).
Proof.
  intros He Hp fs w1 u1 w2.
  unfold w2, w1, u1, handleAddSubFolder. fold fs.
  destruct (canAddSubFolder p fs) eqn:Ec; simpl.
  - split; [discriminate |]. intros _.
    split; [reflexivity |]. split; [reflexivity |].
    split; [reflexivity |]. split; [reflexivity |].
    apply String.eqb_neq in Hp.
    split.
    + intros (parent & Hfind & Hroot).
      unfold onSubmit, editingFolder. simpl. rewrite He. simpl.
      rewrite Hp. simpl. fold fs. rewrite Hfind, Hroot, Ec. simpl.
      eexists. split; [reflexivity |].
      repeat split; try reflexivity.
      rewrite getSubFolderCount_app. simpl. rewrite String.eqb_refl.
      unfold fs. lia.
    + intros [Hnone | (parent & q & Hfind & Hsub)];
        unfold onSubmit, editingFolder; simpl; rewrite He; simpl;
        rewrite Hp; simpl; fold fs.
      * now rewrite Hnone.
      * now rewrite Hfind, Hsub.
  - split; [| discriminate]. intros _. split; [reflexivity |].
    rewrite length_app. simpl. lia.
Qed.

End SubFolderFlow.

Lemma add_sub_folder_flow_witness :
  let w := DemoRun.hydrated in
  let u := mkUI [] [] [] in
  let w1 := fst (handleAddSubFolder DemoRun.youtube_folder (w, u)) in
  editingFolderId (store w) = None
  /\ DemoRun.youtube_folder <> ""
  /\ canAddSubFolder DemoRun.youtube_folder (folders (store w)) = true
  /\ parentFolderId (store w1) = Some DemoRun.youtube_folder
  /\ List.length
       (folders (store (onSubmit Demo.env Demo.icons DemoRun.form w1))) = 11.
Proof.
  intros w u w1.
  assert (Hp : DemoRun.youtube_folder <> "") by discriminate.
  destruct (@add_sub_folder_flow Demo.env Demo.icons DemoRun.youtube_folder
              DemoRun.form w u eq_refl Hp) as (_ & Hopen).
  destruct (Hopen eq_refl) as (H1 & _ & _ & _ & Hcreate & _).
  split; [reflexivity | split; [exact Hp | split; [reflexivity |]]].
  split; [exact H1 |].
  destruct Hcreate as (child & Hfs & _).
  { eexists. split; reflexivity. }
  fold w1 in Hfs. rewrite Hfs, length_app. reflexivity.
Defined.

Section EditFolderFlow.

Variable env : Env.
Variable FOLDER_ICONS : list FolderIcon.

Lemma updateFolder_at id u w i f :
  folder_at w i f ->
  (Folder.id f <> id -> folder_at (updateFolder env id u w) i f)
  /\ (Folder.id f = id ->
      exists k,
        ticks (sys w) <= k
        /\ folder_at (updateFolder env id u w) i
             (Folder.set_updatedAt (stamp env k) (Folder.spread f u))).
Proof.
  intros H. unfold folder_at, updateFolder.
  rewrite folders_commit_folders.
  match goal with
  | |- context [mapE ?g ?l ?s] =>
      destruct (@mapE_nth_error _ _ g l s _ _ ltac:(clock_only_tac) H)
        as (s1 & Hlo & Hhi & Hiss & Hnth)
  end.
  split.
  - intros Hne. rewrite Hnth. apply String.eqb_neq in Hne.
    now rewrite Hne.
  - intros He. apply String.eqb_eq in He. rewrite He in Hnth.
    exists (ticks s1). split; [exact Hlo | exact Hnth].
Qed.

Lemma updateFolder_length id u w :
  List.length (folders (store (updateFolder env id u w)))
  = List.length (folders (store w)).
Proof.
  unfold updateFolder. rewrite folders_commit_folders. apply mapE_length.
Qed.

(** X15. "Edit" from the sidebar, then the submission of the form, for an
    identifier that a folder carries. No folder is added or removed. The
    folders that carry the identifier take the name and the icon of the
    form and the color of that icon, and a new [updatedAt]; their [id],
    [parentId], [description], [isPlatformFolder], [platform] and
    [createdAt] stay. The other folders and the links are not touched, and
    the form is closed and reset. The checks of the creation do not apply,
    whatever parent the form had been opened for. *)
Theorem edit_folder_flow id data w i f :
  folder_at w i f ->
  id <> "" ->
  (exists g, In g (folders (store w)) /\ Folder.id g = id) ->
  let w2 := onSubmit env FOLDER_ICONS data (handleEditFolder id w) in
  exists f',
    folder_at w2 i f'
    /\ Folder.id f' = Folder.id f
    /\ Folder.parentId f' = Folder.parentId f
    /\ Folder.description f' = Folder.description f
    /\ Folder.isPlatformFolder f' = Folder.isPlatformFolder f
    /\ Folder.platform f' = Folder.platform f
    /\ Folder.createdAt f' = Folder.createdAt f
    /\ (Folder.id f = id ->
        Folder.name f' = fd_name data
        /\ Folder.icon f' = fd_iconName data
        /\ Folder.color f' = icon_color FOLDER_ICONS (fd_iconName data)
        /\ exists k, ticks (sys w) <= k /\ Folder.updatedAt f' = stamp env k)
    /\ (Folder.id f <> id -> f' = f)
    /\ List.length (folders (store w2)) = List.length (folders (store w))
    /\ links (store w2) = links (store w)
    /\ editingFolderId (store w2) = None
    /\ parentFolderId (store w2) = None
    /\ isCreateFolderModalOpen (store w2) = false.
Proof.
  intros Hat Hid (g & Hg & Hgid) w2.
  assert (Hfind : exists ef,
             JS.find (fun x => Folder.id x =? id) (folders (store w)) = Some ef
             /\ Folder.id ef = id).
  { destruct (JS.find (fun x => Folder.id x =? id) (folders (store w)))
      as [ef|] eqn:E.
    - exists ef. split; [reflexivity |].
      apply find_some in E as [_ E]. now apply String.eqb_eq.
    - exfalso. pose proof (find_none _ _ E g Hg) as Hn. simpl in Hn.
      apply String.eqb_neq in Hn. contradiction. }
  destruct Hfind as (ef & Hfind & Hef).
  set (u := Folder.mkPartial None (Some (fd_name data)) None
              (Some (icon_color FOLDER_ICONS (fd_iconName data)))
              (Some (fd_iconName data)) None None None None None).
  assert (Hw2 : w2 = handleClose (updateFolder env id u (handleEditFolder id w))).
  { unfold w2, onSubmit, editingFolder, handleEditFolder.
    cbn [store setCreateFolderModalOpen setEditingFolder editingFolderId
         folders parentFolderId].
    apply String.eqb_neq in Hid. unfold JS.truthy. rewrite Hid. simpl negb.
    cbv iota. rewrite Hfind. rewrite Hef.
    destruct (parentFolderId (store w)); reflexivity. }
  assert (Hat1 : folder_at (handleEditFolder id w) i f) by exact Hat.
  destruct (@updateFolder_at id u (handleEditFolder id w) i f Hat1)
    as [Hmiss Hhit].
  assert (Hlen : List.length (folders (store w2))
                 = List.length (folders (store w))).
  { rewrite Hw2, handleClose_folders, updateFolder_length. reflexivity. }
  assert (Hrest : links (store w2) = links (store w)
                  /\ editingFolderId (store w2) = None
                  /\ parentFolderId (store w2) = None
                  /\ isCreateFolderModalOpen (store w2) = false).
  { rewrite Hw2. repeat split; reflexivity. }
  destruct (String.eqb_spec (Folder.id f) id) as [He | Hne].
  - destruct (Hhit He) as (k & Hk & Hat2).
    exists (Folder.set_updatedAt (stamp env k) (Folder.spread f u)).
    split; [rewrite Hw2; exact Hat2 |].
    do 6 (split; [reflexivity |]).
    split.
    { intros _. do 3 (split; [reflexivity |]).
      exists k. split; [exact Hk | reflexivity]. }
    split; [intros Hne; contradiction |].
    split; [exact Hlen | exact Hrest].
  - exists f. split; [rewrite Hw2; exact (Hmiss Hne) |].
    do 6 (split; [reflexivity |]).
    split; [intros He; contradiction |].
    split; [reflexivity |].
    split; [exact Hlen | exact Hrest].
Qed.

End EditFolderFlow.

Lemma edit_folder_flow_witness :
  let root := Folder.mk "r" "Root" None "#000000" "Star" None true
                (Some youtube) "2025-01-01T00:00:00.000Z"
                "2025-01-01T00:00:00.000Z" in
  let w := Demo.world [] [root] in
  let data := mkFolderFormData "Videos" "Folder" in
  folder_at w 0 root
  /\ "r" <> ""
  /\ (exists g, In g (folders (store w)) /\ Folder.id g = "r")
  /\ exists f',
       folder_at (onSubmit Demo.env Demo.icons data (handleEditFolder "r" w))
         0 f'
       /\ Folder.name f' = "Videos"
       /\ Folder.isPlatformFolder f' = true.
Proof.
  intros root w data.
  assert (Hp : "r" <> "") by discriminate.
  assert (Hex : exists g, In g (folders (store w)) /\ Folder.id g = "r").
  { exists root. split; [now left | reflexivity]. }
  split; [reflexivity | split; [exact Hp | split; [exact Hex |]]].
  destruct (@edit_folder_flow Demo.env Demo.icons "r" data w 0 root
              eq_refl Hp Hex)
    as (f' & Hat & _ & _ & _ & Hpf & _ & _ & Hn & _).
  exists f'. split; [exact Hat |].
  split; [exact (proj1 (Hn eq_refl)) | exact Hpf].
Defined.

(* ================================================================= *)
(** ** Deleting a folder from the sidebar *)

Lemma getAllSubFolderIds_S fuel fs p :
  getAllSubFolderIds (S fuel) fs p
  = match
      fold_right
        (fun f acc =>
           match getAllSubFolderIds fuel fs (Folder.id f), acc with
           | Some ids, Some rest => Some (ids ++ rest)
           | _, _ => None
           end)
        (Some []) (children fs p)
    with
    | Some nestedIds => Some (map Folder.id (children fs p) ++ nestedIds)
    | None => None
    end.
Proof. reflexivity. Qed.

Lemma getAllSubFolderIds_leaf fuel fs p :
  children fs p = [] -> getAllSubFolderIds (S fuel) fs p = Some [].
Proof.
  intros H. rewrite getAllSubFolderIds_S, H. reflexivity.
Qed.

Lemma nested_leaves fuel fs (subs : list Folder.t) :
  (forall s, In s subs -> children fs (Folder.id s) = []) ->
  fold_right
    (fun f acc =>
       match getAllSubFolderIds (S fuel) fs (Folder.id f), acc with
       | Some ids, Some rest => Some (ids ++ rest)
       | _, _ => None
       end)
    (Some []) subs
  = Some [].
Proof.
  induction subs as [|s subs IH]; intros H; [reflexivity |].
  cbn [fold_right]. rewrite IH by (intros; apply H; now right).
  rewrite getAllSubFolderIds_leaf by (apply H; now left). reflexivity.
Qed.

Lemma sub_folders_are_leaves fs p s :
  two_levels_or_dangling fs ->
  In s (children fs p) -> children fs (Folder.id s) = [].
Proof.
  intros Hinv Hs. apply filter_In in Hs as [Hs Hpar].
  apply opt_eqb_eq in Hpar.
  apply filter_none. intros f Hf.
  destruct (JS.opt_eqb (Folder.parentId f) (Some (Folder.id s))) eqn:E;
    [| reflexivity].
  apply opt_eqb_eq in E.
  pose proof (Hinv f (Folder.id s) Hf E s Hs eq_refl). congruence.
Qed.

Lemma getAllSubFolderIds_two_levels fuel fs p :
  two_levels_or_dangling fs ->
  getAllSubFolderIds (S (S fuel)) fs p = Some (map Folder.id (children fs p)).
Proof.
  intros Hinv. rewrite getAllSubFolderIds_S.
  rewrite (@nested_leaves fuel fs (children fs p)).
  - now rewrite List.app_nil_r.
  - intros s Hs. now apply (@sub_folders_are_leaves fs p).
Qed.

(** X16. Deleting a folder from the sidebar, in a collection where the
    folder a sub-folder names, if present, is a root. The recursive search
    of the sub-folders returns, from depth two on, the identifiers of the
    direct sub-folders. The dialog opens with the count of the links filed
    under the folder or one of them. If the user declines, nothing else
    changes. If the user accepts, the folders that carry the identifier are
    removed and no other: the sub-folders stay, with their [parentId], and
    the links stay, with their [folderId]; the selected folder is cleared
    when it was the deleted one. *)
Theorem handleDeleteFolder_keeps_contents fuel folderId folderName confirmed
  w u selectedFolderId :
  two_levels_or_dangling (folders (store w)) ->
  2 <= fuel ->
  let subs := children (folders (store w)) folderId in
  let st' := handleDeleteFolder fuel folderId folderName confirmed
               (w, u, selectedFolderId) in
  let w' := fst (fst st') in
  let u' := snd (fst st') in
  getAllSubFolderIds fuel (folders (store w)) folderId
  = Some (map Folder.id subs)
  /\ confirms u'
     = confirms u
         ++ [delete_confirmation folderName
               (List.length
                  (linksInFolder (folderId :: map Folder.id subs)
                     (links (store w))))]
  /\ links (store w') = links (store w)
  /\ (confirmed = false ->
      w' = w /\ toasts u' = toasts u /\ snd st' = selectedFolderId)
  /\ (confirmed = true ->
      absent_folder folderId w'
      /\ (forall f, In f (folders (store w)) -> Folder.id f <> folderId ->
            In f (folders (store w')))
      /\ (forall f, In f (folders (store w')) -> In f (folders (store w)))
      /\ List.length (toasts u') = S (List.length (toasts u))
      /\ (selectedFolderId = Some folderId -> snd st' = None)
      /\ (selectedFolderId <> Some folderId -> snd st' = selectedFolderId)).
Proof.
  intros Hinv Hfuel subs st' w' u'.
  destruct fuel as [|[|fuel]]; try lia.
  pose proof (@getAllSubFolderIds_two_levels fuel (folders (store w))
                folderId Hinv) as Hsubs.
  fold subs in Hsubs.
  split; [exact Hsubs |].
  unfold w', u', st', handleDeleteFolder. rewrite Hsubs.
  destruct confirmed.
  - split; [reflexivity | split; [reflexivity |]].
    split; [discriminate |]. intros _.
    split.
    { intros f Hf. cbn [fst] in Hf. unfold deleteFolder in Hf.
      rewrite folders_commit_folders in Hf. cbn [fst] in Hf.
      apply filter_In in Hf as [_ Hf]. apply negb_true_iff in Hf.
      now apply String.eqb_neq. }
    split.
    { intros f Hf Hne. cbn [fst]. unfold deleteFolder.
      rewrite folders_commit_folders. cbn [fst]. apply filter_In.
      split; [exact Hf |]. apply negb_true_iff. now apply String.eqb_neq. }
    split.
    { intros f Hf. cbn [fst] in Hf. unfold deleteFolder in Hf.
      rewrite folders_commit_folders in Hf. cbn [fst] in Hf.
      now apply filter_In in Hf as [Hf _]. }
    split.
    { cbn [fst snd]. unfold toast, window_confirm. cbn [toasts].
      rewrite length_app. simpl. lia. }
    split.
    + intros ->. cbn [snd]. simpl. now rewrite String.eqb_refl.
    + intros Hne. cbn [snd].
      destruct (JS.opt_eqb selectedFolderId (Some folderId)) eqn:E;
        [| reflexivity].
      apply opt_eqb_eq in E. contradiction.
  - split; [reflexivity | split; [reflexivity |]].
    split; [| discriminate]. intros _. repeat split.
Qed.

Lemma handleDeleteFolder_keeps_contents_witness :
  let root := Folder.mk "r" "Root" None "#000000" "Folder" None false None
                "2025-01-01T00:00:00.000Z" "2025-01-01T00:00:00.000Z" in
  let sub := Folder.mk "s" "Sub" None "#000000" "Folder" (Some "r") false None
               "2025-01-01T00:00:00.000Z" "2025-01-01T00:00:00.000Z" in
  let l := Demo.a_link "a" (Some "s") false in
  let w := Demo.world [l] [root; sub] in
  let st' := handleDeleteFolder 2 "r" "Root" true (w, mkUI [] [] [], Some "r") in
  two_levels_or_dangling (folders (store w))
  /\ 2 <= 2
  /\ getAllSubFolderIds 2 (folders (store w)) "r" = Some ["s"]
  /\ folders (store (fst (fst st'))) = [sub]
  /\ links (store (fst (fst st'))) = [l]
  /\ snd st' = None.
Proof.
  intros root sub l w st'.
  assert (Hinv : two_levels_or_dangling (folders (store w))).
  { intros f p Hf Hp g Hg Hid. simpl in Hf, Hg.
    destruct Hf as [<- | [<- | []]]; [discriminate |].
    injection Hp as <-.
    destruct Hg as [<- | [<- | []]]; [reflexivity | discriminate]. }
  split; [exact Hinv | split; [lia |]].
  destruct (@handleDeleteFolder_keeps_contents 2 "r" "Root" true w
              (mkUI [] [] []) (Some "r") Hinv (Nat.le_refl 2))
    as (Hsubs & _ & Hlinks & _ & Hyes).
  split; [exact Hsubs | split; [reflexivity | split; [exact Hlinks |]]].
  destruct (Hyes eq_refl) as (_ & _ & _ & _ & Hsel & _).
  exact (Hsel eq_refl).
Defined.

(* ================================================================= *)
(** ** The selection after a bulk action *)

Section AfterBulk.

Variable env : Env.

(** Where every link of the collection comes from after
    [ids.forEach(id => updateLink(id, u))]. *)
Lemma forEach_updateLink_all u ids w l' :
  Link.p_id u = None ->
  In l' (links (store (forEach (fun id => updateLink env id u) ids w))) ->
  exists m,
    In m (links (store w))
    /\ ((JS.includes ids (Link.id m) = false /\ l' = m)
        \/ (JS.includes ids (Link.id m) = true
            /\ exists k, l' = Link.set_updatedAt (stamp env k)
                                (Link.spread m u))).
Proof.
  intros Hu Hin.
  apply In_nth_error in Hin as [i Hi].
  assert (Hlt : i < List.length (links (store w))).
  { rewrite <- (forEach_updateLink_length env u ids w).
    apply nth_error_Some. congruence. }
  destruct (nth_error (links (store w)) i) as [m|] eqn:Hm;
    [| apply nth_error_None in Hm; lia].
  exists m. split; [now apply nth_error_In with i |].
  destruct (@forEach_updateLink_at env u ids Hu w i m Hm) as [Hno Hyes].
  destruct (JS.includes ids (Link.id m)) eqn:E.
  - right. split; [reflexivity |].
    destruct (Hyes eq_refl) as (k & _ & Hat). exists k.
    unfold link_at in Hat. congruence.
  - left. split; [reflexivity |].
    specialize (Hno eq_refl). unfold link_at in Hno. congruence.
Qed.

Lemma forEach_updateLink_ids u ids w :
  Link.p_id u = None ->
  map Link.id (links (store (forEach (fun id => updateLink env id u) ids w)))
  = map Link.id (links (store w)).
Proof.
  intros Hu. revert w. induction ids as [|a ids IH]; intros w;
    [reflexivity |].
  rewrite forEach_cons, IH. unfold updateLink.
  rewrite links_commit_links. apply mapE_map.
  intros l s'. destruct (Link.id l =? a); [| reflexivity].
  simpl. now rewrite Hu.
Qed.

Lemma map_id_selectedLinks ids ls :
  map Link.id (selectedLinks ids ls) = filter (JS.includes ids) (map Link.id ls).
Proof.
  unfold selectedLinks. induction ls as [|l ls IH]; simpl; [reflexivity |].
  destruct (JS.includes ids (Link.id l)); simpl; now rewrite IH.
Qed.

Lemma uniform_not_mixed b sl :
  (forall l, In l sl -> Link.isFavorite l = b) -> hasMixedStates sl = false.
Proof.
  intros H. destruct (hasMixedStates sl) eqn:E; [| reflexivity].
  apply hasMixedStates_mixed in E as [(x & Hx & Ex) (y & Hy & Ey)].
  rewrite (H x Hx) in Ex. rewrite (H y Hy) in Ey. congruence.
Qed.

Lemma shouldFavorite_uniform b sl :
  sl <> [] ->
  (forall l, In l sl -> Link.isFavorite l = b) -> shouldFavorite sl = negb b.
Proof.
  intros Hne H. unfold shouldFavorite. rewrite (@uniform_not_mixed b sl H).
  destruct sl as [|first rest]; [contradiction |].
  f_equal. apply H. now left.
Qed.

Lemma handleBulkFavorite_selected w u l :
  In l (selectedLinks (selectedIds u)
          (links (store (fst (handleBulkFavorite env (w, u)))))) ->
  Link.isFavorite l
  = shouldFavorite (selectedLinks (selectedIds u) (links (store w))).
Proof.
  intros Hl. apply selectedLinks_In in Hl as [Hl Hsel].
  rewrite handleBulkFavorite_links in Hl.
  apply forEach_updateLink_all in Hl as (m & _ & [[Hno ->] | [_ [k ->]]]);
    [congruence | reflexivity | reflexivity].
Qed.

Lemma handleBulkFavorite_selection_ids w u :
  map Link.id (selectedLinks (selectedIds u)
                 (links (store (fst (handleBulkFavorite env (w, u))))))
  = map Link.id (selectedLinks (selectedIds u) (links (store w))).
Proof.
  rewrite !map_id_selectedLinks, handleBulkFavorite_links.
  now rewrite forEach_updateLink_ids.
Qed.

(** X17. The star of the bulk action bar. After one press the selected
    links all carry the flag the press has chosen, so the selection is never
    mixed afterwards, and it holds the links of the same identifiers as
    before. A second press then chooses the opposite flag: after two presses
    every selected link carries the negation of the flag chosen by the
    first, which gives a uniform selection its flags back and leaves a
    selection that was mixed with no favorite at all. *)
Theorem handleBulkFavorite_leaves_uniform w u :
  let sl := selectedLinks (selectedIds u) (links (store w)) in
  let fav := shouldFavorite sl in
  let st' := handleBulkFavorite env (w, u) in
  let sl' := selectedLinks (selectedIds u) (links (store (fst st'))) in
  let st'' := handleBulkFavorite env st' in
  let sl'' := selectedLinks (selectedIds u) (links (store (fst st''))) in
  (forall l, In l sl' -> Link.isFavorite l = fav)
  /\ hasMixedStates sl' = false
  /\ map Link.id sl' = map Link.id sl
  /\ (forall l, In l sl'' -> Link.isFavorite l = negb fav)
  /\ map Link.id sl'' = map Link.id sl.
Proof.
  intros sl fav st' sl' st'' sl''.
  assert (H1 : forall l, In l sl' -> Link.isFavorite l = fav).
  { intros l Hl. now apply handleBulkFavorite_selected. }
  assert (Hmix : hasMixedStates sl' = false)
    by exact (@uniform_not_mixed fav sl' H1).
  assert (Hst : st' = (fst st', snd st')) by now destruct st'.
  assert (Hsel : selectedIds (snd st') = selectedIds u) by reflexivity.
  split; [exact H1 | split; [exact Hmix | split]].
  { apply handleBulkFavorite_selection_ids. }
  assert (Hids : map Link.id sl'' = map Link.id sl').
  { unfold sl'', st''. rewrite Hst, <- Hsel.
    rewrite handleBulkFavorite_selection_ids. now rewrite Hsel. }
  split.
  - intros l Hl. pose proof Hl as Hl0.
    unfold sl'', st'' in Hl. rewrite Hst, <- Hsel in Hl.
    apply handleBulkFavorite_selected in Hl. rewrite Hsel in Hl.
    rewrite Hl. apply shouldFavorite_uniform; [| exact H1].
    intros E. fold sl' in E. rewrite E in Hids. apply map_eq_nil in Hids.
    rewrite Hids in Hl0. destruct Hl0.
  - rewrite Hids. apply handleBulkFavorite_selection_ids.
Qed.

End AfterBulk.

Section AfterMove.

Variable env : Env.

Lemma moved_links_in_target target w u l :
  unique_link_ids w ->
  In l (links (store
          (forEach (fun id => updateLink env id (folder_update target))
             (filter (should_move (links (store w)) target) (selectedIds u))
             w))) ->
  selected u l = true ->
  in_folder target l = true.
Proof.
  intros Hnd Hl Hsel.
  apply forEach_updateLink_all in Hl as (m & Hm & [[Hno ->] | [_ [k ->]]]);
    [| | reflexivity].
  - rewrite includes_filter in Hno. unfold selected in Hsel.
    rewrite Hsel in Hno. cbn [andb] in Hno.
    unfold should_move in Hno. rewrite (@find_unique (links (store w)) m Hnd Hm) in Hno.
    now apply negb_false_iff in Hno.
  - unfold in_folder. simpl. apply String.eqb_refl.
Qed.

Lemma nothing_to_move target u ls :
  (forall l, In l ls -> selected u l = true -> in_folder target l = true) ->
  filter (should_move ls target) (selectedIds u) = [].
Proof.
  intros H. apply filter_none. intros a Ha. unfold should_move.
  destruct (JS.find (fun l => Link.id l =? a) ls) as [l|] eqn:E;
    [| reflexivity].
  apply find_some in E as [Hl Hid]. apply String.eqb_eq in Hid.
  rewrite (H l Hl); [reflexivity |].
  unfold selected. apply includes_In. now rewrite Hid.
Qed.

(** X18. A committed bulk move to a folder [target], identifiers being
    unique in the collection: afterwards every link of the selection is
    filed under [target] and no link is left to move; moving the same
    selection to the same folder again writes nothing, whatever the answer
    to its dialog is: the store is left as it was and the clock is not
    read. *)
Theorem handleMove_leaves_nothing_to_move target proceed again w u :
  unique_link_ids w ->
  target <> "" ->
  committed target proceed u w = true ->
  let w' := fst (handleMove env (Some target) proceed (w, u)) in
  (forall l, In l (links (store w')) -> selected u l = true ->
     Link.folderId l = Some target)
  /\ to_move target u w' = 0
  /\ fst (handleMove env (Some target) again (w', u)) = w'.
Proof.
  intros Hnd Ht Hc w'.
  assert (Hw' : w' = forEach (fun id => updateLink env id (folder_update target))
                       (filter (should_move (links (store w)) target)
                          (selectedIds u)) w).
  { unfold w'. rewrite (@handleMove_unfold env target proceed w u Ht).
    cbv zeta. now rewrite Hc. }
  assert (Hall : forall l, In l (links (store w')) -> selected u l = true ->
                   in_folder target l = true).
  { intros l Hl Hsel. rewrite Hw' in Hl.
    now apply (@moved_links_in_target target w u l). }
  split; [| split].
  - intros l Hl Hsel. apply opt_eqb_eq. exact (Hall l Hl Hsel).
  - unfold to_move. rewrite filter_none; [reflexivity |].
    intros l Hl. destruct (selected u l) eqn:E; [| reflexivity].
    now rewrite (Hall l Hl E).
  - rewrite (@handleMove_unfold env target again w' u Ht). cbv zeta.
    rewrite (@nothing_to_move target u (links (store w')) Hall).
    now destruct (committed target again u w').
Qed.

End AfterMove.

Lemma handleMove_leaves_nothing_to_move_witness :
  let a := Demo.a_link "a" (Some "f") false in
  let b := Demo.a_link "b" None false in
  let w := Demo.world [a; b] [] in
  let u := mkUI ["a"; "b"] [] [] in
  let w' := fst (handleMove Demo.env (Some "f") true (w, u)) in
  unique_link_ids w
  /\ "f" <> ""
  /\ committed "f" true u w = true
  /\ to_move "f" u w' = 0
  /\ fst (handleMove Demo.env (Some "f") false (w', u)) = w'.
Proof.
  intros a b w u w'.
  assert (Hnd : unique_link_ids w).
  { unfold unique_link_ids. simpl.
    repeat constructor; simpl; intuition discriminate. }
  assert (Ht : "f" <> "") by discriminate.
  assert (Hc : committed "f" true u w = true) by reflexivity.
  split; [exact Hnd | split; [exact Ht | split; [exact Hc |]]].
  exact (proj2 (@handleMove_leaves_nothing_to_move Demo.env "f" true false
                  w u Hnd Ht Hc)).
Defined.

(* ================================================================= *)
(** ** The favorite button of the grid card and of the list card *)

Lemma mapE_ext_in {A B : Type} (f g : A -> Eff B) l s :
  (forall a s', In a l -> f a s' = g a s') -> mapE f l s = mapE g l s.
Proof.
  revert s. induction l as [|a l IH]; intros s H; [reflexivity |].
  simpl. unfold bind. rewrite (H a s (or_introl eq_refl)).
  destruct (g a s) as [b s1]. rewrite IH by (intros; apply H; now right).
  reflexivity.
Qed.

(** X19. The favorite button of the grid card writes the negation of the
    flag of the link the card shows, through [updateLink]; the one of the
    list card calls [toggleFavorite]. For a card that shows a link of the
    collection, identifiers being unique, the two leave the same store, the
    same storage and the same clock. *)
Theorem card_favorite_buttons_agree env link w :
  unique_link_ids w ->
  In link (links (store w)) ->
  card_toggleFavorite env link w = list_card_toggleFavorite env link w.
Proof.
  intros Hnd Hin.
  unfold card_toggleFavorite, list_card_toggleFavorite, updateLink,
    toggleFavorite.
  f_equal. apply mapE_ext_in. intros l s' Hl.
  destruct (Link.id l =? Link.id link) eqn:E; [| reflexivity].
  apply String.eqb_eq in E.
  rewrite (@NoDup_map_In_eq _ _ Link.id (links (store w)) l link Hnd Hl Hin E).
  reflexivity.
Qed.

Lemma card_favorite_buttons_agree_witness :
  let a := Demo.a_link "a" None true in
  let b := Demo.a_link "b" None false in
  let w := Demo.world [a; b] [] in
  unique_link_ids w
  /\ In a (links (store w))
  /\ card_toggleFavorite Demo.env a w = list_card_toggleFavorite Demo.env a w.
Proof.
  intros a b w.
  assert (Hnd : unique_link_ids w).
  { unfold unique_link_ids. simpl.
    repeat constructor; simpl; intuition discriminate. }
  assert (Hin : In a (links (store w))) by now left.
  split; [exact Hnd | split; [exact Hin |]].
  exact (@card_favorite_buttons_agree Demo.env a w Hnd Hin).
Defined.

(* ================================================================= *)
(** ** Submitting the link form *)

Section LinkFormFacts.

Variable env : Env.
Variable detectPlatform : string -> Platform.

Lemma folderId_or_null_nonempty f : folderId_or_null f <> Some "".
Proof.
  destruct f as [[s|]|]; simpl; try discriminate.
  destruct (s =? "") eqn:E; simpl; [discriminate |].
  apply String.eqb_neq in E. congruence.
Qed.

(** X20. Submitting the link form while it edits the link [el] of the
    collection, identifiers being unique: the link keeps its position, its
    identifier, its favorite flag, its trash state and its creation
    timestamp; its address, title, description, thumbnail, platform and
    folder are those of the form, an empty folder choice being stored as
    null; its [updatedAt] is a reading of the clock made by the submission.
    The links with another identifier are not touched and no link is added
    or removed. *)
Theorem submitLink_edits_in_place thumbnail data w i el :
  unique_link_ids w ->
  Link.id el <> "" ->
  link_at w i el ->
  let w' := submitLink env detectPlatform (Some (Link.id el)) thumbnail data w
  in
  (exists k,
     ticks (sys w) <= k < ticks (sys w')
     /\ link_at w' i
          (Link.mk (Link.id el) (lf_url data) (lf_title data)
             (description_or_empty (lf_description data)) thumbnail
             (detectPlatform (lf_url data))
             (folderId_or_null (lf_folderId data))
             (Link.isFavorite el) (Link.deletedAt el) (Link.createdAt el)
             (stamp env k)))
  /\ (forall j m, link_at w j m -> Link.id m <> Link.id el -> link_at w' j m)
  /\ List.length (links (store w')) = List.length (links (store w))
  /\ folderId_or_null (lf_folderId data) <> Some "".
Proof.
  intros Hnd Hne Hat w'.
  assert (Hin : In el (links (store w))) by now apply nth_error_In with i.
  assert (Hw' : w' = updateLink env (Link.id el)
                       (Link.mkPartial None (Some (lf_url data))
                          (Some (lf_title data))
                          (Some (description_or_empty (lf_description data)))
                          (Some thumbnail)
                          (Some (detectPlatform (lf_url data)))
                          (Some (folderId_or_null (lf_folderId data)))
                          (Some (Link.isFavorite el)) None None None) w).
  { unfold w', submitLink, editingLink, JS.truthy.
    apply String.eqb_neq in Hne. rewrite Hne. cbn [negb].
    now rewrite (@find_unique (links (store w)) el Hnd Hin). }
  rewrite Hw'. split; [| split; [| split]].
  - match goal with
    | |- context [updateLink env _ ?p w] =>
        destruct (@updateLink_hit env (Link.id el) p w i el Hat eq_refl)
          as (k & Hk & Hat')
    end.
    exists k. split; [exact Hk | exact Hat'].
  - intros j m Hm Hid. now apply updateLink_miss.
  - apply updateLink_length.
  - apply folderId_or_null_nonempty.
Qed.

(** X21. Submitting the link form when the store names no link to edit, or
    names an identifier that no link of the collection carries any more:
    the form adds a link. The collection grows by one link at its end,
    which carries the values of the form, is not a favorite, is not in the
    trash and has the identifier just issued by the generator; an empty
    folder choice is stored as null. *)
Theorem submitLink_adds_without_target editingLinkId thumbnail data w :
  (forall e, editingLinkId = Some e -> e = "" \/ absent_link e w) ->
  let w' := submitLink env detectPlatform editingLinkId thumbnail data w in
  exists n,
    links (store w') = links (store w) ++ [n]
    /\ Link.id n = randomUUID env (issued (sys w))
    /\ Link.url n = lf_url data
    /\ Link.title n = lf_title data
    /\ Link.description n = description_or_empty (lf_description data)
    /\ Link.thumbnail n = thumbnail
    /\ Link.platform n = detectPlatform (lf_url data)
    /\ Link.folderId n = folderId_or_null (lf_folderId data)
    /\ Link.folderId n <> Some ""
    /\ Link.isFavorite n = false
    /\ Link.deletedAt n = None.
Proof.
  intros H w'.
  assert (He : editingLink editingLinkId w = None).
  { unfold editingLink. destruct editingLinkId as [e|]; [| reflexivity].
    destruct (H e eq_refl) as [-> | Habs]; [reflexivity |].
    destruct (JS.truthy (Some e)); [| reflexivity].
    destruct (JS.find (fun l => Link.id l =? e) (links (store w))) as [l|] eqn:E;
      [| reflexivity].
    apply find_some in E as [Hl Hid]. apply String.eqb_eq in Hid.
    now destruct (Habs l Hl). }
  unfold w', submitLink. rewrite He. unfold addLink. simpl.
  eexists. split; [reflexivity |]. simpl.
  repeat (split; [reflexivity |]).
  split; [apply folderId_or_null_nonempty |].
  split; reflexivity.
Qed.

End LinkFormFacts.

Lemma submitLink_edits_in_place_witness :
  let a := Demo.a_link "a" None true in
  let w := Demo.world [a] [] in
  let data := mkLinkFormData "https://example.org/new" "New" None
                (Some (Some "")) in
  let w' := submitLink Demo.env (fun _ => other) (Some "a") "" data w in
  unique_link_ids w
  /\ Link.id a <> ""
  /\ link_at w 0 a
  /\ List.length (links (store w')) = 1.
Proof.
  intros a w data w'.
  assert (Hnd : unique_link_ids w).
  { unfold unique_link_ids. simpl.
    repeat constructor; simpl; intuition discriminate. }
  assert (Hne : Link.id a <> "") by discriminate.
  assert (Hat : link_at w 0 a) by reflexivity.
  split; [exact Hnd | split; [exact Hne | split; [exact Hat |]]].
  exact (proj1 (proj2 (proj2
    (@submitLink_edits_in_place Demo.env (fun _ => other) "" data w 0 a
       Hnd Hne Hat)))).
Defined.

Lemma submitLink_adds_without_target_witness :
  let a := Demo.a_link "a" None true in
  let w := Demo.world [a] [] in
  let data := mkLinkFormData "https://example.org/new" "New" None None in
  (forall e, Some "gone" = Some e -> e = "" \/ absent_link e w)
  /\ exists n,
       links (store (submitLink Demo.env (fun _ => other) (Some "gone") ""
                       data w))
       = [a; n]
       /\ Link.isFavorite n = false.
Proof.
  intros a w data.
  assert (H : forall e, Some "gone" = Some e -> e = "" \/ absent_link e w).
  { intros e [= <-]. right. intros l [<- | []]. discriminate. }
  split; [exact H |].
  destruct (@submitLink_adds_without_target Demo.env (fun _ => other)
              (Some "gone") "" data w H)
    as (n & Hl & _ & _ & _ & _ & _ & _ & _ & _ & Hf & _).
  exists n. split; [exact Hl | exact Hf].
Defined.

(* ================================================================= *)
(** ** Expanding and collapsing a folder of the sidebar *)

(** X22. [toggleFolderExpanded(id)] on the set of expanded folders: the
    membership of [id] flips and no other membership changes, a set without
    repetition stays so, and toggling twice gives a set with the members it
    had (a folder that was collapsed and is expanded and collapsed again
    leaves the very same set). *)
Theorem toggleFolderExpanded_flips id expanded :
  let next := toggleFolderExpanded id expanded in
  StringSet.has next id = negb (StringSet.has expanded id)
  /\ (forall x, x <> id -> StringSet.has next x = StringSet.has expanded x)
  /\ (NoDup expanded -> NoDup next)
  /\ (forall x, StringSet.has (toggleFolderExpanded id next) x
                = StringSet.has expanded x)
  /\ (StringSet.has expanded id = false ->
      toggleFolderExpanded id next = expanded).
Proof.
  assert (Hflip : forall s,
            StringSet.has (toggleFolderExpanded id s) id
            = negb (StringSet.has s id)).
  { intros s. unfold toggleFolderExpanded, StringSet.add, StringSet.delete,
      StringSet.has.
    destruct (JS.includes s id) eqn:E; cbn [negb].
    - apply includes_false_iff. intros H.
      apply filter_In in H as [_ H]. now rewrite String.eqb_refl in H.
    - rewrite includes_app. simpl. rewrite String.eqb_refl.
      now rewrite orb_true_r. }
  assert (Hother : forall s x, x <> id ->
            StringSet.has (toggleFolderExpanded id s) x = StringSet.has s x).
  { intros s x Hx. unfold toggleFolderExpanded, StringSet.add,
      StringSet.delete, StringSet.has.
    apply String.eqb_neq in Hx.
    destruct (JS.includes s id) eqn:E.
    - rewrite (includes_filter (fun y => negb (y =? id)) s x).
      rewrite Hx. apply andb_true_r.
    - rewrite includes_app. simpl. rewrite Hx. now rewrite !orb_false_r. }
  intros next. split; [apply Hflip | split; [apply Hother | split; [| split]]].
  - intros H. unfold next, toggleFolderExpanded, StringSet.add,
      StringSet.delete, StringSet.has.
    destruct (JS.includes expanded id) eqn:E.
    + now apply NoDup_filter.
    + apply includes_false_iff in E.
      apply NoDup_app; [exact H | repeat constructor; intros [] |].
      intros x Hx [<- | []]. contradiction.
  - intros x. destruct (String.eqb_spec x id) as [-> | Hx].
    + unfold next. rewrite !Hflip. apply negb_involutive.
    + unfold next. now rewrite !Hother.
  - intros E. unfold next, toggleFolderExpanded, StringSet.add,
      StringSet.delete, StringSet.has in *.
    rewrite E. rewrite includes_app. simpl. rewrite String.eqb_refl.
    rewrite orb_true_r. rewrite filter_app. simpl.
    rewrite String.eqb_refl. simpl. rewrite List.app_nil_r.
    apply filter_neq_absent. now apply includes_false_iff.
Qed.

Lemma toggleFolderExpanded_flips_witness :
  NoDup ["a"; "b"]
  /\ NoDup (toggleFolderExpanded "c" ["a"; "b"])
  /\ StringSet.has ["a"; "b"] "c" = false
  /\ toggleFolderExpanded "c" (toggleFolderExpanded "c" ["a"; "b"])
     = ["a"; "b"].
Proof.
  assert (H : NoDup ["a"; "b"]).
  { repeat constructor; simpl; intuition discriminate. }
  destruct (toggleFolderExpanded_flips "c" ["a"; "b"])
    as (_ & _ & Hnd & _ & Hback).
  split; [exact H | split; [exact (Hnd H) | split; [reflexivity |]]].
  exact (Hback eq_refl).
Defined.

(* ================================================================= *)
(** ** Keyboard shortcuts *)

Section ShortcutFacts.

Variable C : Type.
Variable toLowerCase : string -> string.

Lemma bool_reflect_eq (b c : bool) : (if b then c else negb c) = true <-> b = c.
Proof. destruct b, c; simpl; split; congruence. Qed.

Lemma matches_chord (event : KeyboardEvent) (shortcut : KeyboardShortcut C) :
  matches toLowerCase event shortcut = true
  <-> signature toLowerCase shortcut = chord toLowerCase event.
Proof.
  unfold matches, signature, chord.
  rewrite <- negb_orb.
  rewrite !andb_true_iff, !bool_reflect_eq, String.eqb_eq.
  split.
  - intros [[[-> ->] ->] ->]. reflexivity.
  - intros [= -> -> -> ->]. repeat split.
Qed.

Lemma same_image_short {A B : Type} (g : A -> B) (b : B) (l : list A) :
  NoDup (map g l) -> (forall a, In a l -> g a = b) -> List.length l <= 1.
Proof.
  destruct l as [|x [|y l]]; simpl; intros Hnd H; try lia.
  inversion Hnd as [|? ? Hx _]; subst. exfalso. apply Hx. left.
  rewrite (H y), (H x); auto.
Qed.

(** X23. A shortcut fires on a key event when, and only when, the event
    carries the key of the shortcut (case apart) and exactly the modifiers
    the shortcut asks for, Control and Meta counting as one: a modifier held
    in excess prevents it. An event without a key fires nothing. Among
    shortcuts that ask for pairwise different combinations, at most one
    fires on an event. *)
Theorem shortcut_fires_on_exact_chord
  (shortcuts : list (KeyboardShortcut C)) (event : KeyboardEvent) :
  (forall callback,
     In callback (handleKeyDown toLowerCase shortcuts event)
     <-> ev_key event <> ""
         /\ exists shortcut,
              In shortcut shortcuts
              /\ sc_callback shortcut = callback
              /\ signature toLowerCase shortcut = chord toLowerCase event)
  /\ (ev_key event = "" -> handleKeyDown toLowerCase shortcuts event = [])
  /\ (NoDup (map (signature toLowerCase) shortcuts) ->
      List.length (handleKeyDown toLowerCase shortcuts event) <= 1).
Proof.
  unfold handleKeyDown, JS.truthy.
  destruct (String.eqb_spec (ev_key event) "") as [E | E]; cbn [negb].
  - split; [| split; [reflexivity | simpl; lia]].
    intros callback. split; [intros [] | intros [H _]; contradiction].
  - split; [| split; [contradiction |]].
    + intros callback. rewrite in_map_iff. split.
      * intros (sc & Hcb & Hin). apply filter_In in Hin as [Hin Hm].
        split; [exact E |]. exists sc.
        split; [exact Hin | split; [exact Hcb | now apply matches_chord]].
      * intros (_ & sc & Hin & Hcb & Hsig). exists sc.
        split; [exact Hcb |]. apply filter_In.
        split; [exact Hin | now apply matches_chord].
    + intros Hnd. rewrite length_map.
      apply (@same_image_short _ _ (signature toLowerCase)
               (chord toLowerCase event)).
      * now apply NoDup_map_filter.
      * intros a Ha. apply filter_In in Ha as [_ Ha].
        now apply matches_chord.
Qed.

End ShortcutFacts.

Lemma shortcut_fires_on_exact_chord_witness :
  let add := mkKeyboardShortcut "k" (Some true) None None 1 in
  let find := mkKeyboardShortcut "k" (Some true) (Some true) None 2 in
  let event := mkKeyboardEvent "k" false true false false in
  NoDup (map (signature (fun s => s)) [add; find])
  /\ List.length (handleKeyDown (fun s => s) [add; find] event) <= 1.
Proof.
  intros add find event.
  assert (H : NoDup (map (signature (fun s => s)) [add; find])).
  { repeat constructor; simpl; intuition discriminate. }
  split; [exact H |].
  exact (proj2 (proj2 (@shortcut_fires_on_exact_chord nat (fun s => s)
                         [add; find] event)) H).
Defined.
